(** * satpy/dataset.py: dataset identifiers, queries and metadata merging

    A shallow embedding of [src/satpy/dataset.py], followed by the
    properties of the identifier, the query and the metadata combiner.

    Modelling conventions.
    - Python numbers ([int], [float], the members of [numbers.Number]) are
      exact rationals [Q]: there is no rounding and no NaN. [np.inf] is the
      extra point [Inf] of [dist]. The floating-point mean that
      [average_datetimes] takes is left open ([mean]).
    - A raised exception is the [Raise] branch of [result]; an operator that
      returns [NotImplemented] is an [option] that is [None].
    - A [dict] is an association list in insertion order; Python keeps its
      keys unique.
    - A [set] is iterated in an order that the caller supplies ([iter]).
    - [sorted] is a stable sort that only uses [<]; it is the stable
      insertion sort here, which returns the same list whenever [<] is a
      strict weak order.
    - Tuples and lists hold scalars ([atom]): numbers and strings. The
      components of a WavelengthRange are numbers and its unit is a string.
    - The names of an enumeration are words that the functional Enum API
      takes as they are, one member each: the API splits the joined names
      at commas and white space and refuses reserved and repeated names.
      [fix_id_keys_with] has the call of the API as a parameter and makes
      no such assumption.
    - The keyword arguments of [DataID.__init__] are a dict that has no key
      [self] or [id_keys]: Python refuses such a call before the body
      runs, which [DataID_call] models for the calls made in the module. *)

From Stdlib Require Import ZArith QArith Qabs Lqa String Ascii List Bool Lia.
From Stdlib Require Import Permutation Sorted.
From Stdlib Require OrderedTypeEx.
Import ListNotations.

Set Implicit Arguments.

(** ** Exceptions *)

Inductive pyerr : Type :=
| TypeError (msg : string)
| ValueError (msg : string)
| KeyError (key : string)
| IndexError
| ZeroDivisionError
| NotImplementedError (msg : string).

Inductive result (A : Type) : Type :=
| Ok (a : A)
| Raise (e : pyerr).

Arguments Ok {A} a.
Arguments Raise {A} e.

Definition bind {A B : Type} (r : result A) (k : A -> result B) : result B :=
  match r with
  | Ok a => k a
  | Raise e => Raise e
  end.

Notation "x <- r ;; k" := (bind r (fun x => k))
  (at level 61, r at next level, right associativity).

(** ** Numbers *)

Definition Qlt_bool (x y : Q) : bool := negb (Qle_bool y x).

(** Distances: a number or [np.inf]. *)
Inductive dist : Type :=
| Fin (q : Q)
| Inf.

Definition dist_add (d : dist) (q : Q) : dist :=
  match d with
  | Fin a => Fin (a + q)
  | Inf => Inf
  end.

Definition dist_plus (d e : dist) : dist :=
  match e with
  | Fin q => dist_add d q
  | Inf => Inf
  end.

Definition dist_eqb (d e : dist) : bool :=
  match d, e with
  | Fin a, Fin b => Qeq_bool a b
  | Inf, Inf => true
  | _, _ => false
  end.

Definition dist_ltb (d e : dist) : bool :=
  match d, e with
  | Fin a, Fin b => Qlt_bool a b
  | Fin _, Inf => true
  | Inf, _ => false
  end.

Definition dist_le (d e : dist) : Prop := dist_ltb e d = false.

Definition dist_lt (d e : dist) : Prop := dist_ltb d e = true.

(** ** Values *)

(** Elements of tuples and lists. *)
Inductive atom : Type :=
| ANum (q : Q)
| AStr (s : string).

Record WavelengthRange : Type := mkWl {
  wl_min : Q;
  wl_central : Q;
  wl_max : Q;
  wl_unit : string
}.

Inductive value : Type :=
| VNone
| VNum (q : Q)
| VStr (s : string)
| VEnum (name : string) (ordinal : Z)   (* member of a ValueList (IntEnum) *)
| VWl (w : WavelengthRange)
| VTuple (l : list atom)
| VList (l : list atom)
| VMod (l : list atom).                 (* ModifierTuple *)

Definition atom_eq (a b : atom) : bool :=
  match a, b with
  | ANum x, ANum y => Qeq_bool x y
  | AStr s, AStr t => String.eqb s t
  | _, _ => false
  end.

Definition atom_lt (a b : atom) : result bool :=
  match a, b with
  | ANum x, ANum y => Ok (Qlt_bool x y)
  | AStr s, AStr t => Ok (String.ltb s t)
  | _, _ => Raise (TypeError "'<' not supported between these types")
  end.

(** [tuple.__eq__]: same length, items pairwise equal. *)
Fixpoint tuple_eq (l1 l2 : list atom) : bool :=
  match l1, l2 with
  | [], [] => true
  | a :: l1', b :: l2' => atom_eq a b && tuple_eq l1' l2'
  | _, _ => false
  end.

(** [tuple.__lt__]: the first pair of items that differ decides; if there is
    none the shorter sequence is the smaller. *)
Fixpoint tuple_lt (l1 l2 : list atom) : result bool :=
  match l1, l2 with
  | [], [] => Ok false
  | [], _ :: _ => Ok true
  | _ :: _, [] => Ok false
  | a :: l1', b :: l2' => if atom_eq a b then tuple_lt l1' l2' else atom_lt a b
  end.

(** The namedtuple as the tuple it is. *)
Definition wl_astuple (w : WavelengthRange) : list atom :=
  [ANum (wl_min w); ANum (wl_central w); ANum (wl_max w); AStr (wl_unit w)].

(** [self[:3]] *)
Definition wl_first3 (w : WavelengthRange) : list atom :=
  [ANum (wl_min w); ANum (wl_central w); ANum (wl_max w)].

(** [isinstance(v, numbers.Number)]; an IntEnum member is an [int]. *)
Definition as_number (v : value) : option Q :=
  match v with
  | VNum q => Some q
  | VEnum _ o => Some (inject_Z o)
  | _ => None
  end.

(** [isinstance(v, tuple)] with the items. *)
Definition as_tuple (v : value) : option (list atom) :=
  match v with
  | VTuple l => Some l
  | VMod l => Some l
  | VWl w => Some (wl_astuple w)
  | _ => None
  end.

(** [WavelengthRange.__contains__] for [None] and numbers (lines 120-125). *)
Definition wl_contains_number (w : WavelengthRange) (n : Q) : bool :=
  Qle_bool (wl_min w) n && Qle_bool n (wl_max w).

(** [ValueList.__eq__]: [self.name == other] (line 48). A string compares
    with a string; against another member the reflected [__eq__] compares the
    two names; anything else is unequal to a string. *)
Definition ValueList_eq (name : string) (other : value) : bool :=
  match other with
  | VStr t => String.eqb name t
  | VEnum m _ => String.eqb m name
  | _ => false
  end.

(** [WavelengthRange.__eq__] (lines 78-94); [None] stands for
    [NotImplemented], which [tuple.__eq__] returns for a non-tuple. *)
Definition WavelengthRange_eq (w : WavelengthRange) (other : value) : option bool :=
  match other with
  | VNone => Some false
  | VNum n => Some (wl_contains_number w n)
  | VEnum _ o => Some (wl_contains_number w (inject_Z o))
  | VTuple l | VMod l =>
      if Nat.eqb (length l) 3 then Some (tuple_eq (wl_first3 w) l)
      else Some (tuple_eq (wl_astuple w) l)
  | VList l =>
      if Nat.eqb (length l) 3 then Some false   (* a tuple never equals a list *)
      else None
  | VWl w' => Some (tuple_eq (wl_astuple w) (wl_astuple w'))
  | VStr _ => None
  end.

(** [ModifierTuple.__eq__] (lines 165-169): a list is first made a tuple. *)
Definition ModifierTuple_eq (l : list atom) (other : value) : option bool :=
  match other with
  | VList l' => Some (tuple_eq l l')
  | _ => match as_tuple other with
         | Some l' => Some (tuple_eq l l')
         | None => None
         end
  end.

(** [type(a).__eq__(a, b)]; [None] is [NotImplemented]. *)
Definition eq_method (a b : value) : option bool :=
  match a with
  | VNone => match b with VNone => Some true | _ => None end
  | VNum x => match as_number b with
              | Some y => Some (Qeq_bool x y)
              | None => None
              end
  | VStr s => match b with VStr t => Some (String.eqb s t) | _ => None end
  | VEnum n _ => Some (ValueList_eq n b)
  | VWl w => WavelengthRange_eq w b
  | VTuple l => match as_tuple b with
                | Some l' => Some (tuple_eq l l')
                | None => None
                end
  | VList l => match b with VList l' => Some (tuple_eq l l') | _ => None end
  | VMod l => ModifierTuple_eq l b
  end.

(** [type(b)] is a proper subclass of [type(a)]: ValueList of int,
    WavelengthRange and ModifierTuple of tuple. Python then tries the
    reflected method of [b] first. *)
Definition subclass_of (b a : value) : bool :=
  match a, b with
  | VNum _, VEnum _ _ => true
  | VTuple _, VWl _ => true
  | VTuple _, VMod _ => true
  | _, _ => false
  end.

Definition first_some (x y : option bool) : bool :=
  match x with
  | Some r => r
  | None => match y with Some r => r | None => false end
  end.

(** [a == b] *)
Definition py_eq (a b : value) : bool :=
  if subclass_of b a then first_some (eq_method b a) (eq_method a b)
  else first_some (eq_method a b) (eq_method b a).

(** [a != b]: every [__ne__] of the module is the negation of the class's
    [__eq__] (lines 50-52, 96-98, 171-175). *)
Definition py_ne (a b : value) : bool := negb (py_eq a b).

(** [WavelengthRange.__lt__] (lines 100-104) and [__gt__] (lines 106-110). *)
Definition tuple_lt_method (l : list atom) (other : value) : result bool :=
  match as_tuple other with
  | Some l' => tuple_lt l l'
  | None => Raise (TypeError "'<' not supported between these types")
  end.

Definition tuple_gt_method (l : list atom) (other : value) : result bool :=
  match as_tuple other with
  | Some l' => tuple_lt l' l
  | None => Raise (TypeError "'>' not supported between these types")
  end.

Definition WavelengthRange_lt (w : WavelengthRange) (other : value) : result bool :=
  match other with
  | VNone => Ok false
  | _ => tuple_lt_method (wl_astuple w) other
  end.

Definition WavelengthRange_gt (w : WavelengthRange) (other : value) : result bool :=
  match other with
  | VNone => Ok true
  | _ => tuple_gt_method (wl_astuple w) other
  end.

(** [a < b] *)
Definition py_lt (a b : value) : result bool :=
  match a, b with
  | VWl w, _ => WavelengthRange_lt w b
  | _, VWl w => WavelengthRange_gt w a
  | VStr s, VStr t => Ok (String.ltb s t)
  | VList l, VList l' => tuple_lt l l'
  | _, _ =>
      match as_number a, as_number b with
      | Some x, Some y => Ok (Qlt_bool x y)
      | _, _ =>
          match as_tuple a with
          | Some l => tuple_lt_method l b
          | None => Raise (TypeError "'<' not supported between these types")
          end
      end
  end.

(** [WavelengthRange.distance] (lines 132-142). *)
Definition atom_minus (a : atom) (c : Q) : result Q :=
  match a with
  | ANum y => Ok (y - c)
  | AStr _ => Raise (TypeError "unsupported operand type(s) for -")
  end.

Definition WavelengthRange_distance (w : WavelengthRange) (v : value) : result dist :=
  if py_eq (VWl w) v then
    match v with
    | VWl w' => Ok (Fin (Qabs (wl_central w' - wl_central w)))
    | VTuple l | VList l | VMod l =>
        match nth_error l 1 with
        | Some a => d <- atom_minus a (wl_central w) ;; Ok (Fin (Qabs d))
        | None => Raise IndexError
        end
    | VNum n => Ok (Fin (Qabs (n - wl_central w)))
    | VEnum _ o => Ok (Fin (Qabs (inject_Z o - wl_central w)))
    | VNone | VStr _ => Raise (TypeError "unsupported operand type(s) for -")
    end
  else Ok Inf.

(** [WavelengthRange.convert] (lines 144-149). *)
Definition WavelengthRange_convert (wl : value) : result value :=
  match wl with
  | VTuple l | VList l | VMod l =>
      match l with
      | [ANum a; ANum b; ANum c] => Ok (VWl (mkWl a b c "µm"))
      | [ANum a; ANum b; ANum c; AStr u] => Ok (VWl (mkWl a b c u))
      | _ => Raise (TypeError "WavelengthRange takes min, central, max and a unit")
      end
  | VWl w => Ok (VWl w)
  | _ => Ok wl
  end.

(** ** Dictionaries *)

Definition assoc (V : Type) : Type := list (string * V).

Definition dict : Type := assoc value.

Fixpoint dict_get {V : Type} (d : assoc V) (k : string) : option V :=
  match d with
  | [] => None
  | (k', v) :: d' => if String.eqb k' k then Some v else dict_get d' k
  end.

Definition dict_mem {V : Type} (d : assoc V) (k : string) : bool :=
  match dict_get d k with Some _ => true | None => false end.

(** [d[k] = v]: an existing key keeps its place, a new one goes last. *)
Fixpoint dict_set {V : Type} (d : assoc V) (k : string) (v : V) : assoc V :=
  match d with
  | [] => [(k, v)]
  | (k', v') :: d' =>
      if String.eqb k' k then (k', v) :: d' else (k', v') :: dict_set d' k v
  end.

Definition dict_keys {V : Type} (d : assoc V) : list string := map fst d.

Definition is_none (v : value) : bool :=
  match v with VNone => true | _ => false end.

(** [d.get(k, default)] *)
Definition dict_get_default (d : dict) (k : string) (default : value) : value :=
  match dict_get d k with Some v => v | None => default end.

(** [dict.__eq__]: same size, and every key of the left is a key of the right
    with an equal value. *)
Definition dict_eq (a b : dict) : bool :=
  Nat.eqb (length a) (length b) &&
  forallb (fun kv => match dict_get b (fst kv) with
                     | Some bv => py_eq (snd kv) bv
                     | None => false
                     end) a.

(** ** Sorting

    [sorted] is a stable sort that uses [<] alone; it is modelled by the
    stable insertion sort. *)

Section Sorted.
Variable A : Type.
Variable lt : A -> A -> result bool.

Fixpoint insert_sorted (x : A) (l : list A) : result (list A) :=
  match l with
  | [] => Ok [x]
  | y :: l' =>
      b <- lt y x ;;
      if b then (r <- insert_sorted x l' ;; Ok (y :: r))
      else Ok (x :: y :: l')
  end.

Fixpoint py_sorted (l : list A) : result (list A) :=
  match l with
  | [] => Ok []
  | x :: l' => r <- py_sorted l' ;; insert_sorted x r
  end.
End Sorted.

(** ** Schema (id keys) *)

Inductive coercion : Type :=
| TWavelengthRange
| TModifierTuple
| TValueList (names : list string).

(** One entry of an id-keys configuration. [None] is an absent key. *)
Record id_key : Type := mkKey {
  k_required : option bool;
  k_default : option value;
  k_transitive : option bool;
  k_type : option coercion;
  k_enum : option (list string)
}.

(** A field maps to an entry or to [None]. *)
Definition schema : Type := list (string * option id_key).

(** [not val] for a dict entry: the empty dict. *)
Definition key_is_empty (e : id_key) : bool :=
  match k_required e, k_default e, k_transitive e, k_type e, k_enum e with
  | None, None, None, None, None => true
  | _, _, _, _, _ => false
  end.

Definition has_enum_and_type (e : id_key) : bool :=
  match k_enum e, k_type e with
  | Some _, Some _ => true
  | _, _ => false
  end.

(** [DataID.fix_id_keys] (lines 389-402). *)
Definition fix_id_key (e : id_key) : id_key :=
  match k_enum e with
  | Some names =>
      mkKey (k_required e) (k_default e) (k_transitive e) (Some (TValueList names)) None
  | None => e
  end.

Fixpoint fix_id_keys (id_keys : schema) : result schema :=
  match id_keys with
  | [] => Ok []
  | (key, None) :: rest => r <- fix_id_keys rest ;; Ok ((key, None) :: r)
  | (key, Some e) :: rest =>
      if key_is_empty e then r <- fix_id_keys rest ;; Ok ((key, Some e) :: r)
      else if has_enum_and_type e
      then Raise (ValueError "Cannot have both type and enum for the same id key.")
      else r <- fix_id_keys rest ;; Ok ((key, Some (fix_id_key e)) :: r)
  end.

(** [DataID.fix_id_keys] (lines 389-402) with the call
    [ValueList(key, ' '.join(names))] of line 400 as a parameter:
    [make_enum key names] is what the functional Enum API makes of the
    names, an error or the names of the members in order. [fix_id_keys] is
    the case of an API that takes every name as it is. *)
Section FixIdKeysWith.
Variable make_enum : string -> list string -> result (list string).

Definition fix_id_key_with (key : string) (e : id_key) : result id_key :=
  match k_enum e with
  | Some names =>
      members <- make_enum key names ;;
      Ok (mkKey (k_required e) (k_default e) (k_transitive e)
            (Some (TValueList members)) None)
  | None => Ok e
  end.

Fixpoint fix_id_keys_with (id_keys : schema) : result schema :=
  match id_keys with
  | [] => Ok []
  | (key, None) :: rest => r <- fix_id_keys_with rest ;; Ok ((key, None) :: r)
  | (key, Some e) :: rest =>
      if key_is_empty e then r <- fix_id_keys_with rest ;; Ok ((key, Some e) :: r)
      else if has_enum_and_type e
      then Raise (ValueError "Cannot have both type and enum for the same id key.")
      else
        e' <- fix_id_key_with key e ;;
        r <- fix_id_keys_with rest ;;
        Ok ((key, Some e') :: r)
  end.
End FixIdKeysWith.

(** Position of a name in an enumeration, from 1 (the functional Enum API). *)
Fixpoint enum_ordinal (names : list string) (name : string) (from : Z) : option Z :=
  match names with
  | [] => None
  | n :: rest => if String.eqb n name then Some from else enum_ordinal rest name (from + 1)
  end.

Definition invalid_enum_value : pyerr := ValueError "invalid value for ValueList".

(** [ValueList.convert] (lines 38-44): [cls[value]] looks the value up by
    hash and equality, so a member is found by its name. *)
Definition ValueList_convert (names : list string) (v : value) : result value :=
  match v with
  | VStr s | VEnum s _ =>
      match enum_ordinal names s 1 with
      | Some o => Ok (VEnum s o)
      | None => Raise invalid_enum_value
      end
  | VList _ => Raise (TypeError "unhashable type: 'list'")
  | _ => Raise invalid_enum_value
  end.

(** [ModifierTuple.convert] (lines 155-163). *)
Definition ModifierTuple_convert (modifiers : value) : result value :=
  match modifiers with
  | VNone => Ok VNone
  | VList l => Ok (VMod l)
  | _ => match as_tuple modifiers with
         | Some l => Ok (VMod l)
         | None => Raise (TypeError "'DataID' modifiers must be a tuple or None")
         end
  end.

Definition convert (t : coercion) (v : value) : result value :=
  match t with
  | TWavelengthRange => WavelengthRange_convert v
  | TModifierTuple => ModifierTuple_convert v
  | TValueList names => ValueList_convert names v
  end.

(** [val.get('default')], [val.get('required')] and ['required' in val]. *)
Definition get_default (e : id_key) : value :=
  match k_default e with Some v => v | None => VNone end.

Definition required_truthy (e : id_key) : bool :=
  match k_required e with Some true => true | _ => false end.

Definition has_required (e : id_key) : bool :=
  match k_required e with Some _ => true | None => false end.

Definition MissingRequiredField (key : string) : pyerr :=
  ValueError ("Required field " ++ key ++ " missing.").

(** The test of line 411. *)
Definition field_entered (key : string) (e : id_key) (keyvals : dict) : bool :=
  dict_mem keyvals key || negb (is_none (get_default e)) || required_truthy e.

(** The loop of [DataID.convert_dict] (lines 409-426). *)
Fixpoint convert_fields (id_keys : schema) (keyvals curated : dict) : result dict :=
  match id_keys with
  | [] => Ok curated
  | (key, Some e) :: rest =>
      if field_entered key e keyvals then
        let curated_val := dict_get_default keyvals key (get_default e) in
        if has_required e && is_none curated_val
        then Raise (MissingRequiredField key)
        else
          match k_type e with
          | Some t =>
              v <- convert t curated_val ;;
              convert_fields rest keyvals (dict_set curated key v)
          | None =>
              if is_none curated_val then convert_fields rest keyvals curated
              else convert_fields rest keyvals (dict_set curated key curated_val)
          end
      else convert_fields rest keyvals curated
  | (key, None) :: rest =>
      match dict_get keyvals key with
      | Some curated_val =>
          if is_none curated_val then convert_fields rest keyvals curated
          else convert_fields rest keyvals (dict_set curated key curated_val)
      | None => convert_fields rest keyvals curated
      end
  end.

(** [DataID.convert_dict] (lines 404-427). *)
Definition convert_dict (id_keys : schema) (keyvals : dict) : result dict :=
  match keyvals with
  | [] => Ok []
  | _ => convert_fields id_keys keyvals []
  end.

(** ** DataID *)

Record DataID : Type := mkDataID {
  _hash : option Z;
  _orig_id_keys : schema;
  _id_keys : schema;
  items : dict
}.

(** [DataID.__init__] (lines 373-387). *)
Definition DataID_init (id_keys : schema) (keyval_dict : dict) : result DataID :=
  fixed <- fix_id_keys id_keys ;;
  curated <- match keyval_dict with
             | [] => Ok []
             | _ => convert_dict fixed keyval_dict
             end ;;
  Ok (mkDataID None id_keys fixed curated).

(** [DataID.to_dict] (lines 477-485): an Enum member becomes its name. *)
Definition plain_value (v : value) : value :=
  match v with
  | VEnum name _ => VStr name
  | _ => v
  end.

Definition to_dict (d : DataID) : dict :=
  map (fun kv => (fst kv, plain_value (snd kv))) (items d).

(** [DataID.__reduce__] and [DataID._unpickle] (lines 429-436). *)
Definition DataID_reduce (d : DataID) : schema * dict := (_orig_id_keys d, to_dict d).

(** The call [cls(id_keys, **keyval)] of lines 432 and 440. Python binds the
    keywords to the parameters of [__init__(self, id_keys, **keyval_dict)]
    and refuses a keyword named like one of the two that are given by
    position, before the body runs. *)
Definition keyword_clash (keyval : dict) : bool :=
  dict_mem keyval "self" || dict_mem keyval "id_keys".

Definition DataID_call (id_keys : schema) (keyval : dict) : result DataID :=
  if keyword_clash keyval
  then Raise (TypeError "__init__() got multiple values for argument")
  else DataID_init id_keys keyval.

Definition DataID_unpickle (id_keys : schema) (keyval : dict) : result DataID :=
  DataID_call id_keys keyval.

(** [a == b] for two DataIDs is the equality of the dicts. *)
Definition DataID_eq (a b : DataID) : bool := dict_eq (items a) (items b).

(** [default_id_keys_config] (lines 183-204). *)
Definition default_id_keys_config : schema :=
  [("name"%string, Some (mkKey (Some true) None None None None));
   ("wavelength"%string, Some (mkKey None None None (Some TWavelengthRange) None));
   ("resolution"%string, Some (mkKey None None (Some true) None None));
   ("calibration"%string,
     Some (mkKey None None None None
             (Some ["reflectance"; "brightness_temperature"; "radiance"; "counts"]%string)));
   ("modifiers"%string,
     Some (mkKey None (Some (VMod [])) None (Some TModifierTuple) None))].

(** [minimal_default_keys_config] (lines 217-223). *)
Definition minimal_default_keys_config : schema :=
  [("name"%string, Some (mkKey (Some true) None None None None));
   ("resolution"%string, Some (mkKey None None (Some true) None None))].

(** [tuple(list_self) < tuple(list_other)] on tuples of values. *)
Fixpoint values_lt (l1 l2 : list value) : result bool :=
  match l1, l2 with
  | [], [] => Ok false
  | [], _ :: _ => Ok true
  | _ :: _, [] => Ok false
  | a :: l1', b :: l2' => if py_eq a b then values_lt l1' l2' else py_lt a b
  end.

(** The substitute for a value missing on one side (lines 543-550). *)
Definition generalize (val : value) : result value :=
  match as_number val with
  | Some _ => Ok (VNum 0)
  | None =>
      match val with
      | VStr _ => Ok (VStr "")
      | _ => match as_tuple val with
             | Some _ => Ok (VTuple [])
             | None => Raise (NotImplementedError "Don't know how to generalize")
             end
      end
  end.

(** The loop of [DataID.__lt__] (lines 534-561). *)
Fixpoint lt_lists (keys : list string) (self other : dict)
  : result (list value * list value) :=
  match keys with
  | [] => Ok ([], [])
  | key :: rest =>
      match dict_get self key, dict_get other key with
      | None, None => lt_lists rest self other
      | Some a, Some b =>
          r <- lt_lists rest self other ;; Ok (a :: fst r, b :: snd r)
      | Some a, None =>
          z <- generalize a ;;
          r <- lt_lists rest self other ;; Ok (a :: fst r, z :: snd r)
      | None, Some b =>
          z <- generalize b ;;
          r <- lt_lists rest self other ;; Ok (z :: fst r, b :: snd r)
      end
  end.

(** [DataID.__lt__] (lines 531-562). *)
Definition DataID_lt (self other : DataID) : result bool :=
  r <- lt_lists (map fst (_id_keys self)) (items self) (items other) ;;
  values_lt (fst r) (snd r).

(** ** Hashing and immutability *)

(** [(k1, v1) < (k2, v2)] for the items of a dict. *)
Definition item_lt (x y : string * value) : result bool :=
  if String.eqb (fst x) (fst y)
  then (if py_eq (snd x) (snd y) then Ok false else py_lt (snd x) (snd y))
  else Ok (String.ltb (fst x) (fst y)).

Section Hashing.
(** The hash functions of the builtin types are left open. Numbers that are
    equal hash alike, hence the reduced fraction. *)
Variable hash_str : string -> Z.
Variable hash_num : Q -> Z.
Variable hash_none : Z.
Variable hash_tuple : list Z -> Z.

Definition hash_atom (a : atom) : Z :=
  match a with
  | ANum q => hash_num (Qred q)
  | AStr s => hash_str s
  end.

(** [ValueList.__hash__] is the hash of the name (lines 54-56);
    WavelengthRange and ModifierTuple hash as tuples (lines 112-114,
    177-179). *)
Definition hash_value (v : value) : result Z :=
  match v with
  | VNone => Ok hash_none
  | VNum q => Ok (hash_num (Qred q))
  | VStr s => Ok (hash_str s)
  | VEnum name _ => Ok (hash_str name)
  | VList _ => Raise (TypeError "unhashable type: 'list'")
  | VWl w => Ok (hash_tuple (map hash_atom (wl_astuple w)))
  | VTuple l | VMod l => Ok (hash_tuple (map hash_atom l))
  end.

Fixpoint hash_items (l : dict) : result (list Z) :=
  match l with
  | [] => Ok []
  | (k, v) :: l' =>
      h <- hash_value v ;;
      r <- hash_items l' ;;
      Ok (hash_tuple [hash_str k; h] :: r)
  end.

(** [DataID.__hash__] (lines 521-525): the object after the call holds the
    cached hash. *)
Definition DataID_hash (self : DataID) : result (Z * DataID) :=
  match _hash self with
  | Some h => Ok (h, self)
  | None =>
      sorted <- py_sorted item_lt (items self) ;;
      hs <- hash_items sorted ;;
      let h := hash_tuple hs in
      Ok (h, mkDataID (Some h) (_orig_id_keys self) (_id_keys self) (items self))
  end.

Definition hash_of (self : DataID) : result Z :=
  r <- DataID_hash self ;; Ok (fst r).
End Hashing.

(** The dict methods that change a dict, with their arguments. *)
Inductive mutation : Type :=
| SetItem (key : string) (val : value)
| DelItem (key : string)
| Pop (key : string) (default : option value)
| PopItem
| Clear
| Update (other : dict)
| SetDefault (key : string) (default : value).

(** [DataID._immutable] (lines 527-529): the result of the call and the
    object after it. *)
Definition _immutable (self : DataID) (args : mutation) : result value * DataID :=
  (Raise (TypeError "Cannot change a DataID"), self).

(** Lines 564-570. *)
Definition DataID_setitem := _immutable.
Definition DataID_delitem := _immutable.
Definition DataID_pop := _immutable.
Definition DataID_popitem := _immutable.
Definition DataID_clear := _immutable.
Definition DataID_update := _immutable.
Definition DataID_setdefault := _immutable.

(** The call a mutation stands for. *)
Definition mutate (self : DataID) (m : mutation) : result value * DataID :=
  match m with
  | SetItem _ _ => DataID_setitem self m
  | DelItem _ => DataID_delitem self m
  | Pop _ _ => DataID_pop self m
  | PopItem => DataID_popitem self m
  | Clear => DataID_clear self m
  | Update _ => DataID_update self m
  | SetDefault _ _ => DataID_setdefault self m
  end.

(** ** DataQuery *)

Record DataQuery : Type := mkQuery { _dict : dict }.

Definition _fields (q : DataQuery) : list string := map fst (_dict q).
Definition _values (q : DataQuery) : list value := map snd (_dict q).

(** [DataQuery._asdict] (lines 632-633). *)
Definition DataQuery_asdict (q : DataQuery) : dict := combine (_fields q) (_values q).

(** What a query is compared with. *)
Inductive pyobject : Type :=
| PQuery (q : DataQuery)
| PDataID (d : DataID)
| PValue (v : value).

(** [other._asdict()]; [None] is the AttributeError. A WavelengthRange is a
    namedtuple and has the method. *)
Definition asdict_of (other : pyobject) : option dict :=
  match other with
  | PQuery q => Some (DataQuery_asdict q)
  | PDataID d => Some (items d)
  | PValue (VWl w) =>
      Some [("min"%string, VNum (wl_min w)); ("central"%string, VNum (wl_central w));
            ("max"%string, VNum (wl_max w)); ("unit"%string, VStr (wl_unit w))]
  | PValue _ => None
  end.

(** The loop of [DataQuery.__eq__] (lines 603-609). *)
Fixpoint eq_loop (sitems odict : dict) (common_keys : bool) : bool :=
  match sitems with
  | [] => common_keys
  | (key, val) :: rest =>
      match dict_get odict key with
      | Some oval =>
          if py_ne oval val && negb (is_none val) then false
          else eq_loop rest odict true
      | None => eq_loop rest odict common_keys
      end
  end.

(** [DataQuery.__eq__] (lines 592-609). *)
Definition DataQuery_eq (self : DataQuery) (other : pyobject) : bool :=
  match asdict_of other with
  | None => false
  | Some odict => eq_loop (DataQuery_asdict self) odict false
  end.

(** ** Best-match ranking *)

Definition big_distance : Q := 100000.

Definition wildcard : value := VStr "*".

Definition atom_value (a : atom) : value :=
  match a with
  | ANum q => VNum q
  | AStr s => VStr s
  end.

(** The outcome of one pass of the loop over the keys. *)
Inductive step : Type :=
| Continue (distance : dist)
| Break (distance : dist).

(** Lines 725-732: the query does not constrain the key. *)
Definition unconstrained_step (got : option value) (distance : dist) : dist :=
  match got with
  | Some (VEnum _ o) => dist_add distance (inject_Z o)
  | Some v =>
      match as_number v with
      | Some n => dist_add distance n
      | None =>
          match as_tuple v with
          | Some l => dist_add distance (inject_Z (Z.of_nat (length l)))
          | None => distance
          end
      end
  | None => distance
  end.

(** [x in val] for a list: [list.__contains__] goes through the items and
    compares each with [item == x], the item on the left (CPython 3.9 and
    later). It takes an item that is the same object as [x] for equal
    without comparing; in this universe every value is equal to itself. *)
Definition py_in (x : value) (vals : list value) : bool :=
  existsb (fun item => py_eq item x) vals.

(** Lines 742-743: a value that is not a list becomes a list of one. *)
Definition as_list (val : value) : list value :=
  match val with
  | VList l => map atom_value l
  | _ => [val]
  end.

(** Lines 734-753: the query constrains the key to [val]. *)
Definition constrained_step (got : option value) (val : value) (distance : dist)
  : result step :=
  match got with
  | None => Ok (Break (dist_add distance big_distance))
  | Some (VWl w) =>
      d <- WavelengthRange_distance w val ;; Ok (Continue (dist_plus distance d))
  | Some dataid_val =>
      if negb (py_in dataid_val (as_list val)) then Ok (Break Inf)
      else match as_number dataid_val with
           | Some n => Ok (Continue (dist_add distance n))
           | None => Ok (Continue distance)
           end
  end.

(** The body of the loop over the keys (lines 723-753). *)
Definition key_step (q : DataQuery) (dataid : DataID) (key : string) (distance : dist)
  : result step :=
  let val := dict_get_default (_dict q) key wildcard in
  if py_eq val wildcard
  then Ok (Continue (unconstrained_step (dict_get (items dataid) key) distance))
  else constrained_step (dict_get (items dataid) key) val distance.

Fixpoint key_loop (q : DataQuery) (dataid : DataID) (keys : list string) (distance : dist)
  : result dist :=
  match keys with
  | [] => Ok distance
  | key :: rest =>
      s <- key_step q dataid key distance ;;
      match s with
      | Continue d => key_loop q dataid rest d
      | Break d => Ok d
      end
  end.

Definition candidate_distance (q : DataQuery) (keys : list string) (dataid : DataID)
  : result dist :=
  key_loop q dataid keys (Fin 0).

(** The same loop over the first keys only, with how it stands after them:
    still running with the distance so far, or left by [break]. *)
Fixpoint key_loop_state (q : DataQuery) (dataid : DataID) (keys : list string)
  (distance : dist) : result step :=
  match keys with
  | [] => Ok (Continue distance)
  | key :: rest =>
      s <- key_step q dataid key distance ;;
      match s with
      | Continue d => key_loop_state q dataid rest d
      | Break d => Ok (Break d)
      end
  end.

Fixpoint distances_of (q : DataQuery) (keys : list string) (dataids : list DataID)
  : result (list dist) :=
  match dataids with
  | [] => Ok []
  | d :: rest =>
      x <- candidate_distance q keys d ;;
      r <- distances_of q keys rest ;;
      Ok (x :: r)
  end.

(** [(d1, id1) < (d2, id2)] *)
Definition pair_lt (x y : dist * DataID) : result bool :=
  if dist_eqb (fst x) (fst y)
  then (if DataID_eq (snd x) (snd y) then Ok false else DataID_lt (snd x) (snd y))
  else Ok (dist_ltb (fst x) (fst y)).

(** Lines 716-718: the keys of the query and of every candidate. *)
Definition union_keys (q : DataQuery) (dataids : list DataID) : list string :=
  nodup string_dec
    (dict_keys (_dict q) ++ flat_map (fun d => dict_keys (items d)) dataids).

(** [DataQuery.sort_dataids] (lines 688-756). [iter] is the order in which
    the set of keys is iterated. *)
Definition sort_dataids (iter : list string -> list string) (q : DataQuery)
  (dataids : list DataID) : result (list DataID * list dist) :=
  let keys := iter (union_keys q dataids) in
  sorted_dataids <- py_sorted DataID_lt dataids ;;
  distances <- distances_of q keys sorted_dataids ;;
  pairs <- py_sorted pair_lt (combine distances sorted_dataids) ;;
  match pairs with
  | [] => Raise (ValueError "not enough values to unpack (expected 2, got 0)")
  | _ => Ok (map snd pairs, map fst pairs)
  end.

(** ** Metadata combiner *)

(** What [combine_metadata] asks of the values it merges. The values are
    arbitrary Python objects; the function only uses the operations below.
    [len], iteration, [==], [datetime.timestamp] and
    [datetime.fromtimestamp] can raise. Iterating an object gives all its
    items or raises at once. [mean] is [sum(total) / len(total)] on a
    non-empty list of floats, whatever the floating-point arithmetic makes
    of it. *)
Class MetadataValue (obj : Type) : Type := {
  same_object : obj -> obj -> bool;               (* [a is b] *)
  has_array : obj -> bool;                        (* [hasattr(a, "__array__")] *)
  is_datetime : obj -> bool;                      (* [isinstance(a, datetime)] *)
  timestamp : obj -> result Q;                    (* [datetime.timestamp(a)], [a] a datetime *)
  mean : list Q -> Q;                             (* [sum(total) / len(total)] *)
  fromtimestamp : Q -> result obj;                (* [datetime.fromtimestamp(t)] *)
  is_collection : obj -> bool;                    (* [isinstance(a, Collection)] *)
  py_len : obj -> result nat;                     (* [len(a)] *)
  iter_items : obj -> result (list obj);          (* the items of [for x in a] *)
  value_eq : obj -> obj -> result bool            (* [a == b] *)
}.

(** ['time' in k] *)
Fixpoint str_in (needle hay : string) : bool :=
  String.prefix needle hay ||
  match hay with
  | EmptyString => false
  | String _ rest => str_in needle rest
  end.

(** The arguments of [combine_metadata]: a dict, an object with [attrs], or
    anything else. *)
Inductive metadata_object (obj : Type) : Type :=
| MDict (d : assoc obj)
| MAttrs (attrs : assoc obj)
| MOther.

Arguments MOther {obj}.

Section Combine.
Context {obj : Type} {M : MetadataValue obj}.

(** [datetime.timestamp(dt)]: the unbound method refuses what is not a
    datetime. *)
Definition datetime_timestamp (dt : obj) : result Q :=
  if is_datetime dt then timestamp dt
  else Raise (TypeError "descriptor 'timestamp' requires a 'datetime.datetime' object").

(** [average_datetimes] (lines 243-258). *)
Fixpoint timestamps (dt_list : list obj) : result (list Q) :=
  match dt_list with
  | [] => Ok []
  | dt :: rest =>
      t <- datetime_timestamp dt ;;
      r <- timestamps rest ;;
      Ok (t :: r)
  end.

Definition average_datetimes (dt_list : list obj) : result obj :=
  total <- timestamps dt_list ;;
  match total with
  | [] => Raise ZeroDivisionError
  | _ => fromtimestamp (mean total)
  end.

(** [_share_metadata_key_array] (lines 349-354). *)
Definition _share_metadata_key_array (values : list obj) : bool :=
  match values with
  | [] => true
  | v0 :: rest => forallb (fun val => same_object val v0) rest
  end.

(** [_share_metadata_key_list_arrays] (lines 357-363): [zip] asks both
    operands for an iterator, the value first. *)
Fixpoint list_arrays_loop (v0 : obj) (rest : list obj) : result bool :=
  match rest with
  | [] => Ok true
  | val :: rest' =>
      arrs <- iter_items val ;;
      refs <- iter_items v0 ;;
      if forallb (fun p => same_object (fst p) (snd p)) (combine arrs refs)
      then list_arrays_loop v0 rest'
      else Ok false
  end.

Definition _share_metadata_key_list_arrays (values : list obj) : result bool :=
  match values with
  | [] => Ok true
  | v0 :: rest => list_arrays_loop v0 rest
  end.

(** One operand of the [any] of lines 333-337:
    [isinstance(val, Collection) and len(val) > 0 and all([...])]. *)
Definition is_list_of_arrays (val : obj) : result bool :=
  if is_collection val then
    n <- py_len val ;;
    if Nat.ltb 0 n
    then (subvals <- iter_items val ;; Ok (forallb has_array subvals))
    else Ok false
  else Ok false.

(** The list that [any] is given (lines 333-337): it is built for every
    value before anything is decided, so [len] is asked of every
    Collection, array or not. *)
Fixpoint list_of_arrays_tests (values : list obj) : result (list bool) :=
  match values with
  | [] => Ok []
  | val :: rest =>
      b <- is_list_of_arrays val ;;
      r <- list_of_arrays_tests rest ;;
      Ok (b :: r)
  end.

(** [all(val == values[0] for val in values[1:])] *)
Fixpoint all_equal (v0 : obj) (rest : list obj) : result bool :=
  match rest with
  | [] => Ok true
  | val :: rest' =>
      b <- value_eq val v0 ;;
      if b then all_equal v0 rest' else Ok false
  end.

(** [_share_metadata_key] (lines 324-346). *)
Definition _share_metadata_key (k : string) (values : list obj) (average_times : bool)
  : result bool :=
  let any_arrays := existsb has_array values in
  tests <- list_of_arrays_tests values ;;
  let list_of_arrays := existsb (fun b => b) tests in
  if any_arrays then Ok (_share_metadata_key_array values)
  else if list_of_arrays then _share_metadata_key_list_arrays values
  else
    match values with
    | [] => if str_in "time" k then Raise IndexError else Ok true
    | v0 :: rest =>
        if str_in "time" k && is_datetime v0 && average_times then Ok true
        else all_equal v0 rest
    end.

Definition mapping_of (o : metadata_object obj) : option (assoc obj) :=
  match o with
  | MDict d => Some d
  | MAttrs attrs => Some attrs
  | MOther => None
  end.

(** The first loop of [combine_metadata] (lines 284-296). *)
Fixpoint gather (objs : list (metadata_object obj))
  (shared_keys : option (list string)) (info_dicts : list (assoc obj))
  : option (list string) * list (assoc obj) :=
  match objs with
  | [] => (shared_keys, info_dicts)
  | o :: rest =>
      match mapping_of o with
      | None => gather rest shared_keys info_dicts
      | Some metadata_dict =>
          let keys :=
            match shared_keys with
            | None => nodup string_dec (dict_keys metadata_dict)
            | Some ks => filter (dict_mem metadata_dict) ks
            end in
          gather rest (Some keys) (info_dicts ++ [metadata_dict])
      end
  end.

(** [[nfo[k] for nfo in info_dicts]] *)
Fixpoint values_for (k : string) (info_dicts : list (assoc obj)) : result (list obj) :=
  match info_dicts with
  | [] => Ok []
  | nfo :: rest =>
      match dict_get nfo k with
      | Some v => r <- values_for k rest ;; Ok (v :: r)
      | None => Raise (KeyError k)
      end
  end.

(** The second loop of [combine_metadata] (lines 299-306). *)
Fixpoint combine_keys (keys : list string) (info_dicts : list (assoc obj))
  (average_times : bool) (shared_info : assoc obj) : result (assoc obj) :=
  match keys with
  | [] => Ok shared_info
  | k :: rest =>
      values <- values_for k info_dicts ;;
      share <- _share_metadata_key k values average_times ;;
      if share then
        match values with
        | [] => Raise IndexError
        | v0 :: _ =>
            if str_in "time" k && is_datetime v0 && average_times
            then (avg <- average_datetimes values ;;
                  combine_keys rest info_dicts average_times (dict_set shared_info k avg))
            else combine_keys rest info_dicts average_times (dict_set shared_info k v0)
        end
      else combine_keys rest info_dicts average_times shared_info
  end.

(** [combine_metadata] (lines 261-308). [iter] is the order in which the
    set of shared keys is iterated. *)
Definition combine_metadata (iter : list string -> list string)
  (metadata_objects : list (metadata_object obj)) (average_times : bool)
  : result (assoc obj) :=
  match gather metadata_objects None [] with
  | (None, _) => Raise (TypeError "'NoneType' object is not iterable")
  | (Some shared_keys, info_dicts) =>
      combine_keys (iter shared_keys) info_dicts average_times []
  end.
End Combine.

(** A small object model for the examples: an object is an identity and a
    content. An array of one dimension has a length and its items are
    array scalars; an array of no dimension is a Collection without a
    length, as numpy has it. The arithmetic of the examples is exact. *)
Inductive content : Type :=
| CArray (data : list Q)
| CArray0 (x : Q)
| CScalar (x : Q)
| CDatetime (t : Q)
| CPlain (v : value).

Record pyobj : Type := mkObj { oid : nat; ocontent : content }.

Definition example_mean (total : list Q) : Q :=
  fold_right Qplus 0 total / inject_Z (Z.of_nat (length total)).

#[global] Instance pyobj_value : MetadataValue pyobj := {|
  same_object a b := Nat.eqb (oid a) (oid b);
  has_array a :=
    match ocontent a with
    | CArray _ | CArray0 _ | CScalar _ => true
    | _ => false
    end;
  is_datetime a := match ocontent a with CDatetime _ => true | _ => false end;
  timestamp a :=
    match ocontent a with
    | CDatetime t => Ok t
    | _ => Raise (TypeError "descriptor 'timestamp' requires a 'datetime.datetime' object")
    end;
  mean := example_mean;
  fromtimestamp t := Ok (mkObj 0 (CDatetime t));
  is_collection a :=
    match ocontent a with
    | CArray _ | CArray0 _ => true
    | CPlain (VStr _) | CPlain (VTuple _) | CPlain (VList _) | CPlain (VMod _)
    | CPlain (VWl _) => true
    | _ => false
    end;
  py_len a :=
    match ocontent a with
    | CArray data => Ok (length data)
    | CArray0 _ => Raise (TypeError "len() of unsized object")
    | CPlain (VStr s) => Ok (String.length s)
    | CPlain (VTuple l) | CPlain (VList l) | CPlain (VMod l) => Ok (length l)
    | CPlain (VWl _) => Ok 4%nat
    | _ => Raise (TypeError "object has no len()")
    end;
  iter_items a :=
    match ocontent a with
    | CArray data => Ok (map (fun x => mkObj 0 (CScalar x)) data)
    | CArray0 _ => Raise (TypeError "iteration over a 0-d array")
    | CPlain (VStr s) =>
        Ok (map (fun c => mkObj 0 (CPlain (VStr (String c EmptyString))))
              (list_ascii_of_string s))
    | CPlain (VTuple l) | CPlain (VList l) | CPlain (VMod l) =>
        Ok (map (fun x => mkObj 0 (CPlain (atom_value x))) l)
    | CPlain (VWl w) => Ok (map (fun x => mkObj 0 (CPlain (atom_value x))) (wl_astuple w))
    | _ => Raise (TypeError "object is not iterable")
    end;
  value_eq a b :=
    match ocontent a, ocontent b with
    | CPlain v, CPlain w => Ok (py_eq v w)
    | CDatetime s, CDatetime t => Ok (Qeq_bool s t)
    | _, _ => Ok false
    end
|}.

(** ** More of WavelengthRange, DataID and DataQuery *)

(** [WavelengthRange.__contains__] (lines 120-130). Anything without a
    [unit] attribute raises the AttributeError that is suppressed. *)
Definition WavelengthRange_contains (w : WavelengthRange) (other : value) : result bool :=
  match other with
  | VNone => Ok false
  | VNum n => Ok (wl_contains_number w n)
  | VEnum _ o => Ok (wl_contains_number w (inject_Z o))
  | VWl o =>
      if negb (String.eqb (wl_unit w) (wl_unit o))
      then Raise (NotImplementedError
                    "Can't compare wavelength ranges with different units.")
      else Ok (Qle_bool (wl_min w) (wl_min o) && Qle_bool (wl_max o) (wl_max w))
  | _ => Ok false
  end.

(** The test of lines 315-318 of [get_keys_from_config]. *)
Definition key_from_config {V : Type} (config : assoc V) (kv : string * option id_key)
  : bool :=
  dict_mem config (fst kv) ||
  match snd kv with
  | Some e => required_truthy e || negb (is_none (get_default e))
  | None => false
  end.

(** [get_keys_from_config] (lines 311-321). *)
Definition get_keys_from_config {V : Type} (common_id_keys : schema) (config : assoc V)
  : result schema :=
  match filter (key_from_config config) common_id_keys with
  | [] => Raise (ValueError
                   "Metadata does not contain enough information to create a DataID.")
  | id_keys => Ok id_keys
  end.

(** [DataID.from_dict] (lines 438-440). *)
Definition DataID_from_dict (self : DataID) (keyvals : dict) : result DataID :=
  DataID_call (_id_keys self) keyvals.

(** [dict.update] *)
Definition dict_update (d other : dict) : dict :=
  fold_left (fun acc kv => dict_set acc (fst kv) (snd kv)) other d.

(** [DataID._replace] (lines 515-519). *)
Definition DataID_replace (self : DataID) (kwargs : dict) : result DataID :=
  DataID_from_dict self (dict_update (items self) kwargs).

(** [DataQuery._to_trimmed_dict] and [DataQuery.to_dict] (lines 635-644). *)
Definition _to_trimmed_dict (q : DataQuery) : dict :=
  filter (fun kv => py_ne (snd kv) wildcard) (_dict q).

Definition DataQuery_to_dict (q : DataQuery) (trim : bool) : dict :=
  if trim then _to_trimmed_dict q else DataQuery_asdict q.

(** [DataQuery.from_dict] (lines 627-630). *)
Definition DataQuery_from_dict (the_dict : dict) : DataQuery := mkQuery the_dict.






(** The items of a tuple or a list. *)
Definition seq_items (v : value) : option (list atom) :=
  match v with
  | VList l => Some l
  | _ => as_tuple v
  end.

(** [DataQuery._match_query_value] (lines 678-686). *)
Definition _match_query_value (q : DataQuery) (key : string) (id_val : value)
  : result bool :=
  match dict_get (_dict q) key with
  | None => Raise (KeyError key)
  | Some val =>
      if py_eq val wildcard then Ok true
      else
        match as_tuple id_val, seq_items val with
        | Some _, Some val_items => Ok (py_eq (VTuple val_items) id_val)
        | _, _ => Ok (py_in id_val (as_list val))
        end
  end.

(** [key in self._fields] *)
Definition in_fields (q : DataQuery) (key : string) : bool :=
  existsb (String.eqb key) (_fields q).

(** [DataQuery._shares_required_keys] (lines 667-676). *)
Definition _shares_required_keys (q : DataQuery) (dataid : DataID) : bool :=
  existsb (fun kv => match snd kv with
                     | Some e => required_truthy e && in_fields q (fst kv)
                     | None => false
                     end) (_id_keys dataid).

(** The set of lines 659-662. *)
Definition keys_to_check (q : DataQuery) (dataid : DataID) : list string :=
  nodup string_dec
    (filter (in_fields q)
       (if _shares_required_keys q dataid then dict_keys (items dataid)
        else map fst (_id_keys dataid))).

(** [all(self._match_query_value(key, dataid.get(key)) for key in keys)] *)
Fixpoint all_match (q : DataQuery) (dataid : DataID) (keys : list string) : result bool :=
  match keys with
  | [] => Ok true
  | key :: rest =>
      b <- _match_query_value q key (dict_get_default (items dataid) key VNone) ;;
      if b then all_match q dataid rest else Ok false
  end.

(** [DataQuery._match_dataid] (lines 657-665). [iter] is the order in which
    the set of keys is iterated. *)
Definition _match_dataid (iter : list string -> list string) (q : DataQuery)
  (dataid : DataID) : result bool :=
  match iter (keys_to_check q dataid) with
  | [] => Ok false
  | keys => all_match q dataid keys
  end.

(** [DataQuery.filter_dataids] (lines 651-655). *)
Fixpoint filter_dataids (iter : list string -> list string) (q : DataQuery)
  (dataid_container : list DataID) : result (list DataID) :=
  match dataid_container with
  | [] => Ok []
  | d :: rest =>
      b <- _match_dataid iter q d ;;
      r <- filter_dataids iter q rest ;;
      Ok (if b then d :: r else r)
  end.




(** [DataQuery.__hash__] (lines 611-621): the items are sorted, the
    wildcard fields are left out (line 616) and a list value is replaced by
    the tuple of its items (lines 618-619); the hash is that of the tuple of
    the remaining pairs. *)
Definition tuple_of_list (v : value) : value :=
  match v with
  | VList l => VTuple l
  | _ => v
  end.

Definition hashed_items (sorted : dict) : dict :=
  map (fun kv => (fst kv, tuple_of_list (snd kv)))
      (filter (fun kv => py_ne (snd kv) wildcard) sorted).

Definition DataQuery_hash
  (hash_str : string -> Z) (hash_num : Q -> Z) (hash_none : Z) (hash_tuple : list Z -> Z)
  (q : DataQuery) : result Z :=
  sorted <- py_sorted item_lt (_dict q) ;;
  hs <- hash_items hash_str hash_num hash_none hash_tuple (hashed_items sorted) ;;
  Ok (hash_tuple hs).

(** ** Notions of the specification *)

(** The central value of what a range is compared with: a number is its own
    central value, a sequence has it at index 1. *)
Definition central_of (v : value) : option Q :=
  match v with
  | VNum n => Some n
  | VEnum _ o => Some (inject_Z o)
  | VWl w => Some (wl_central w)
  | VTuple l | VList l | VMod l =>
      match nth_error l 1 with
      | Some (ANum c) => Some c
      | _ => None
      end
  | _ => None
  end.

(** Lexicographic order on [(min, central, max, unit)]. *)
Definition wl_lex_lt (a b : WavelengthRange) : Prop :=
  wl_min a < wl_min b \/
  (wl_min a == wl_min b /\
   (wl_central a < wl_central b \/
    (wl_central a == wl_central b /\
     (wl_max a < wl_max b \/
      (wl_max a == wl_max b /\ String.ltb (wl_unit a) (wl_unit b) = true))))).

(** Two distances that denote the same number. *)
Definition dist_equiv (d e : dist) : Prop :=
  match d, e with
  | Fin a, Fin b => a == b
  | Inf, Inf => True
  | _, _ => False
  end.

(** What a candidate's value adds to the distance for a field the query
    leaves open: the ordinal of an enumeration member, a number itself, the
    length of a tuple, and 0 otherwise. *)
Definition open_field_term (got : option value) : Q :=
  match got with
  | Some (VEnum _ o) => inject_Z o
  | Some (VNum n) => n
  | Some (VTuple l) | Some (VMod l) => inject_Z (Z.of_nat (length l))
  | Some (VWl w) => inject_Z (Z.of_nat (length (wl_astuple w)))
  | _ => 0
  end.

(** The query leaves the key open: absent, or equal to the wildcard. *)
Definition unconstrained (q : DataQuery) (key : string) : Prop :=
  dict_get (_dict q) key = None \/
  exists val, dict_get (_dict q) key = Some val /\ py_eq val wildcard = true.

(** The query constrains the key to [val]: it has a value for it that is not
    the wildcard. *)
Definition constrains (q : DataQuery) (key : string) (val : value) : Prop :=
  dict_get (_dict q) key = Some val /\ py_eq val wildcard = false.

(** The candidate lacks a field that the query constrains. *)
Definition lacks_constrained_field (q : DataQuery) (d : DataID) : Prop :=
  exists key val, constrains q key val /\ dict_get (items d) key = None.

(** The value has a [distance] method. *)
Definition has_distance (v : value) : bool :=
  match v with
  | VWl _ => true
  | _ => false
  end.

(** The candidate's value for a constrained field is not among the values
    the query allows: no allowed value [e] gives [e == v]. *)
Definition fails_allowed_value (q : DataQuery) (d : DataID) : Prop :=
  exists key val v,
    constrains q key val /\ dict_get (items d) key = Some v /\
    has_distance v = false /\
    forall e, In e (as_list val) -> py_eq e v = false.

(** The distance [d'] is the distance [d] and [t] more; infinity stays
    infinity. *)
Definition grown_by (d d' : dist) (t : Q) : Prop :=
  match d, d' with
  | Fin a, Fin b => b == a + t
  | Inf, Inf => True
  | _, _ => False
  end.

Definition infeasible (q : DataQuery) (d : DataID) : Prop :=
  lacks_constrained_field q d \/ fails_allowed_value q d.

(** The numbers among the candidate's values are not negative. *)
Definition nonneg_values (d : DataID) : Prop :=
  forall k v n, dict_get (items d) k = Some v -> as_number v = Some n -> 0 <= n.

(** Compatibility of a shared field as the specification words it: [None]
    in the query skips the check and the wildcard matches anything. *)
Definition compatible_spec (oval val : value) : bool :=
  is_none val || py_eq val wildcard || py_eq oval val.

(** Compatibility of a shared field as [DataQuery.__eq__] decides it. *)
Definition compatible (oval val : value) : bool :=
  is_none val || py_eq oval val.

(** The two operands share a field, and every shared field passes [ok]. *)
Definition shares_compatible (ok : value -> value -> bool) (sdict odict : dict) : Prop :=
  (exists key val, In (key, val) sdict /\ dict_mem odict key = true) /\
  (forall key val oval,
      In (key, val) sdict -> dict_get odict key = Some oval -> ok oval val = true).

(** The raw mapping has no [None] among its values. *)
Definition no_null (raw : dict) : Prop :=
  forall k v, In (k, v) raw -> is_none v = false.

(** The field is supplied, has a non-null default, or is required. *)
Definition field_resolves (key : string) (entry : option id_key) (raw : dict) : bool :=
  match entry with
  | Some e => field_entered key e raw
  | None => dict_mem raw key
  end.

(** A required field that the raw mapping does not supply and that has no
    non-null default. *)
Definition required_unresolved (key : string) (e : id_key) (raw : dict) : bool :=
  required_truthy e && negb (dict_mem raw key) && is_none (get_default e).

(** The condition under which [convert_dict] stores a field (lines 411-426). *)
Definition field_included (key : string) (entry : option id_key) (raw : dict) : bool :=
  match entry with
  | Some e =>
      field_entered key e raw &&
      match k_type e with
      | Some _ => true
      | None => negb (is_none (dict_get_default raw key (get_default e)))
      end
  | None =>
      match dict_get raw key with
      | Some v => negb (is_none v)
      | None => false
      end
  end.

(** The arguments of [combine_metadata] that are mappings, as mappings. *)
Definition mappings {obj : Type} {M : MetadataValue obj}
  (objs : list (metadata_object obj)) : list (assoc obj) :=
  flat_map (fun o => match mapping_of o with Some d => [d] | None => [] end) objs.

(** Membership in what [shared_keys] holds; [None] has not been narrowed. *)
Definition key_allowed (sk : option (list string)) (k : string) : Prop :=
  match sk with
  | None => True
  | Some ks => In k ks
  end.

(** ** Data of the examples *)

(** Stand-ins for the hash functions of the builtin types. *)
Definition example_hash_str (s : string) : Z := Z.of_nat (String.length s).
Definition example_hash_num (q : Q) : Z := Qnum q.
Definition example_hash_tuple (l : list Z) : Z := fold_right (fun x acc => x + 31 * acc)%Z 7%Z l.

Definition example_fixed_default : schema :=
  [("name"%string, Some (mkKey (Some true) None None None None));
   ("wavelength"%string, Some (mkKey None None None (Some TWavelengthRange) None));
   ("resolution"%string, Some (mkKey None None (Some true) None None));
   ("calibration"%string,
     Some (mkKey None None None
             (Some (TValueList
                      ["reflectance"; "brightness_temperature"; "radiance"; "counts"]%string))
             None));
   ("modifiers"%string,
     Some (mkKey None (Some (VMod [])) None (Some TModifierTuple) None))].

Definition example_raw : dict :=
  [("name"%string, VStr "ch1"); ("calibration"%string, VStr "counts")].

(** A raw mapping for the default schema, with an enumeration name. *)
Definition example_raw_full : dict :=
  [("name"%string, VStr "ch1"); ("wavelength"%string, VTuple [ANum 1; ANum 2; ANum 3]);
   ("resolution"%string, VNum 500); ("calibration"%string, VStr "counts")].

(** A schema with a required field and an untyped field with a default. *)
Definition example_schema_level : schema :=
  [("name"%string, Some (mkKey (Some true) None None None None));
   ("level"%string, Some (mkKey None (Some (VNum 5)) None None None))].

(** A raw mapping that supplies [None] for the field with a default. *)
Definition example_raw_null_level : dict :=
  [("name"%string, VStr "x"); ("level"%string, VNone)].

Definition example_query_wild : DataQuery := mkQuery [("name"%string, VStr "*")].

Definition example_id_ch1 : DataID :=
  mkDataID None [] [] [("name"%string, VStr "ch1")].

Definition example_id_full : DataID :=
  mkDataID None [] []
    [("name"%string, VStr "ch1"); ("calibration"%string, VEnum "counts" 4);
     ("resolution"%string, VNum 500); ("modifiers"%string, VMod [AStr "sunz"])].

(** A query for the counts of channel 1, a candidate with counts at a
    resolution of 200 km, and a candidate without calibration. *)
Definition example_query_counts : DataQuery :=
  mkQuery [("name"%string, VStr "ch1"); ("calibration"%string, VStr "counts")].

Definition example_id_coarse : DataID :=
  mkDataID None default_id_keys_config example_fixed_default
    [("name"%string, VStr "ch1"); ("resolution"%string, VNum 200000);
     ("calibration"%string, VEnum "counts" 4); ("modifiers"%string, VMod [])].

Definition example_id_uncalibrated : DataID :=
  mkDataID None default_id_keys_config example_fixed_default
    [("name"%string, VStr "ch1"); ("resolution"%string, VNum 1000);
     ("modifiers"%string, VMod [])].

(** Two arrays with the same content that are two objects. *)
Definition example_array_1 : pyobj := mkObj 1 (CArray [1; 2; 3]).
Definition example_array_2 : pyobj := mkObj 2 (CArray [1; 2; 3]).

Definition example_inputs_distinct : list (metadata_object pyobj) :=
  [MDict [("area"%string, example_array_1)]; MAttrs [("area"%string, example_array_2)]].

Definition example_inputs_same : list (metadata_object pyobj) :=
  [MDict [("area"%string, example_array_1)]; MAttrs [("area"%string, example_array_1)]].

(** A schema with a field named like a parameter of [__init__], and the
    identifier that it gives for a name. *)
Definition example_schema_clash : schema :=
  [("name"%string, Some (mkKey (Some true) None None None None));
   ("id_keys"%string, Some (mkKey None (Some (VNum 1)) None None None))].

Definition example_id_clash : DataID :=
  mkDataID None example_schema_clash example_schema_clash
    [("name"%string, VStr "ch1"); ("id_keys"%string, VNum 1)].

(** An array of no dimension, such as [numpy.array(5.0)], held by two
    inputs. *)
Definition example_array_0d : pyobj := mkObj 3 (CArray0 5).

Definition example_inputs_0d : list (metadata_object pyobj) :=
  [MDict [("offset"%string, example_array_0d)];
   MAttrs [("offset"%string, example_array_0d)]].

(** What [convert_dict] does with one field: the value it stores, if any
    (lines 410-426). *)
Definition field_result (key : string) (entry : option id_key) (raw : dict)
  : result (option value) :=
  match entry with
  | Some e =>
      if field_entered key e raw then
        let curated_val := dict_get_default raw key (get_default e) in
        if has_required e && is_none curated_val
        then Raise (MissingRequiredField key)
        else
          match k_type e with
          | Some t => v <- convert t curated_val ;; Ok (Some v)
          | None => if is_none curated_val then Ok None else Ok (Some curated_val)
          end
      else Ok None
  | None =>
      match dict_get raw key with
      | Some curated_val => if is_none curated_val then Ok None else Ok (Some curated_val)
      | None => Ok None
      end
  end.

(** Two values that [to_dict] renders alike: the same value, or a member and
    its name. *)
Definition same_plain (v' v : value) : Prop := plain_value v' = plain_value v.

(** Two dicts with the same keys in the same order and values that
    [to_dict] renders alike. *)
Definition dict_sim (d' d : dict) : Prop :=
  Forall2 (fun kv' kv => fst kv' = fst kv /\ same_plain (snd kv') (snd kv)) d' d.

Definition option_sim (r' r : option value) : Prop :=
  match r', r with
  | Some v', Some v => same_plain v' v
  | None, None => True
  | _, _ => False
  end.

(** A dict with every value sent through [g]. *)
Definition dict_map (g : value -> value) (d : dict) : dict :=
  map (fun kv => (fst kv, g (snd kv))) d.

(** Every value of the query is the wildcard. *)
Definition all_wildcard (q : DataQuery) : Prop :=
  forall k v, In (k, v) (_dict q) -> py_eq v wildcard = true.



(** The order of the keys, as [sorted] leaves the items of a dict. *)
Definition key_le (x y : string * value) : Prop :=
  fst x = fst y \/ String.ltb (fst x) (fst y) = true.

(** * Properties *)

(** ** Numbers and distances *)

Lemma Qlt_bool_iff (x y : Q) : Qlt_bool x y = true <-> x < y.
Proof.
  unfold Qlt_bool. rewrite negb_true_iff. split; intro H.
  - apply Qnot_le_lt. intro L. apply Qle_bool_iff in L. congruence.
  - destruct (Qle_bool y x) eqn:E; trivial.
    apply Qle_bool_iff in E. exfalso. exact (Qlt_not_le _ _ H E).
Qed.

Lemma Qlt_bool_false_iff (x y : Q) : Qlt_bool x y = false <-> y <= x.
Proof.
  unfold Qlt_bool. rewrite negb_false_iff. apply Qle_bool_iff.
Qed.

Lemma Qeq_bool_false_iff (x y : Q) : Qeq_bool x y = false <-> ~ x == y.
Proof.
  split.
  - apply Qeq_bool_neq.
  - intro N. destruct (Qeq_bool x y) eqn:E; trivial.
    apply Qeq_bool_iff in E. contradiction.
Qed.

Lemma string_ltb_irrefl (s : string) : String.ltb s s = false.
Proof.
  unfold String.ltb. pose proof (String.compare_antisym s s) as A.
  destruct (String.compare s s); trivial. discriminate.
Qed.

(** ** WavelengthRange *)

Lemma py_eq_wl (r : WavelengthRange) (v : value) :
  py_eq (VWl r) v = first_some (WavelengthRange_eq r v) (eq_method v (VWl r)).
Proof. unfold py_eq. destruct v; reflexivity. Qed.

Lemma wl_contains_number_iff (r : WavelengthRange) (n : Q) :
  wl_contains_number r n = true <-> wl_min r <= n /\ n <= wl_max r.
Proof.
  unfold wl_contains_number. rewrite andb_true_iff, !Qle_bool_iff. tauto.
Qed.

(** A sequence equal to a range has a number at index 1. *)
Lemma wl_eq_sequence_central (r : WavelengthRange) (l : list atom) :
  tuple_eq (wl_first3 r) l = true \/ tuple_eq (wl_astuple r) l = true ->
  exists c, nth_error l 1 = Some (ANum c).
Proof.
  intros H.
  destruct l as [| a [| b l']].
  - destruct H as [H | H]; discriminate H.
  - destruct H as [H | H]; cbn [tuple_eq wl_first3 wl_astuple] in H;
      rewrite andb_false_r in H; discriminate H.
  - destruct b as [c | s].
    + exists c. reflexivity.
    + destruct H as [H | H]; cbn [tuple_eq wl_first3 wl_astuple atom_eq] in H;
        rewrite andb_false_r in H; discriminate H.
Qed.

(** On a value the range is equal to, [distance] is the absolute difference
    of the central values. *)
Lemma WavelengthRange_distance_equal (r : WavelengthRange) (v : value) :
  py_eq (VWl r) v = true ->
  exists c : Q,
    central_of v = Some c /\
    WavelengthRange_distance r v = Ok (Fin (Qabs (c - wl_central r))).
Proof.
  intros H. unfold WavelengthRange_distance. rewrite H.
  rewrite py_eq_wl in H.
  destruct v as [| n | s | name o | w | l | l | l]; simpl in H; try discriminate.
  - exists n. split; reflexivity.
  - exists (inject_Z o). split; reflexivity.
  - exists (wl_central w). split; reflexivity.
  - destruct (wl_eq_sequence_central r l) as [c Hc].
    { destruct (Nat.eqb (length l) 3); simpl in H; auto. }
    exists c. unfold central_of. cbv beta iota. rewrite Hc. split; reflexivity.
  - destruct (Nat.eqb (length l) 3); simpl in H; discriminate.
  - destruct (wl_eq_sequence_central r l) as [c Hc].
    { destruct (Nat.eqb (length l) 3); simpl in H; auto. }
    exists c. unfold central_of. cbv beta iota. rewrite Hc. split; reflexivity.
Qed.

(** C7. A WavelengthRange equals a bare number exactly when the number lies
    between its bounds ([WavelengthRange(1,2,3) == 2.5] holds, [== 0.5] does
    not); [distance] is infinite for a value the range is not equal to, and
    otherwise the absolute difference of the central values. *)
Theorem C7_wavelength_eq_distance (r : WavelengthRange) :
  (forall n : Q, py_eq (VWl r) (VNum n) = true <-> wl_min r <= n /\ n <= wl_max r) /\
  py_eq (VWl (mkWl 1 2 3 "µm")) (VNum (5 # 2)) = true /\
  py_eq (VWl (mkWl 1 2 3 "µm")) (VNum (1 # 2)) = false /\
  (forall v : value,
      py_eq (VWl r) v = false -> WavelengthRange_distance r v = Ok Inf) /\
  (forall v : value,
      py_eq (VWl r) v = true ->
      exists c : Q,
        central_of v = Some c /\
        WavelengthRange_distance r v = Ok (Fin (Qabs (c - wl_central r)))).
Proof.
  split; [| split; [| split; [| split]]].
  - intro n. rewrite py_eq_wl. simpl. apply wl_contains_number_iff.
  - reflexivity.
  - reflexivity.
  - intros v H. unfold WavelengthRange_distance. rewrite H. reflexivity.
  - intros v H. apply WavelengthRange_distance_equal. exact H.
Qed.

Lemma C7_wavelength_eq_distance_witness :
  py_eq (VWl (mkWl 1 2 3 "µm")) (VNum 2) = true /\
  exists c : Q,
    central_of (VNum 2) = Some c /\
    WavelengthRange_distance (mkWl 1 2 3 "µm") (VNum 2) = Ok (Fin (Qabs (c - 2))).
Proof.
  split; [reflexivity |].
  apply (C7_wavelength_eq_distance (mkWl 1 2 3 "µm")). reflexivity.
Defined.

Lemma lex_num_step (x y : Q) (rest : result bool) (P : Prop) :
  (exists b, rest = Ok b /\ (b = true <-> P)) ->
  exists b,
    (if atom_eq (ANum x) (ANum y) then rest else atom_lt (ANum x) (ANum y)) = Ok b /\
    (b = true <-> x < y \/ (x == y /\ P)).
Proof.
  intros [b [Hr Hb]]. simpl. destruct (Qeq_bool x y) eqn:E.
  - exists b. split; trivial. apply Qeq_bool_iff in E. rewrite Hb. split.
    + intro p. right. split; assumption.
    + intros [L | [_ p]]; trivial.
      rewrite E in L. exfalso. exact (Qlt_irrefl _ L).
  - exists (Qlt_bool x y). split; trivial.
    apply Qeq_bool_false_iff in E. rewrite Qlt_bool_iff. split.
    + intro L. left. exact L.
    + intros [L | [e _]]; trivial. contradiction.
Qed.

Lemma lex_unit_step (u u' : string) :
  exists b,
    (if atom_eq (AStr u) (AStr u') then tuple_lt [] [] else atom_lt (AStr u) (AStr u')) = Ok b /\
    (b = true <-> String.ltb u u' = true).
Proof.
  simpl. destruct (String.eqb u u') eqn:E.
  - apply String.eqb_eq in E. subst u'. exists false. split; trivial.
    rewrite string_ltb_irrefl. tauto.
  - exists (String.ltb u u'). split; trivial. tauto.
Qed.

Lemma tuple_lt_wl (w w' : WavelengthRange) :
  exists b, tuple_lt (wl_astuple w) (wl_astuple w') = Ok b /\ (b = true <-> wl_lex_lt w w').
Proof.
  unfold wl_astuple, wl_lex_lt. cbn [tuple_lt].
  apply lex_num_step, lex_num_step, lex_num_step, lex_unit_step.
Qed.

(** C9 (amended). [w < None] never holds and [w > None] always holds: [None]
    sorts before every range. Against another WavelengthRange both operators
    are the lexicographic order on [(min, central, max, unit)]. Every
    comparand that is neither [None] nor a tuple (a number, a string, a
    list, a member of an enumeration) raises a TypeError, with [<] and with
    [>], also when the range is the right operand. *)
Theorem C9_wavelength_ordering (w : WavelengthRange) :
  py_lt (VWl w) VNone = Ok false /\
  WavelengthRange_lt w VNone = Ok false /\
  WavelengthRange_gt w VNone = Ok true /\
  (forall w' : WavelengthRange,
      (exists b, WavelengthRange_lt w (VWl w') = Ok b /\ (b = true <-> wl_lex_lt w w')) /\
      (exists b, WavelengthRange_gt w (VWl w') = Ok b /\ (b = true <-> wl_lex_lt w' w))) /\
  (forall v : value,
      v <> VNone ->
      as_tuple v = None ->
      (exists msg, WavelengthRange_lt w v = Raise (TypeError msg)) /\
      (exists msg, WavelengthRange_gt w v = Raise (TypeError msg)) /\
      (exists msg, py_lt (VWl w) v = Raise (TypeError msg)) /\
      (exists msg, py_lt v (VWl w) = Raise (TypeError msg))).
Proof.
  split; [reflexivity |]. split; [reflexivity |]. split; [reflexivity |]. split.
  - intro w'. split; [apply tuple_lt_wl | apply (tuple_lt_wl w' w)].
  - intros v Nn Nt.
    destruct v as [| n | s | name o | w' | l | l | l];
      try contradiction; try discriminate Nt;
      repeat split; eexists; reflexivity.
Qed.

Lemma C9_wavelength_ordering_witness :
  (exists msg, WavelengthRange_lt (mkWl 1 2 3 "µm") (VStr "2") = Raise (TypeError msg)) /\
  (exists msg, WavelengthRange_gt (mkWl 1 2 3 "µm") (VNum 2) = Raise (TypeError msg)).
Proof.
  destruct (C9_wavelength_ordering (mkWl 1 2 3 "µm")) as [_ [_ [_ [_ R]]]].
  split.
  - apply (R (VStr "2")); [discriminate | reflexivity].
  - apply (R (VNum 2)); [discriminate | reflexivity].
Defined.

(** C9, as stated, fails: [WavelengthRange(1, 2, 3) < None] is false. *)
Lemma C9_counterexample :
  py_lt (VWl (mkWl 1 2 3 "µm")) VNone = Ok false /\
  ~ (forall w : WavelengthRange, py_lt (VWl w) VNone = Ok true).
Proof.
  split; [reflexivity |].
  intro H. specialize (H (mkWl 1 2 3 "µm")). discriminate H.
Qed.

(** ** DataID: immutability *)

(** C3. Each of [__setitem__], [__delitem__], [pop], [popitem], [clear],
    [update] and [setdefault] raises, and leaves the fields and the hash of
    the identifier as they were. *)
Theorem C3_immutable
  (hash_str : string -> Z) (hash_num : Q -> Z) (hash_none : Z) (hash_tuple : list Z -> Z)
  (d : DataID) (m : mutation) :
  fst (mutate d m) = Raise (TypeError "Cannot change a DataID") /\
  items (snd (mutate d m)) = items d /\
  dict_keys (items (snd (mutate d m))) = dict_keys (items d) /\
  hash_of hash_str hash_num hash_none hash_tuple (snd (mutate d m))
    = hash_of hash_str hash_num hash_none hash_tuple d /\
  (forall (h : Z) (d1 : DataID),
      DataID_hash hash_str hash_num hash_none hash_tuple d = Ok (h, d1) ->
      DataID_hash hash_str hash_num hash_none hash_tuple (snd (mutate d1 m)) = Ok (h, d1)).
Proof.
  assert (E : mutate d m = (Raise (TypeError "Cannot change a DataID"), d))
    by (destruct m; reflexivity).
  rewrite E. repeat split.
  intros h d1 H.
  assert (E1 : snd (mutate d1 m) = d1) by (destruct m; reflexivity).
  rewrite E1. unfold DataID_hash in H |- *.
  destruct (_hash d) as [h0 |] eqn:Hh.
  - inversion H; subst. rewrite Hh. reflexivity.
  - destruct (py_sorted item_lt (items d)) as [sorted | e]; [| discriminate H].
    simpl in H.
    destruct (hash_items hash_str hash_num hash_none hash_tuple sorted) as [hs | e];
      [| discriminate H].
    simpl in H. inversion H; subst. reflexivity.
Qed.

Lemma C3_immutable_witness :
  let d := mkDataID None [] [] [("name"%string, VStr "ch1"); ("resolution"%string, VNum 500)] in
  let d1 := mkDataID (Some 702898%Z) [] []
              [("name"%string, VStr "ch1"); ("resolution"%string, VNum 500)] in
  DataID_hash example_hash_str example_hash_num 0%Z example_hash_tuple d = Ok (702898%Z, d1) /\
  DataID_hash example_hash_str example_hash_num 0%Z example_hash_tuple
    (snd (mutate d1 (SetItem "name" (VStr "ch2")))) = Ok (702898%Z, d1).
Proof.
  split; [vm_compute; reflexivity |].
  apply (C3_immutable example_hash_str example_hash_num 0%Z example_hash_tuple
           (mkDataID None [] [] [("name"%string, VStr "ch1"); ("resolution"%string, VNum 500)])
           (SetItem "name" (VStr "ch2"))).
  vm_compute. reflexivity.
Defined.

(** ** DataQuery: equality *)

Lemma combine_fst_snd (A B : Type) (l : list (A * B)) :
  combine (map fst l) (map snd l) = l.
Proof.
  induction l as [| [a b] l IH]; simpl; [reflexivity | now rewrite IH].
Qed.

Lemma DataQuery_asdict_dict (q : DataQuery) : DataQuery_asdict q = _dict q.
Proof. apply combine_fst_snd. Qed.

Lemma eq_loop_spec (sitems odict : dict) (common : bool) :
  eq_loop sitems odict common = true <->
  (common = true \/ exists key val, In (key, val) sitems /\ dict_mem odict key = true) /\
  (forall key val oval,
      In (key, val) sitems -> dict_get odict key = Some oval -> compatible oval val = true).
Proof.
  revert common. induction sitems as [| [k v] rest IH]; intro common; simpl.
  - split.
    + intro H. split; [left; exact H | intros ? ? ? []].
    + intros [[H | [? [? [[] _]]]] _]. exact H.
  - destruct (dict_get odict k) as [oval |] eqn:G.
    + assert (C : (py_ne oval v && negb (is_none v)) = negb (compatible oval v)).
      { unfold compatible, py_ne. destruct (py_eq oval v), (is_none v); reflexivity. }
      rewrite C. destruct (compatible oval v) eqn:Cv; simpl.
      * rewrite IH. split.
        -- intros [_ Hall]. split.
           ++ right. exists k, v. split; [left; reflexivity |].
              unfold dict_mem. rewrite G. reflexivity.
           ++ intros key val oval' [E | I] Hg.
              ** inversion E; subst. rewrite G in Hg. inversion Hg; subst. exact Cv.
              ** eapply Hall; eassumption.
        -- intros [_ Hall]. split; [left; reflexivity |].
           intros key val oval' I Hg. eapply Hall; [right; exact I | exact Hg].
      * split; [discriminate |].
        intros [_ Hall]. specialize (Hall k v oval (or_introl eq_refl) G). congruence.
    + rewrite IH. split.
      * intros [Hc Hall]. split.
        -- destruct Hc as [Hc | [key [val [I Hm]]]]; [left; exact Hc |].
           right. exists key, val. split; [right; exact I | exact Hm].
        -- intros key val oval [E | I] Hg.
           ++ inversion E; subst. congruence.
           ++ eapply Hall; eassumption.
      * intros [Hc Hall]. split.
        -- destruct Hc as [Hc | [key [val [[E | I] Hm]]]].
           ++ left; exact Hc.
           ++ inversion E; subst. unfold dict_mem in Hm. rewrite G in Hm. discriminate.
           ++ right. exists key, val. split; assumption.
        -- intros key val oval I Hg. eapply Hall; [right; exact I | exact Hg].
Qed.

Lemma eq_loop_false_start (sitems odict : dict) :
  eq_loop sitems odict false = true <-> shares_compatible compatible sitems odict.
Proof.
  rewrite eq_loop_spec. unfold shares_compatible. split.
  - intros [[H | H] Hall]; [discriminate | split; assumption].
  - intros [H Hall]. split; [right; exact H | exact Hall].
Qed.

(** C5 (amended). A query equals a DataQuery or DataID exactly when the two
    share a field and every shared field is compatible: the query's value is
    [None], or the other value equals it. The wildcard is compared like any
    other value. *)
Theorem C5_query_eq (q : DataQuery) :
  (forall d : DataID,
      DataQuery_eq q (PDataID d) = true <->
      shares_compatible compatible (_dict q) (items d)) /\
  (forall q' : DataQuery,
      DataQuery_eq q (PQuery q') = true <->
      shares_compatible compatible (_dict q) (_dict q')) /\
  (forall oval : value, compatible oval VNone = true) /\
  (forall oval : value, compatible oval wildcard = py_eq oval wildcard).
Proof.
  split; [| split; [| split]].
  - intro d. unfold DataQuery_eq, asdict_of. rewrite DataQuery_asdict_dict.
    apply eq_loop_false_start.
  - intro q'. unfold DataQuery_eq, asdict_of. rewrite !DataQuery_asdict_dict.
    apply eq_loop_false_start.
  - intro oval. reflexivity.
  - intro oval. reflexivity.
Qed.

(** C5, as stated, fails: the query [{name: '*'}] and the identifier
    [{name: 'ch1'}] share a field whose query value is the wildcard, and yet
    are not equal. *)
Lemma C5_counterexample :
  shares_compatible compatible_spec (_dict example_query_wild) (items example_id_ch1) /\
  DataQuery_eq example_query_wild (PDataID example_id_ch1) = false.
Proof.
  split; [| reflexivity].
  split.
  - exists "name"%string, (VStr "*"). split; [left; reflexivity | reflexivity].
  - intros key val oval [E | []] _. inversion E; subst. reflexivity.
Qed.

(** ** Metadata combiner: no mapping among the arguments *)

Lemma gather_no_mapping (obj : Type) (M : MetadataValue obj)
  (objs : list (metadata_object obj)) (sk : option (list string))
  (infos : list (assoc obj)) :
  (forall o, In o objs -> mapping_of o = None) ->
  gather objs sk infos = (sk, infos).
Proof.
  induction objs as [| o rest IH]; intro H; simpl; [reflexivity |].
  rewrite (H o (or_introl eq_refl)). apply IH.
  intros o' I. apply H. right. exact I.
Qed.

(** C10. Without any argument that is a mapping or exposes an attribute
    dictionary, [combine_metadata] raises: the set of shared keys is still
    [None] when it is iterated. *)
Theorem C10_combine_nothing (obj : Type) (M : MetadataValue obj)
  (iter : list string -> list string) (objs : list (metadata_object obj))
  (average_times : bool) :
  (forall o, In o objs -> mapping_of o = None) ->
  combine_metadata iter objs average_times
    = Raise (TypeError "'NoneType' object is not iterable").
Proof.
  intro H. unfold combine_metadata. rewrite (gather_no_mapping M objs None [] H).
  reflexivity.
Qed.

Lemma C10_combine_nothing_witness :
  combine_metadata (M := pyobj_value) (fun l => l) [] true
    = Raise (TypeError "'NoneType' object is not iterable") /\
  combine_metadata (M := pyobj_value) (fun l => l) [MOther; MOther] false
    = Raise (TypeError "'NoneType' object is not iterable").
Proof.
  split.
  - apply (C10_combine_nothing pyobj_value (fun l => l) [] true).
    intros o [].
  - apply (C10_combine_nothing pyobj_value (fun l => l) [MOther; MOther] false).
    intros o [E | [E | []]]; subst o; reflexivity.
Defined.

(** ** Best-match ranking: fields the query leaves open *)

Lemma dist_equiv_refl (d : dist) : dist_equiv d d.
Proof. destruct d; simpl; [reflexivity | exact I]. Qed.

Lemma dist_equiv_trans (a b c : dist) :
  dist_equiv a b -> dist_equiv b c -> dist_equiv a c.
Proof.
  destruct a, b, c; simpl; try tauto. intros H1 H2. rewrite H1. exact H2.
Qed.

Lemma dist_add_equiv (d e : dist) (a b : Q) :
  dist_equiv d e -> a == b -> dist_equiv (dist_add d a) (dist_add e b).
Proof.
  destruct d, e; simpl; try tauto. intros H1 H2. rewrite H1, H2. reflexivity.
Qed.

Lemma dist_add_0 (d : dist) : dist_equiv d (dist_add d 0).
Proof. destruct d; simpl; [symmetry; apply Qplus_0_r | exact I]. Qed.

Lemma dist_add_add (d : dist) (a b : Q) :
  dist_equiv (dist_add (dist_add d a) b) (dist_add d (a + b)).
Proof. destruct d; simpl; [symmetry; apply Qplus_assoc | exact I]. Qed.

Lemma unconstrained_step_term (got : option value) (d : dist) :
  dist_equiv (unconstrained_step got d) (dist_add d (open_field_term got)).
Proof.
  destruct got as [[| n | s | name o | w | l | l | l] |]; simpl;
    first [apply dist_equiv_refl | apply dist_add_0].
Qed.

Lemma unconstrained_wildcard (q : DataQuery) (key : string) :
  unconstrained q key ->
  py_eq (dict_get_default (_dict q) key wildcard) wildcard = true.
Proof.
  unfold dict_get_default. intros [H | [val [H E]]]; rewrite H; [reflexivity | exact E].
Qed.

Lemma key_step_unconstrained (q : DataQuery) (dataid : DataID) (key : string) (d : dist) :
  unconstrained q key ->
  key_step q dataid key d
    = Ok (Continue (unconstrained_step (dict_get (items dataid) key) d)).
Proof.
  intro H. unfold key_step. rewrite (unconstrained_wildcard H). reflexivity.
Qed.

(** A distance equal to the sum computed by [distance += t] is the old
    distance and [t] more. *)
Lemma grown_by_sum (d d' : dist) (t : Q) :
  dist_equiv d' (dist_add d t) -> grown_by d d' t.
Proof. destruct d, d'; simpl; tauto. Qed.

Lemma grown_by_trans (d d1 d2 : dist) (t1 t2 : Q) :
  grown_by d d1 t1 -> grown_by d1 d2 t2 -> grown_by d d2 (t1 + t2).
Proof.
  destruct d as [a |], d1 as [b |], d2 as [c |]; simpl; try tauto.
  intros H1 H2. rewrite H2, H1. ring.
Qed.

(** C6. For a field the query leaves open, the distance of a candidate grows
    by the ordinal of its value if that is an enumeration member, by the
    value if it is a number, by the length if it is a tuple, and by 0
    otherwise: a finite distance [a] becomes [a] plus that term, and an
    infinite one stays infinite. Over a run of such fields the terms add
    up. *)
Theorem C6_open_field_distance (q : DataQuery) (dataid : DataID) :
  (forall (key : string) (distance : dist),
      unconstrained q key ->
      exists d',
        key_step q dataid key distance = Ok (Continue d') /\
        grown_by distance d' (open_field_term (dict_get (items dataid) key))) /\
  (forall (keys : list string) (distance : dist),
      (forall key, In key keys -> unconstrained q key) ->
      exists d',
        key_loop q dataid keys distance = Ok d' /\
        grown_by distance d'
          (fold_right Qplus 0
             (map (fun key => open_field_term (dict_get (items dataid) key)) keys))).
Proof.
  split.
  - intros key distance H. eexists. split.
    + apply key_step_unconstrained. exact H.
    + apply grown_by_sum. apply unconstrained_step_term.
  - induction keys as [| key rest IH]; intros distance H.
    + exists distance. split; [reflexivity |]. apply grown_by_sum. apply dist_add_0.
    + simpl. rewrite (key_step_unconstrained dataid distance (H key (or_introl eq_refl))).
      simpl.
      destruct (IH (unconstrained_step (dict_get (items dataid) key) distance))
        as [d' [Hl He]].
      { intros k I. apply H. right. exact I. }
      exists d'. split; [exact Hl |].
      apply (@grown_by_trans distance
               (unconstrained_step (dict_get (items dataid) key) distance) d' _ _);
        [| exact He].
      apply grown_by_sum. apply unconstrained_step_term.
Qed.

Lemma C6_open_field_distance_witness :
  unconstrained example_query_wild "calibration" /\
  exists d',
    key_step example_query_wild example_id_full "calibration" (Fin 0) = Ok (Continue d') /\
    match d' with
    | Fin b => b == 0 + 4
    | Inf => False
    end.
Proof.
  split; [left; reflexivity |].
  apply (C6_open_field_distance example_query_wild example_id_full).
  left. reflexivity.
Defined.

(** ** Metadata combiner: array-like values *)

Lemma dict_get_set_same (V : Type) (d : assoc V) (k : string) (v : V) :
  dict_get (dict_set d k v) k = Some v.
Proof.
  induction d as [| [k' v'] d IH]; simpl.
  - rewrite String.eqb_refl. reflexivity.
  - destruct (String.eqb k' k) eqn:E; simpl; rewrite E; [reflexivity | exact IH].
Qed.

Lemma dict_get_set_other (V : Type) (d : assoc V) (k k' : string) (v : V) :
  k <> k' -> dict_get (dict_set d k v) k' = dict_get d k'.
Proof.
  intro N. induction d as [| [k0 v0] d IH]; simpl.
  - apply String.eqb_neq in N. rewrite N. reflexivity.
  - destruct (String.eqb k0 k) eqn:E; simpl.
    + apply String.eqb_eq in E. subst k0.
      apply String.eqb_neq in N. rewrite N. reflexivity.
    + rewrite IH. reflexivity.
Qed.

Lemma dict_mem_set (V : Type) (d : assoc V) (k k' : string) (v : V) :
  dict_mem (dict_set d k v) k' = String.eqb k k' || dict_mem d k'.
Proof.
  unfold dict_mem. destruct (String.eqb k k') eqn:E.
  - apply String.eqb_eq in E. subst k'. rewrite dict_get_set_same. reflexivity.
  - apply String.eqb_neq in E. rewrite (dict_get_set_other d v E). reflexivity.
Qed.

Lemma dict_mem_keys (V : Type) (d : assoc V) (k : string) :
  dict_mem d k = true <-> In k (dict_keys d).
Proof.
  unfold dict_mem, dict_keys. induction d as [| [k' v'] d IH]; simpl.
  - split; [discriminate | tauto].
  - destruct (String.eqb k' k) eqn:E.
    + apply String.eqb_eq in E. subst k'. split; auto.
    + apply String.eqb_neq in E. rewrite IH. split; [auto | intros [H | H]; [contradiction | exact H]].
Qed.

Section CombineFacts.
Context {obj : Type} {M : MetadataValue obj}.

Lemma gather_spec (objs : list (metadata_object obj)) :
  forall (sk : option (list string)) (infos : list (assoc obj)),
    snd (gather objs sk infos) = infos ++ mappings objs /\
    (forall k, key_allowed (fst (gather objs sk infos)) k <->
               key_allowed sk k /\
               forall d, In d (mappings objs) -> dict_mem d k = true) /\
    (fst (gather objs sk infos) = None <-> sk = None /\ mappings objs = []).
Proof.
  induction objs as [| o rest IH]; intros sk infos; simpl.
  - rewrite app_nil_r. repeat split; try tauto.
  - unfold mappings. simpl. fold (mappings rest).
    destruct (mapping_of o) as [md |] eqn:Mo; simpl.
    + destruct (IH (Some match sk with
                         | Some ks => filter (dict_mem md) ks
                         | None => nodup string_dec (dict_keys md)
                         end) (infos ++ [md])) as [H1 [H2 H3]].
      split; [rewrite H1, <- app_assoc; reflexivity |].
      split.
      * intro k. rewrite H2. simpl.
        assert (K : In k match sk with
                         | Some ks => filter (dict_mem md) ks
                         | None => nodup string_dec (dict_keys md)
                         end <-> key_allowed sk k /\ dict_mem md k = true).
        { destruct sk as [ks |]; simpl.
          - apply filter_In.
          - rewrite nodup_In, dict_mem_keys. tauto. }
        rewrite K. split.
        -- intros [[A B] C]. split; [exact A |].
           intros d [E | I]; [subst d; exact B | apply C; exact I].
        -- intros [A C]. split; [split; [exact A | apply C; left; reflexivity] |].
           intros d I. apply C. right. exact I.
      * rewrite H3. split; [intros [E _]; discriminate E | intros [_ E]; discriminate E].
    + apply IH.
Qed.

Lemma values_for_all_have (k : string) (infos : list (assoc obj)) (values : list obj) :
  values_for k infos = Ok values ->
  length values = length infos /\ forall d, In d infos -> dict_mem d k = true.
Proof.
  revert values. induction infos as [| nfo rest IH]; intros values H; simpl in H.
  - inversion H; subst. split; [reflexivity | intros d []].
  - destruct (dict_get nfo k) as [v |] eqn:G; [| discriminate H].
    destruct (values_for k rest) as [r |]; [| discriminate H].
    simpl in H. inversion H; subst.
    destruct (IH r eq_refl) as [L A]. split; [simpl; now rewrite L |].
    intros d [E | I]; [subst d; unfold dict_mem; now rewrite G | apply A; exact I].
Qed.

(** A key ends up in the merged mapping exactly when it was there already
    or is one of the keys gone through and passes [_share_metadata_key]. *)
Lemma combine_keys_mem (k : string) (keys : list string) (infos : list (assoc obj))
  (average_times : bool) :
  forall (acc res : assoc obj),
    combine_keys keys infos average_times acc = Ok res ->
    (dict_mem res k = true <->
     dict_mem acc k = true \/
     (In k keys /\
      exists values, values_for k infos = Ok values /\
                     _share_metadata_key k values average_times = Ok true)).
Proof.
  induction keys as [| k' rest IH]; intros acc res H; simpl in H.
  - inversion H; subst. split; [auto | intros [A | [[] _]]; exact A].
  - destruct (values_for k' infos) as [values |] eqn:V; [| discriminate H].
    simpl in H.
    destruct (_share_metadata_key k' values average_times) as [share |] eqn:S;
      [| discriminate H].
    simpl in H.
    assert (Step : forall acc',
               combine_keys rest infos average_times acc' = Ok res ->
               (dict_mem acc' k = true <->
                dict_mem acc k = true \/ (k' = k /\ share = true)) ->
               (dict_mem res k = true <->
                dict_mem acc k = true \/
                (In k (k' :: rest) /\
                 exists values, values_for k infos = Ok values /\
                                _share_metadata_key k values average_times = Ok true))).
    { intros acc' Hres Hacc. rewrite (IH acc' res Hres), Hacc. simpl. split.
      - intros [[A | [E T]] | [I X]]; [left; exact A | | right; split; [right; exact I | exact X]].
        subst k' share. right. split; [left; reflexivity |]. exists values. split; assumption.
      - intros [A | [[E | I] X]]; [left; left; exact A | | right; split; assumption].
        subst k'. destruct X as [vs [V' S']]. rewrite V in V'. inversion V'; subst vs.
        rewrite S in S'. inversion S'; subst share. left. right. split; reflexivity. }
    assert (Set_ : forall v, dict_mem (dict_set acc k' v) k = true <->
                             dict_mem acc k = true \/ (k' = k /\ true = true)).
    { intro v. rewrite dict_mem_set, orb_true_iff, String.eqb_eq. tauto. }
    destruct share.
    + destruct values as [| v0 vs]; [discriminate H |].
      destruct (str_in "time" k' && is_datetime v0 && average_times).
      * destruct (average_datetimes (v0 :: vs)) as [avg |]; [| discriminate H].
        simpl in H. apply (Step _ H). apply Set_.
      * apply (Step _ H). apply Set_.
    + apply (Step _ H). split; [auto | intros [A | [_ F]]; [exact A | discriminate F]].
Qed.

(** With an array among the values the outcome is that of the identity
    test, once the list for [any] has been built. *)
Lemma share_key_any_arrays (k : string) (values : list obj) (average_times : bool)
  (tests : list bool) :
  existsb has_array values = true ->
  list_of_arrays_tests values = Ok tests ->
  _share_metadata_key k values average_times = Ok (_share_metadata_key_array values).
Proof. intros H T. unfold _share_metadata_key. rewrite T. simpl. rewrite H. reflexivity. Qed.

(** What building that list raises, [_share_metadata_key] raises. *)
Lemma share_key_tests_raise (k : string) (values : list obj) (average_times : bool)
  (e : pyerr) :
  list_of_arrays_tests values = Raise e ->
  _share_metadata_key k values average_times = Raise e.
Proof. intro T. unfold _share_metadata_key. rewrite T. reflexivity. Qed.

Lemma share_key_ok_tests (k : string) (values : list obj) (average_times : bool) (b : bool) :
  _share_metadata_key k values average_times = Ok b ->
  exists tests, list_of_arrays_tests values = Ok tests.
Proof.
  unfold _share_metadata_key.
  destruct (list_of_arrays_tests values) as [tests | e]; [| discriminate].
  intros _. exists tests. reflexivity.
Qed.

(** A Collection whose [len] raises makes [_share_metadata_key] raise, when
    the values before it pass the test of lines 333-337: also for an
    array-like value, and before the arrays are looked at. *)
Lemma share_key_unsized (k : string) (pre post : list obj) (v : obj)
  (average_times : bool) (e : pyerr) :
  (forall x, In x pre -> exists b, is_list_of_arrays x = Ok b) ->
  is_collection v = true ->
  py_len v = Raise e ->
  _share_metadata_key k (pre ++ v :: post) average_times = Raise e.
Proof.
  intros Hpre Hc Hl. apply share_key_tests_raise.
  induction pre as [| x pre IH]; simpl.
  - unfold is_list_of_arrays. rewrite Hc, Hl. reflexivity.
  - destruct (Hpre x (or_introl eq_refl)) as [b Hb]. rewrite Hb. simpl.
    rewrite IH; [reflexivity |]. intros y I. apply Hpre. right. exact I.
Qed.

(** A key gone through without a raise has its values in every input and an
    outcome of [_share_metadata_key]. *)
Lemma combine_keys_shared (k : string) (keys : list string) (infos : list (assoc obj))
  (average_times : bool) :
  forall (acc res : assoc obj),
    combine_keys keys infos average_times acc = Ok res ->
    In k keys ->
    exists values b,
      values_for k infos = Ok values /\
      _share_metadata_key k values average_times = Ok b.
Proof.
  induction keys as [| k' rest IH]; intros acc res H I; [destruct I |].
  simpl in H.
  destruct (values_for k' infos) as [values |] eqn:V; [| discriminate H].
  simpl in H.
  destruct (_share_metadata_key k' values average_times) as [share |] eqn:S;
    [| discriminate H].
  simpl in H.
  destruct I as [E | I].
  - subst k'. exists values, share. split; assumption.
  - destruct share.
    + destruct values as [| v0 vs]; [discriminate H |].
      destruct (str_in "time" k' && is_datetime v0 && average_times).
      * destruct (average_datetimes (v0 :: vs)) as [avg |]; [| discriminate H].
        simpl in H. apply (IH _ _ H I).
      * apply (IH _ _ H I).
    + apply (IH _ _ H I).
Qed.

(** When every input has the key and one of its values is array-like, the
    key is kept in the mapping that [combine_metadata] returns exactly when
    every value is the same object as the first input's: the contents are
    never looked at. *)
Theorem combine_array_identity (iter : list string -> list string)
  (objs : list (metadata_object obj)) (average_times : bool) (k : string)
  (v0 : obj) (rest : list obj) (shared_info : assoc obj) :
  (forall l x, In x (iter l) <-> In x l) ->
  values_for k (mappings objs) = Ok (v0 :: rest) ->
  existsb has_array (v0 :: rest) = true ->
  combine_metadata iter objs average_times = Ok shared_info ->
  (dict_mem shared_info k = true <-> forall v, In v rest -> same_object v v0 = true).
Proof.
  intros Hiter Hvals Harr Hres. unfold combine_metadata in Hres.
  destruct (gather_spec objs None []) as [G1 [G2 G3]].
  destruct (gather objs None []) as [sk infos]. simpl in G1, G2, G3. subst infos.
  destruct sk as [ks |]; [| discriminate Hres].
  rewrite (combine_keys_mem k _ _ _ _ Hres).
  assert (Hk : In k (iter ks)).
  { apply Hiter. apply (G2 k). split; [exact I |].
    apply (values_for_all_have _ _ Hvals). }
  assert (Sh : _share_metadata_key k (v0 :: rest) average_times
               = Ok (_share_metadata_key_array (v0 :: rest))).
  { destruct (combine_keys_shared k _ _ _ _ Hres Hk) as [values [b [V S]]].
    rewrite Hvals in V. inversion V; subst values.
    destruct (share_key_ok_tests _ _ _ S) as [tests T].
    apply (share_key_any_arrays k _ average_times Harr T). }
  unfold dict_mem at 1. simpl. split.
  - intros [F | [_ [values [V S]]]]; [discriminate F |].
    rewrite Hvals in V. inversion V; subst values.
    rewrite Sh in S.
    assert (S' : _share_metadata_key_array (v0 :: rest) = true) by congruence.
    simpl in S'. rewrite forallb_forall in S'. exact S'.
  - intro A. right. split; [exact Hk |]. exists (v0 :: rest). split; [exact Hvals |].
    rewrite Sh. f_equal. simpl.
    apply forallb_forall. exact A.
Qed.
End CombineFacts.

Lemma combine_array_identity_witness :
  combine_metadata (fun l => l) example_inputs_distinct true = Ok [] /\
  (dict_mem ([] : assoc pyobj) "area" = true <->
   forall v, In v [example_array_2] -> same_object v example_array_1 = true).
Proof.
  split; [reflexivity |].
  apply (combine_array_identity (M := pyobj_value) (fun l => l) example_inputs_distinct true
           "area" (v0 := example_array_1) (rest := [example_array_2])).
  - intros l x. tauto.
  - reflexivity.
  - reflexivity.
  - reflexivity.
Defined.

(** The same array object in both inputs is kept; two arrays with the same
    content are dropped. *)
Example combine_same_array_kept :
  combine_metadata (fun l => l) example_inputs_same true
    = Ok [("area"%string, example_array_1)].
Proof. reflexivity. Qed.

Example combine_equal_arrays_dropped :
  ocontent example_array_1 = ocontent example_array_2 /\
  combine_metadata (fun l => l) example_inputs_distinct true = Ok [].
Proof. split; reflexivity. Qed.

(** C8: the failing input. Both inputs hold, under the key [offset], one
    and the same array of no dimension. It is array-like and it is the same
    object in both inputs, so the key is to be kept; but the list for [any]
    of lines 333-337 is built before the arrays are looked at, [len] of the
    array raises, and [combine_metadata] raises a TypeError instead of
    returning a mapping with the key. The same object as an array of one
    dimension is kept. *)
Theorem C8_unsized_array_failing_input :
  has_array example_array_0d = true /\
  (forall v, In v [example_array_0d] -> same_object v example_array_0d = true) /\
  values_for "offset" (mappings example_inputs_0d) = Ok [example_array_0d; example_array_0d] /\
  _share_metadata_key_array [example_array_0d; example_array_0d] = true /\
  combine_metadata (fun l => l) example_inputs_0d true
    = Raise (TypeError "len() of unsized object") /\
  combine_metadata (fun l => l) example_inputs_0d false
    = Raise (TypeError "len() of unsized object") /\
  combine_metadata (fun l => l) example_inputs_same true
    = Ok [("area"%string, example_array_1)].
Proof.
  split; [reflexivity |]. split.
  - intros v [E | []]. subst v. reflexivity.
  - repeat split; reflexivity.
Qed.

(** ** DataID: construction *)

Lemma string_length_append (s t : string) :
  String.length (s ++ t) = (String.length s + String.length t)%nat.
Proof. induction s as [| c s IH]; simpl; [reflexivity | now rewrite IH]. Qed.

Lemma string_append_inj (s1 s2 t : string) : (s1 ++ t = s2 ++ t)%string -> s1 = s2.
Proof.
  revert s2. induction s1 as [| c s1 IH]; intros [| c' s2] H; simpl in H.
  - reflexivity.
  - apply (f_equal String.length) in H. simpl in H.
    rewrite string_length_append in H. lia.
  - apply (f_equal String.length) in H. simpl in H.
    rewrite string_length_append in H. lia.
  - inversion H; subst. f_equal. apply IH. assumption.
Qed.

(** A failed type conversion is not the error of a missing required field. *)
Lemma convert_not_missing (t : coercion) (v : value) (key : string) :
  convert t v <> Raise (MissingRequiredField key).
Proof.
  unfold MissingRequiredField.
  destruct t; simpl.
  - destruct v as [| | | | | l | l | l]; simpl; try discriminate;
      destruct l as [| [a | a] [| [b | b] [| [c | c] [| [u | u] [| ? ?]]]]]; discriminate.
  - destruct v; simpl; discriminate.
  - destruct v; simpl; try discriminate;
      match goal with |- context [enum_ordinal ?n ?s ?z] => destruct (enum_ordinal n s z) end;
      discriminate.
Qed.

Lemma convert_fields_app (pre post : schema) (raw : dict) :
  forall acc,
    convert_fields (pre ++ post) raw acc
    = (c <- convert_fields pre raw acc ;; convert_fields post raw c).
Proof.
  induction pre as [| [k [e |]] pre IH]; intro acc; simpl; [reflexivity | |].
  - destruct (field_entered k e raw); [| apply IH].
    destruct (has_required e && is_none (dict_get_default raw k (get_default e)));
      [reflexivity |].
    destruct (k_type e) as [t |].
    + destruct (convert t (dict_get_default raw k (get_default e))); simpl;
        [apply IH | reflexivity].
    + destruct (is_none (dict_get_default raw k (get_default e))); apply IH.
  - destruct (dict_get raw k) as [v |]; [| apply IH].
    destruct (is_none v); apply IH.
Qed.

(** The error of a missing required field comes from the first field whose
    test of line 413 succeeds, all fields before it having been converted. *)
Lemma convert_fields_missing (fixed : schema) (raw : dict) (key : string) :
  forall acc,
    convert_fields fixed raw acc = Raise (MissingRequiredField key) <->
    exists pre e post c,
      fixed = pre ++ (key, Some e) :: post /\
      convert_fields pre raw acc = Ok c /\
      field_entered key e raw = true /\
      (has_required e && is_none (dict_get_default raw key (get_default e))) = true.
Proof.
  intro acc. split.
  - revert acc. induction fixed as [| [k [e |]] rest IH]; intros acc H; simpl in H.
    + discriminate H.
    + destruct (field_entered k e raw) eqn:En.
      * destruct (has_required e && is_none (dict_get_default raw k (get_default e))) eqn:Mi.
        -- inversion H as [H']. apply string_append_inj in H'. subst k.
           exists [], e, rest, acc. repeat split; assumption.
        -- assert (Next : forall acc',
                     convert_fields rest raw acc' = Raise (MissingRequiredField key) ->
                     convert_fields [(k, Some e)] raw acc = Ok acc' ->
                     exists pre e0 post c,
                       (k, Some e) :: rest = pre ++ (key, Some e0) :: post /\
                       convert_fields pre raw acc = Ok c /\
                       field_entered key e0 raw = true /\
                       (has_required e0 &&
                        is_none (dict_get_default raw key (get_default e0))) = true).
           { intros acc' Hr Hone.
             destruct (IH acc' Hr) as [pre [e0 [post [c [E [Hp [He Hm]]]]]]].
             exists ((k, Some e) :: pre), e0, post, c. subst rest.
             repeat split; try assumption.
             change ((k, Some e) :: pre) with ([(k, Some e)] ++ pre).
             rewrite convert_fields_app, Hone. exact Hp. }
           destruct (k_type e) as [t |] eqn:Ty.
           ++ destruct (convert t (dict_get_default raw k (get_default e))) as [v | err] eqn:Cv.
              ** simpl in H. apply (Next _ H). simpl. rewrite En, Mi, Ty, Cv. reflexivity.
              ** simpl in H. exfalso. inversion H; subst err.
                 exact (convert_not_missing _ _ Cv).
           ++ destruct (is_none (dict_get_default raw k (get_default e))) eqn:Nn.
              ** apply (Next _ H). simpl. rewrite En, Nn, Mi, Ty. reflexivity.
              ** apply (Next _ H). simpl. rewrite En, Nn, Mi, Ty. reflexivity.
      * destruct (IH acc H) as [pre [e0 [post [c [E [Hp [He Hm]]]]]]].
        exists ((k, Some e) :: pre), e0, post, c. subst rest.
        repeat split; try assumption. simpl. rewrite En. exact Hp.
    + assert (Next : forall acc',
                 convert_fields rest raw acc' = Raise (MissingRequiredField key) ->
                 convert_fields [(k, None)] raw acc = Ok acc' ->
                 exists pre e0 post c,
                   (k, None) :: rest = pre ++ (key, Some e0) :: post /\
                   convert_fields pre raw acc = Ok c /\
                   field_entered key e0 raw = true /\
                   (has_required e0 &&
                    is_none (dict_get_default raw key (get_default e0))) = true).
      { intros acc' Hr Hone.
        destruct (IH acc' Hr) as [pre [e0 [post [c [E [Hp [He Hm]]]]]]].
        exists ((k, None) :: pre), e0, post, c. subst rest.
        repeat split; try assumption.
        change ((k, None) :: pre) with ([(k, None : option id_key)] ++ pre).
        rewrite convert_fields_app, Hone. exact Hp. }
      destruct (dict_get raw k) as [v |] eqn:G.
      * destruct (is_none v) eqn:Nn; apply (Next _ H); simpl; rewrite G, Nn; reflexivity.
      * apply (Next _ H); simpl; rewrite G; reflexivity.
  - intros [pre [e [post [c [E [Hp [He Hm]]]]]]]. subst fixed.
    rewrite convert_fields_app, Hp. simpl. rewrite He, Hm. reflexivity.
Qed.

Lemma convert_fields_mem (fixed : schema) (raw : dict) (k : string) :
  forall acc res,
    convert_fields fixed raw acc = Ok res ->
    (dict_mem res k = true <->
     dict_mem acc k = true \/
     exists entry, In (k, entry) fixed /\ field_included k entry raw = true).
Proof.
  induction fixed as [| [k' entry'] rest IH]; intros acc res H.
  - simpl in H. inversion H; subst. split; [auto | intros [A | [? [[] _]]]; exact A].
  - assert (Skip : convert_fields rest raw acc = Ok res ->
                   field_included k' entry' raw = false ->
                   (dict_mem res k = true <->
                    dict_mem acc k = true \/
                    exists entry, In (k, entry) ((k', entry') :: rest) /\
                                  field_included k entry raw = true)).
    { intros Hr Hf. rewrite (IH _ _ Hr). split.
      - intros [A | [entry [I F]]]; [left; exact A |].
        right. exists entry. split; [right; exact I | exact F].
      - intros [A | [entry [[E | I] F]]]; [left; exact A | |].
        + inversion E; subst. congruence.
        + right. exists entry. split; assumption. }
    assert (Store : forall v,
               convert_fields rest raw (dict_set acc k' v) = Ok res ->
               field_included k' entry' raw = true ->
               (dict_mem res k = true <->
                dict_mem acc k = true \/
                exists entry, In (k, entry) ((k', entry') :: rest) /\
                              field_included k entry raw = true)).
    { intros v Hr Hf. rewrite (IH _ _ Hr), dict_mem_set, orb_true_iff, String.eqb_eq. split.
      - intros [[E | A] | [entry [I F]]].
        + subst k'. right. exists entry'. split; [left; reflexivity | exact Hf].
        + left. exact A.
        + right. exists entry. split; [right; exact I | exact F].
      - intros [A | [entry [[E | I] F]]].
        + left. right. exact A.
        + inversion E; subst. left. left. reflexivity.
        + right. exists entry. split; assumption. }
    simpl in H. destruct entry' as [e |]; unfold field_included in Skip, Store.
    + destruct (field_entered k' e raw); [| apply Skip; [exact H | reflexivity]].
      destruct (has_required e && is_none (dict_get_default raw k' (get_default e)));
        [discriminate H |].
      destruct (k_type e) as [t |].
      * destruct (convert t (dict_get_default raw k' (get_default e))) as [v |];
          [| discriminate H].
        simpl in H. apply (Store v H). reflexivity.
      * destruct (is_none (dict_get_default raw k' (get_default e))).
        -- apply Skip; [exact H | reflexivity].
        -- apply (Store _ H). reflexivity.
    + destruct (dict_get raw k') as [v |]; [| apply Skip; [exact H | reflexivity]].
      destruct (is_none v).
      * apply Skip; [exact H | reflexivity].
      * apply (Store _ H). reflexivity.
Qed.

(** When the conversion succeeds no processed field with a [required] entry
    resolved to [None]. *)
Lemma convert_fields_ok_required (fixed : schema) (raw : dict) :
  forall acc res,
    convert_fields fixed raw acc = Ok res ->
    forall k e,
      In (k, Some e) fixed ->
      field_entered k e raw = true ->
      (has_required e && is_none (dict_get_default raw k (get_default e))) = false.
Proof.
  induction fixed as [| [k' entry'] rest IH]; intros acc res H k e I En; [destruct I |].
  destruct I as [E | I].
  - inversion E; subst. simpl in H. rewrite En in H.
    destruct (has_required e && is_none (dict_get_default raw k (get_default e)));
      [discriminate H | reflexivity].
  - simpl in H. destruct entry' as [e' |].
    + destruct (field_entered k' e' raw); [| exact (IH _ _ H k e I En)].
      destruct (has_required e' && is_none (dict_get_default raw k' (get_default e')));
        [discriminate H |].
      destruct (k_type e') as [t |].
      * destruct (convert t (dict_get_default raw k' (get_default e'))) as [v |];
          [| discriminate H].
        exact (IH _ _ H k e I En).
      * destruct (is_none (dict_get_default raw k' (get_default e')));
          exact (IH _ _ H k e I En).
    + destruct (dict_get raw k') as [v |]; [| exact (IH _ _ H k e I En)].
      destruct (is_none v); exact (IH _ _ H k e I En).
Qed.

Lemma dict_get_In (V : Type) (d : assoc V) (k : string) (v : V) :
  dict_get d k = Some v -> In (k, v) d.
Proof.
  induction d as [| [k' v'] d IH]; simpl; [discriminate |].
  destruct (String.eqb k' k) eqn:E.
  - apply String.eqb_eq in E. subst k'. intro H. inversion H; subst. left. reflexivity.
  - intro H. right. apply IH. exact H.
Qed.

(** Without nulls in the raw mapping, the test of line 413 is the one of the
    specification. *)
Lemma missing_iff_unresolved (key : string) (e : id_key) (raw : dict) :
  no_null raw ->
  (field_entered key e raw = true /\
   (has_required e && is_none (dict_get_default raw key (get_default e))) = true) <->
  required_unresolved key e raw = true.
Proof.
  intro Nn. unfold field_entered, required_unresolved, dict_get_default, dict_mem,
    has_required, required_truthy.
  destruct (dict_get raw key) as [v |] eqn:G.
  - rewrite (Nn key v (dict_get_In _ _ G)). simpl.
    rewrite !andb_false_r. split; [intros [_ F]; discriminate F | discriminate].
  - simpl. destruct (k_required e) as [[|] |]; destruct (is_none (get_default e));
      simpl; split; try tauto; try discriminate; intros [A B]; discriminate.
Qed.

Lemma included_iff_resolves (fixed : schema) (raw : dict) (acc res : dict)
  (key : string) (entry : option id_key) :
  no_null raw ->
  convert_fields fixed raw acc = Ok res ->
  In (key, entry) fixed ->
  field_included key entry raw = field_resolves key entry raw.
Proof.
  intros Nn H I. destruct entry as [e |]; simpl.
  - destruct (field_entered key e raw) eqn:En; [| reflexivity]. simpl.
    destruct (k_type e); [reflexivity |].
    pose proof (convert_fields_ok_required _ _ _ H _ _ I En) as R.
    unfold field_entered, dict_mem, dict_get_default in *.
    destruct (dict_get raw key) as [v |] eqn:G.
    + rewrite (Nn key v (dict_get_In _ _ G)). reflexivity.
    + simpl in En. destruct (is_none (get_default e)); [| reflexivity].
      simpl in En. unfold required_truthy, has_required in *.
      destruct (k_required e) as [[|] |]; simpl in *; discriminate.
  - unfold dict_mem. destruct (dict_get raw key) as [v |] eqn:G; [| reflexivity].
    rewrite (Nn key v (dict_get_In _ _ G)). reflexivity.
Qed.

(** C2 (amended). The empty raw mapping always gives the empty identifier.
    For a non-empty raw mapping without null values, construction fails with
    the error of a missing required field exactly at a required field that
    the raw mapping does not supply and that has no non-null default, no
    field before it having failed its type conversion; and when construction
    succeeds, a field is in the identifier exactly when the raw mapping
    supplies it, or it has a non-null default, or it is required. *)
Theorem C2_construction (id_keys fixed : schema) (raw : dict) :
  fix_id_keys id_keys = Ok fixed ->
  DataID_init id_keys [] = Ok (mkDataID None id_keys fixed []) /\
  (raw <> [] ->
   no_null raw ->
   (forall key,
       DataID_init id_keys raw = Raise (MissingRequiredField key) <->
       exists pre e post curated,
         fixed = pre ++ (key, Some e) :: post /\
         convert_fields pre raw [] = Ok curated /\
         required_unresolved key e raw = true) /\
   (forall d,
       DataID_init id_keys raw = Ok d ->
       forall key,
         dict_mem (items d) key = true <->
         exists entry, In (key, entry) fixed /\ field_resolves key entry raw = true)).
Proof.
  intro Fx. unfold DataID_init. rewrite Fx. simpl. split; [reflexivity |].
  intros Ne Nn.
  assert (Cd : convert_dict fixed raw = convert_fields fixed raw []).
  { destruct raw; [contradiction | reflexivity]. }
  assert (In_ : match raw with [] => Ok [] | _ :: _ => convert_dict fixed raw end
                = convert_fields fixed raw []).
  { destruct raw; [contradiction | exact Cd]. }
  rewrite In_. split.
  - intro key. split.
    + intro H. destruct (convert_fields fixed raw []) as [c |] eqn:Cf; [discriminate H |].
      simpl in H. inversion H; subst e.
      apply convert_fields_missing in Cf.
      destruct Cf as [pre [e [post [c [E [Hp [He Hm]]]]]]].
      exists pre, e, post, c. repeat split; try assumption.
      apply (missing_iff_unresolved key e Nn). split; assumption.
    + intros [pre [e [post [c [E [Hp Hu]]]]]].
      apply (missing_iff_unresolved key e Nn) in Hu. destruct Hu as [He Hm].
      assert (Cf : convert_fields fixed raw [] = Raise (MissingRequiredField key)).
      { apply convert_fields_missing. exists pre, e, post, c. repeat split; assumption. }
      rewrite Cf. reflexivity.
  - intros d H key.
    destruct (convert_fields fixed raw []) as [c |] eqn:Cf; [| discriminate H].
    simpl in H. inversion H; subst d. simpl.
    rewrite (convert_fields_mem fixed raw key _ Cf). split.
    + intros [F | [entry [I Fi]]]; [discriminate F |].
      exists entry. split; [exact I |].
      rewrite <- (included_iff_resolves _ _ _ _ Nn Cf I). exact Fi.
    + intros [entry [I Fr]]. right. exists entry. split; [exact I |].
      rewrite (included_iff_resolves _ _ _ _ Nn Cf I). exact Fr.
Qed.

Lemma example_raw_no_null : no_null example_raw.
Proof.
  intros k v [E | [E | []]]; inversion E; reflexivity.
Defined.

Lemma C2_construction_witness :
  fix_id_keys default_id_keys_config = Ok example_fixed_default /\
  DataID_init default_id_keys_config []
    = Ok (mkDataID None default_id_keys_config example_fixed_default []) /\
  (forall d,
      DataID_init default_id_keys_config example_raw = Ok d ->
      forall key,
        dict_mem (items d) key = true <->
        exists entry,
          In (key, entry) example_fixed_default /\
          field_resolves key entry example_raw = true).
Proof.
  split; [reflexivity |].
  destruct (C2_construction default_id_keys_config (fixed := example_fixed_default)
              example_raw eq_refl) as [E N].
  split; [exact E |].
  apply N; [discriminate | exact example_raw_no_null].
Defined.

(** C2, as stated, fails: with the empty raw mapping the required field
    [name] resolves to no value and construction succeeds all the same. *)
Lemma C2_counterexample :
  (exists e, In ("name"%string, Some e) minimal_default_keys_config /\
             required_unresolved "name" e [] = true) /\
  DataID_init minimal_default_keys_config []
    = Ok (mkDataID None minimal_default_keys_config minimal_default_keys_config []) /\
  (forall key,
      DataID_init minimal_default_keys_config [] <> Raise (MissingRequiredField key)).
Proof.
  split; [| split].
  - eexists. split; [left; reflexivity | reflexivity].
  - reflexivity.
  - intros key H. discriminate H.
Qed.

(** ** DataID: the pickling round trip *)

(** C4 fails at the identifier built from [name='x', level=None] under a
    schema whose untyped field [level] has the default 5: the [None] keeps
    the default out of the identifier, and the reconstruction from
    [__reduce__] puts it in. *)
Theorem C4_roundtrip_failing_input :
  exists a a' : DataID,
    DataID_init example_schema_level example_raw_null_level = Ok a /\
    items a = [("name"%string, VStr "x")] /\
    DataID_reduce a = (example_schema_level, [("name"%string, VStr "x")]) /\
    DataID_unpickle (fst (DataID_reduce a)) (snd (DataID_reduce a)) = Ok a' /\
    items a' = [("name"%string, VStr "x"); ("level"%string, VNum 5)] /\
    DataID_eq a' a = false /\
    DataID_eq a a' = false.
Proof.
  eexists. eexists. repeat split.
Qed.

(** Without a [None] in the raw mapping the round trip gives an equal
    identifier: here under the default schema, with an enumeration member
    that [to_dict] renders as its name. *)
Example roundtrip_default_schema :
  exists a a' : DataID,
    DataID_init default_id_keys_config example_raw_full = Ok a /\
    dict_get (items a) "calibration" = Some (VEnum "counts" 4) /\
    dict_get (snd (DataID_reduce a)) "calibration" = Some (VStr "counts") /\
    DataID_unpickle (fst (DataID_reduce a)) (snd (DataID_reduce a)) = Ok a' /\
    DataID_eq a' a = true /\
    items a' = items a.
Proof.
  eexists. eexists. repeat split.
Qed.

(** ** Best-match ranking: penalties and order *)

Lemma dist_le_iff (d e : dist) :
  dist_le d e <->
  match d, e with
  | Fin a, Fin b => a <= b
  | _, Inf => True
  | Inf, Fin _ => False
  end.
Proof.
  unfold dist_le. destruct d as [a |], e as [b |]; simpl.
  - apply Qlt_bool_false_iff.
  - tauto.
  - split; [discriminate | tauto].
  - tauto.
Qed.

Lemma dist_lt_iff (d e : dist) :
  dist_lt d e <->
  match d, e with
  | Fin a, Fin b => a < b
  | Fin _, Inf => True
  | Inf, _ => False
  end.
Proof.
  unfold dist_lt. destruct d as [a |], e as [b |]; simpl.
  - apply Qlt_bool_iff.
  - tauto.
  - split; [discriminate | tauto].
  - split; [discriminate | tauto].
Qed.

Lemma dist_le_refl (d : dist) : dist_le d d.
Proof. apply dist_le_iff. destruct d; [apply Qle_refl | exact I]. Qed.

Lemma dist_le_trans (a b c : dist) : dist_le a b -> dist_le b c -> dist_le a c.
Proof.
  rewrite !dist_le_iff. destruct a, b, c; try tauto. apply Qle_trans.
Qed.

Lemma dist_eqb_le (d e : dist) : dist_eqb d e = true -> dist_le d e /\ dist_le e d.
Proof.
  rewrite !dist_le_iff. destruct d as [a |], e as [b |]; simpl; try discriminate; try tauto.
  intro H. apply Qeq_bool_iff in H. split; rewrite H; apply Qle_refl.
Qed.

Lemma dist_ltb_le (d e : dist) : dist_ltb d e = true -> dist_le d e.
Proof.
  intro H. apply dist_le_iff. apply dist_lt_iff in H.
  destruct d, e; try tauto. apply Qlt_le_weak. exact H.
Qed.

Lemma dist_lt_not_le (d e : dist) : dist_lt d e -> ~ dist_le e d.
Proof. unfold dist_lt, dist_le. congruence. Qed.

Lemma dist_add_nonneg (acc : dist) (n : Q) :
  dist_le (Fin 0) acc -> 0 <= n -> dist_le (Fin 0) (dist_add acc n).
Proof.
  rewrite !dist_le_iff. destruct acc as [a |]; simpl; [| tauto]. intros. lra.
Qed.

Lemma dist_add_big (acc : dist) :
  dist_le (Fin 0) acc -> dist_le (Fin big_distance) (dist_add acc big_distance).
Proof.
  rewrite !dist_le_iff. destruct acc as [a |]; simpl; [| tauto]. intros. lra.
Qed.

Lemma dist_plus_nonneg (acc d : dist) :
  dist_le (Fin 0) acc -> dist_le (Fin 0) d -> dist_le (Fin 0) (dist_plus acc d).
Proof.
  intros Ha Hd. destruct d as [x |]; simpl.
  - apply dist_add_nonneg; [exact Ha |]. apply dist_le_iff in Hd. exact Hd.
  - apply dist_le_iff. destruct acc; exact I.
Qed.

Lemma dist_big_le_inf : dist_le (Fin big_distance) Inf.
Proof. apply dist_le_iff. exact I. Qed.

(** [distance] never raises and is never negative. *)
Lemma WavelengthRange_distance_total (w : WavelengthRange) (v : value) :
  exists x, WavelengthRange_distance w v = Ok x /\ dist_le (Fin 0) x.
Proof.
  destruct (py_eq (VWl w) v) eqn:E.
  - destruct (WavelengthRange_distance_equal w v E) as [c [_ Hd]].
    eexists. split; [exact Hd |].
    apply dist_le_iff. apply Qabs_nonneg.
  - exists Inf. split.
    + unfold WavelengthRange_distance. rewrite E. reflexivity.
    + apply dist_le_iff. exact I.
Qed.

Lemma unconstrained_step_nonneg (got : option value) (acc : dist) :
  (forall v n, got = Some v -> as_number v = Some n -> 0 <= n) ->
  dist_le (Fin 0) acc ->
  dist_le (Fin 0) (unconstrained_step got acc).
Proof.
  intros Hn Ha. destruct got as [v |]; simpl; [| exact Ha].
  destruct v as [| n | s | name o | w | l | l | l]; simpl; try exact Ha;
    apply dist_add_nonneg; try exact Ha;
    try (apply (Hn _ _ eq_refl eq_refl));
    change 0 with (inject_Z 0); rewrite <- Zle_Qle; lia.
Qed.

(** What one pass of the loop can do to a distance that is not negative. *)
Lemma key_step_bound (q : DataQuery) (d : DataID) (key : string) (acc : dist) (s : step) :
  nonneg_values d ->
  dist_le (Fin 0) acc ->
  key_step q d key acc = Ok s ->
  match s with
  | Continue acc' => dist_le (Fin 0) acc'
  | Break b => dist_le (Fin big_distance) b
  end.
Proof.
  intros Hn Ha. unfold key_step.
  destruct (py_eq (dict_get_default (_dict q) key wildcard) wildcard).
  - intro H. inversion H; subst s. apply unconstrained_step_nonneg; [| exact Ha].
    intros v n G. apply (Hn key v n G).
  - unfold constrained_step.
    destruct (dict_get (items d) key) as [v |] eqn:G.
    + assert (Other :
          (if negb (py_in v (as_list (dict_get_default (_dict q) key wildcard)))
           then Ok (Break Inf)
           else match as_number v with
                | Some n => Ok (Continue (dist_add acc n))
                | None => Ok (Continue acc)
                end) = Ok s ->
          match s with
          | Continue acc' => dist_le (Fin 0) acc'
          | Break b => dist_le (Fin big_distance) b
          end).
      { destruct (negb (py_in v (as_list (dict_get_default (_dict q) key wildcard)))).
        - intro H. inversion H; subst s. apply dist_big_le_inf.
        - destruct (as_number v) as [n |] eqn:An; intro H; inversion H; subst s.
          + apply dist_add_nonneg; [exact Ha | exact (Hn key v n G An)].
          + exact Ha. }
      destruct v as [| n | s0 | name o | w | l | l | l]; try exact Other.
      destruct (WavelengthRange_distance_total w (dict_get_default (_dict q) key wildcard))
        as [x [Hx Hp]].
      rewrite Hx. simpl. intro H. inversion H; subst s.
      apply dist_plus_nonneg; assumption.
    + intro H. inversion H; subst s. apply dist_add_big. exact Ha.
Qed.

(** A key at which the candidate is infeasible ends the loop. *)
Lemma key_step_missing (q : DataQuery) (d : DataID) (key : string) (val : value)
  (acc : dist) :
  constrains q key val ->
  dict_get (items d) key = None ->
  key_step q d key acc = Ok (Break (dist_add acc big_distance)).
Proof.
  intros [G W] N. unfold key_step, dict_get_default. rewrite G, W.
  unfold constrained_step. rewrite N. reflexivity.
Qed.

Lemma key_step_not_allowed (q : DataQuery) (d : DataID) (key : string) (val v : value)
  (acc : dist) :
  constrains q key val ->
  dict_get (items d) key = Some v ->
  has_distance v = false ->
  py_in v (as_list val) = false ->
  key_step q d key acc = Ok (Break Inf).
Proof.
  intros [G W] Gv Hd Pi. unfold key_step, dict_get_default. rewrite G, W.
  unfold constrained_step. rewrite Gv, Pi.
  destruct v; try reflexivity. discriminate Hd.
Qed.

(** The loop leaves by [break] with infinity, or at a constrained field the
    candidate lacks. *)
Lemma key_step_break (q : DataQuery) (d : DataID) (key : string) (acc b : dist) :
  key_step q d key acc = Ok (Break b) ->
  b = Inf \/ lacks_constrained_field q d.
Proof.
  unfold key_step.
  destruct (py_eq (dict_get_default (_dict q) key wildcard) wildcard) eqn:W;
    [discriminate |].
  unfold constrained_step. destruct (dict_get (items d) key) as [v |] eqn:G.
  - assert (Other :
        (if negb (py_in v (as_list (dict_get_default (_dict q) key wildcard)))
         then Ok (Break Inf)
         else match as_number v with
              | Some n => Ok (Continue (dist_add acc n))
              | None => Ok (Continue acc)
              end) = Ok (Break b) -> b = Inf \/ lacks_constrained_field q d).
    { destruct (negb (py_in v (as_list (dict_get_default (_dict q) key wildcard)))).
      - intro H. inversion H. left. reflexivity.
      - destruct (as_number v); discriminate. }
    destruct v as [| n | s0 | name o | w | l | l | l]; try exact Other.
    destruct (WavelengthRange_distance w (dict_get_default (_dict q) key wildcard));
      discriminate.
  - intros _. right. unfold dict_get_default in W.
    destruct (dict_get (_dict q) key) as [val |] eqn:Gq; [| discriminate W].
    exists key, val. split; [split; assumption | exact G].
Qed.

(** The distance of a candidate is always defined. *)
Lemma key_step_total (q : DataQuery) (d : DataID) (key : string) (acc : dist) :
  exists s, key_step q d key acc = Ok s.
Proof.
  unfold key_step.
  destruct (py_eq (dict_get_default (_dict q) key wildcard) wildcard);
    [eexists; reflexivity |].
  unfold constrained_step.
  destruct (dict_get (items d) key) as [v |]; [| eexists; reflexivity].
  assert (Other :
      exists s,
        (if negb (py_in v (as_list (dict_get_default (_dict q) key wildcard)))
         then Ok (Break Inf)
         else match as_number v with
              | Some n => Ok (Continue (dist_add acc n))
              | None => Ok (Continue acc)
              end) = Ok s).
  { destruct (negb (py_in v (as_list (dict_get_default (_dict q) key wildcard))));
      [| destruct (as_number v)]; eexists; reflexivity. }
  destruct v as [| n | s0 | name o | w | l | l | l]; try exact Other.
  destruct (WavelengthRange_distance_total w (dict_get_default (_dict q) key wildcard))
    as [x [Hx _]].
  rewrite Hx. eexists. reflexivity.
Qed.

Lemma key_loop_total (q : DataQuery) (d : DataID) (keys : list string) :
  forall acc, exists x, key_loop q d keys acc = Ok x.
Proof.
  induction keys as [| key rest IH]; intro acc; simpl.
  - eexists. reflexivity.
  - destruct (key_step_total q d key acc) as [s Hs]. rewrite Hs. simpl.
    destruct s as [acc' | b]; [apply IH | eexists; reflexivity].
Qed.

Lemma key_loop_penalty (q : DataQuery) (d : DataID) (keys : list string) :
  nonneg_values d ->
  forall (acc x : dist),
    dist_le (Fin 0) acc ->
    key_loop q d keys acc = Ok x ->
    (exists key val, In key keys /\ constrains q key val /\
                     dict_get (items d) key = None) ->
    dist_le (Fin big_distance) x.
Proof.
  intro Hn. induction keys as [| key rest IH]; intros acc x Ha H [k [val [I [C N]]]].
  - destruct I.
  - simpl in H. destruct (key_step q d key acc) as [s |] eqn:S; [| discriminate H].
    pose proof (@key_step_bound q d key acc s Hn Ha S) as B. simpl in H.
    destruct s as [acc' | b].
    + destruct I as [E | I].
      * subst k. rewrite (@key_step_missing q d key val acc C N) in S. discriminate S.
      * apply (IH acc' x B H). exists k, val. split; [exact I | split; [exact C | exact N]].
    + inversion H; subst x. exact B.
Qed.

Lemma key_loop_not_allowed (q : DataQuery) (d : DataID) (keys : list string) :
  ~ lacks_constrained_field q d ->
  forall (acc x : dist),
    key_loop q d keys acc = Ok x ->
    (exists key val v, In key keys /\ constrains q key val /\
                       dict_get (items d) key = Some v /\
                       has_distance v = false /\ py_in v (as_list val) = false) ->
    x = Inf.
Proof.
  intro Nl. induction keys as [| key rest IH];
    intros acc x H [k [val [v [I [C [G [Hd Pi]]]]]]].
  - destruct I.
  - simpl in H. destruct (key_step q d key acc) as [s |] eqn:S; [| discriminate H].
    simpl in H. destruct s as [acc' | b].
    + destruct I as [E | I].
      * subst k. rewrite (@key_step_not_allowed q d key val v acc C G Hd Pi) in S. discriminate S.
      * apply (IH acc' x H). exists k, val, v.
        split; [exact I | split; [exact C | split; [exact G | split; assumption]]].
    + inversion H; subst x. destruct (@key_step_break q d key acc b S) as [E | L];
        [exact E | contradiction].
Qed.

Section SortedFacts.
Variable A : Type.
Variable lt : A -> A -> result bool.

Lemma insert_sorted_perm (x : A) (l : list A) :
  forall r, insert_sorted lt x l = Ok r -> Permutation r (x :: l).
Proof.
  induction l as [| y l IH]; intros r H; simpl in H.
  - inversion H; subst. apply Permutation_refl.
  - destruct (lt y x) as [[|] |]; simpl in H; try discriminate H.
    + destruct (insert_sorted lt x l) as [r' |]; [| discriminate H].
      simpl in H. inversion H; subst r.
      apply perm_trans with (y :: x :: l); [| apply perm_swap].
      apply perm_skip. apply IH. reflexivity.
    + inversion H; subst. apply Permutation_refl.
Qed.

Lemma py_sorted_perm (l : list A) :
  forall r, py_sorted lt l = Ok r -> Permutation r l.
Proof.
  induction l as [| x l IH]; intros r H; simpl in H.
  - inversion H; subst. apply perm_nil.
  - destruct (py_sorted lt l) as [r' |]; [| discriminate H]. simpl in H.
    apply perm_trans with (x :: r'); [apply insert_sorted_perm; exact H |].
    apply perm_skip. apply IH. reflexivity.
Qed.

Variable R : A -> A -> Prop.
Hypothesis R_trans : forall a b c, R a b -> R b c -> R a c.
Hypothesis lt_true : forall y x, lt y x = Ok true -> R y x.
Hypothesis lt_false : forall y x, lt y x = Ok false -> R x y.

Lemma insert_sorted_sorted (x : A) (l : list A) :
  StronglySorted R l ->
  forall r, insert_sorted lt x l = Ok r -> StronglySorted R r.
Proof.
  induction l as [| y l IH]; intros Hs r H; simpl in H.
  - inversion H; subst. constructor; constructor.
  - inversion Hs as [| ? ? Hs' Hy]; subst.
    destruct (lt y x) as [[|] |] eqn:L; simpl in H; try discriminate H.
    + destruct (insert_sorted lt x l) as [r' |] eqn:I; [| discriminate H].
      simpl in H. inversion H; subst r. constructor.
      * apply IH; [exact Hs' | reflexivity].
      * apply (Permutation_Forall (Permutation_sym (insert_sorted_perm x l I))).
        constructor; [apply lt_true; exact L | exact Hy].
    + inversion H; subst r. constructor; [exact Hs |].
      constructor; [apply lt_false; exact L |].
      apply (Forall_impl (R x) (fun z Hz => R_trans (lt_false L) Hz) Hy).
Qed.

Lemma py_sorted_sorted (l : list A) :
  forall r, py_sorted lt l = Ok r -> StronglySorted R r.
Proof.
  induction l as [| x l IH]; intros r H; simpl in H.
  - inversion H; subst. constructor.
  - destruct (py_sorted lt l) as [r' |]; [| discriminate H]. simpl in H.
    apply (insert_sorted_sorted x (IH r' eq_refl) H).
Qed.

Lemma strongly_sorted_nth (l : list A) :
  StronglySorted R l ->
  forall i j a b,
    (i < j)%nat -> nth_error l i = Some a -> nth_error l j = Some b -> R a b.
Proof.
  induction 1 as [| a0 l Hs IH Hf]; intros i j a b Lt Hi Hj.
  - destruct i; discriminate Hi.
  - destruct j as [| j]; [lia |]. simpl in Hj. destruct i as [| i]; simpl in Hi.
    + inversion Hi; subst a0. rewrite Forall_forall in Hf. apply Hf.
      apply (nth_error_In l j Hj).
    + apply (IH i j a b); [lia | exact Hi | exact Hj].
Qed.
End SortedFacts.

Lemma pair_lt_true (y x : dist * DataID) :
  pair_lt y x = Ok true -> dist_le (fst y) (fst x).
Proof.
  unfold pair_lt. destruct (dist_eqb (fst y) (fst x)) eqn:E.
  - intros _. apply (dist_eqb_le _ _ E).
  - intro H. inversion H as [L]. apply dist_ltb_le. exact L.
Qed.

Lemma pair_lt_false (y x : dist * DataID) :
  pair_lt y x = Ok false -> dist_le (fst x) (fst y).
Proof.
  unfold pair_lt. destruct (dist_eqb (fst y) (fst x)) eqn:E.
  - intros _. apply (dist_eqb_le _ _ E).
  - intro H. inversion H as [L]. exact L.
Qed.

Lemma distances_of_spec (q : DataQuery) (keys : list string) (ids : list DataID) :
  forall ds,
    distances_of q keys ids = Ok ds ->
    Forall2 (fun d x => candidate_distance q keys d = Ok x) ids ds.
Proof.
  induction ids as [| d ids IH]; intros ds H; simpl in H.
  - inversion H; subst. constructor.
  - destruct (candidate_distance q keys d) as [x |] eqn:C; [| discriminate H].
    simpl in H. destruct (distances_of q keys ids) as [r |]; [| discriminate H].
    simpl in H. inversion H; subst ds. constructor; [exact C | apply IH; reflexivity].
Qed.

Lemma combine_forall2 (q : DataQuery) (keys : list string)
  (ids : list DataID) (ds : list dist) :
  Forall2 (fun d x => candidate_distance q keys d = Ok x) ids ds ->
  map snd (combine ds ids) = ids /\
  Forall (fun p => candidate_distance q keys (snd p) = Ok (fst p)) (combine ds ids).
Proof.
  induction 1 as [| d x ids ds H F [IH1 IH2]]; simpl.
  - split; constructor.
  - split; [now rewrite IH1 | constructor; assumption].
Qed.

Lemma forall_pairs_forall2 (q : DataQuery) (keys : list string)
  (pairs : list (dist * DataID)) :
  Forall (fun p => candidate_distance q keys (snd p) = Ok (fst p)) pairs ->
  Forall2 (fun d x => candidate_distance q keys d = Ok x) (map snd pairs) (map fst pairs).
Proof.
  induction 1; simpl; constructor; assumption.
Qed.

(** What [sort_dataids] returns, in terms of the sorted list of pairs. *)
Lemma sort_dataids_pairs (iter : list string -> list string) (q : DataQuery)
  (dataids out_ids : list DataID) (out_dists : list dist) :
  sort_dataids iter q dataids = Ok (out_ids, out_dists) ->
  exists pairs,
    out_ids = map snd pairs /\ out_dists = map fst pairs /\
    Permutation (map snd pairs) dataids /\
    Forall (fun p => candidate_distance q (iter (union_keys q dataids)) (snd p)
                     = Ok (fst p)) pairs /\
    StronglySorted (fun p p' => dist_le (fst p) (fst p')) pairs.
Proof.
  unfold sort_dataids. intro H.
  destruct (py_sorted DataID_lt dataids) as [sorted |] eqn:S1; [| discriminate H].
  simpl in H.
  destruct (distances_of q (iter (union_keys q dataids)) sorted) as [ds |] eqn:D;
    [| discriminate H].
  simpl in H.
  destruct (py_sorted pair_lt (combine ds sorted)) as [pairs |] eqn:S2; [| discriminate H].
  simpl in H.
  assert (E : (map snd pairs, map fst pairs) = (out_ids, out_dists)).
  { destruct pairs; [discriminate H | inversion H; reflexivity]. }
  inversion E; subst out_ids out_dists. clear H E.
  destruct (@combine_forall2 q _ sorted ds (@distances_of_spec q _ sorted ds D)) as [C1 C2].
  pose proof (@py_sorted_perm _ pair_lt _ pairs S2) as P2.
  exists pairs. split; [reflexivity | split; [reflexivity | split; [| split]]].
  - apply perm_trans with sorted; [| apply (@py_sorted_perm _ DataID_lt dataids sorted S1)].
    rewrite <- C1. apply Permutation_map. exact P2.
  - apply (Permutation_Forall (Permutation_sym P2)). exact C2.
  - apply (@py_sorted_sorted _ pair_lt (fun p p' => dist_le (fst p) (fst p')))
      with (l := combine ds sorted).
    + intros a b c. apply dist_le_trans.
    + apply pair_lt_true.
    + apply pair_lt_false.
    + exact S2.
Qed.

Lemma constrained_key_in_union (iter : list string -> list string) (q : DataQuery)
  (dataids : list DataID) (key : string) (val : value) :
  (forall l x, In x (iter l) <-> In x l) ->
  constrains q key val ->
  In key (iter (union_keys q dataids)).
Proof.
  intros Hiter [G _]. apply Hiter. unfold union_keys. apply nodup_In.
  apply in_or_app. left. unfold dict_keys.
  apply (in_map fst _ _ (dict_get_In _ _ G)).
Qed.

Lemma nth_error_map_fst (pairs : list (dist * DataID)) (i : nat) (x : dist) :
  nth_error (map fst pairs) i = Some x ->
  exists p, nth_error pairs i = Some p /\ fst p = x.
Proof.
  revert i. induction pairs as [| p pairs IH]; intros [| i] H; simpl in H;
    try discriminate H.
  - inversion H. exists p. split; reflexivity.
  - apply IH. exact H.
Qed.

(** No item of the list equals the value. *)
Lemma py_in_false (v : value) (l : list value) :
  py_in v l = false <-> forall e, In e l -> py_eq e v = false.
Proof.
  unfold py_in. induction l as [| x l IH]; simpl.
  - split; [intros _ e [] | reflexivity].
  - rewrite orb_false_iff, IH. split.
    + intros [Hx Hl] e [E | I]; [subst e; exact Hx | apply Hl; exact I].
    + intro H. split; [apply H; left; reflexivity |].
      intros e I. apply H. right. exact I.
Qed.

(** The allowed values are the left operands: a range among them takes a
    member for the number of its ordinal, while a member among them
    compares its name. *)
Example allowed_value_item_on_the_left :
  py_in (VEnum "counts" 4) [VWl (mkWl 1 2 5 "µm")] = true /\
  py_in (VWl (mkWl 1 2 5 "µm")) [VEnum "counts" 4] = false /\
  candidate_distance (mkQuery [("calibration"%string, VWl (mkWl 1 2 5 "µm"))])
    ["calibration"%string]
    (mkDataID None [] [] [("calibration"%string, VEnum "counts" 4)])
  = Ok (Fin 4).
Proof. repeat split. Qed.

(** The loop over all keys goes on from where it stands after the first
    ones. *)
Lemma key_loop_state_app (q : DataQuery) (d : DataID) (pre rest : list string) :
  forall acc,
    key_loop q d (pre ++ rest) acc
    = (s <- key_loop_state q d pre acc ;;
       match s with
       | Continue a => key_loop q d rest a
       | Break b => Ok b
       end).
Proof.
  induction pre as [| key pre IH]; intro acc; simpl; [reflexivity |].
  destruct (key_step q d key acc) as [[a | b] | e]; simpl; [apply IH | reflexivity ..].
Qed.

(** C1 (amended). [sort_dataids] returns the candidates with their
    distances, in ascending order of distance, so that a candidate ranks
    after every candidate with a strictly smaller distance. When the loop
    over the keys reaches, without an earlier [break], a field that the
    query constrains and the candidate lacks, the candidate's distance is
    what it has accumulated so far plus 100000 (infinity staying infinity);
    it is then at least 100000 when the candidate's numeric values are not
    negative. A candidate that has every constrained field and whose value
    fails the allowed-value check receives +infinity. The penalty of 100000
    does not place a candidate behind every feasible one. *)
Theorem C1_ranking (iter : list string -> list string) (q : DataQuery)
  (dataids out_ids : list DataID) (out_dists : list dist) :
  (forall l x, In x (iter l) <-> In x l) ->
  sort_dataids iter q dataids = Ok (out_ids, out_dists) ->
  Permutation out_ids dataids /\
  Forall2 (fun d x => candidate_distance q (iter (union_keys q dataids)) d = Ok x)
    out_ids out_dists /\
  (forall i j x y,
      (i < j)%nat ->
      nth_error out_dists i = Some x -> nth_error out_dists j = Some y ->
      dist_le x y) /\
  (forall i j x y,
      nth_error out_dists i = Some x -> nth_error out_dists j = Some y ->
      dist_lt x y ->
      (i < j)%nat) /\
  (forall d pre key post val acc,
      iter (union_keys q dataids) = pre ++ key :: post ->
      key_loop_state q d pre (Fin 0) = Ok (Continue acc) ->
      constrains q key val ->
      dict_get (items d) key = None ->
      candidate_distance q (iter (union_keys q dataids)) d
      = Ok match acc with
           | Fin a => Fin (a + 100000)
           | Inf => Inf
           end) /\
  (forall d x,
      lacks_constrained_field q d ->
      nonneg_values d ->
      candidate_distance q (iter (union_keys q dataids)) d = Ok x ->
      dist_le (Fin 100000) x) /\
  (forall d x,
      fails_allowed_value q d ->
      ~ lacks_constrained_field q d ->
      candidate_distance q (iter (union_keys q dataids)) d = Ok x ->
      x = Inf) /\
  (forall d, exists x, candidate_distance q (iter (union_keys q dataids)) d = Ok x).
Proof.
  intros Hiter Hsort.
  destruct (sort_dataids_pairs iter q dataids Hsort)
    as [pairs [Eids [Edists [Hperm [Hall Hsorted]]]]].
  subst out_ids out_dists.
  assert (Asc : forall i j x y,
             (i < j)%nat ->
             nth_error (map fst pairs) i = Some x ->
             nth_error (map fst pairs) j = Some y ->
             dist_le x y).
  { intros i j x y Lt Hi Hj.
    destruct (nth_error_map_fst pairs i Hi) as [p [Hp Ep]].
    destruct (nth_error_map_fst pairs j Hj) as [p' [Hp' Ep']].
    subst x y.
    apply (@strongly_sorted_nth _ (fun p p' => dist_le (fst p) (fst p')) pairs Hsorted
             i j p p' Lt Hp Hp'). }
  split; [exact Hperm |].
  split; [apply forall_pairs_forall2; exact Hall |].
  split; [exact Asc |].
  split; [| split; [| split; [| split]]].
  - intros i j x y Hi Hj Lt.
    destruct (Nat.lt_trichotomy i j) as [L | [E | L]]; [exact L | |].
    + subst j. rewrite Hi in Hj. inversion Hj; subst y.
      exfalso. apply (dist_lt_not_le Lt). apply dist_le_refl.
    + exfalso. apply (dist_lt_not_le Lt). apply (Asc j i y x L Hj Hi).
  - intros d pre key post val acc Ek Hs C N.
    unfold candidate_distance. rewrite Ek, key_loop_state_app, Hs. simpl.
    rewrite (@key_step_missing q d key val acc C N). simpl.
    destruct acc; reflexivity.
  - intros d x [key [val [C N]]] Hn Hc.
    apply (@key_loop_penalty q d (iter (union_keys q dataids)) Hn (Fin 0) x).
    + apply dist_le_refl.
    + exact Hc.
    + exists key, val. split; [| split; assumption].
      apply (constrained_key_in_union iter dataids Hiter C).
  - intros d x [key [val [v [C [G [Hd Pi]]]]]] Nl Hc.
    apply (@key_loop_not_allowed q d (iter (union_keys q dataids)) Nl (Fin 0) x Hc).
    exists key, val, v.
    split; [apply (constrained_key_in_union iter dataids Hiter C) |].
    split; [exact C | split; [exact G | split; [exact Hd |]]].
    apply py_in_false. exact Pi.
  - intro d. apply key_loop_total.
Qed.

(** With the keys taken in the order modifiers, resolution, name,
    calibration, the candidate without calibration has 1000 from its
    resolution when the loop reaches the calibration, and ends at 101000. *)
Lemma C1_ranking_witness :
  sort_dataids (@rev string) example_query_counts [example_id_coarse; example_id_uncalibrated]
    = Ok ([example_id_uncalibrated; example_id_coarse], [Fin 101000; Fin 200004]) /\
  candidate_distance example_query_counts
    ["modifiers"; "resolution"; "name"; "calibration"]%string example_id_uncalibrated
    = Ok (Fin (1000 + 100000)).
Proof.
  split; [vm_compute; reflexivity |].
  destruct (C1_ranking (@rev string) example_query_counts
              [example_id_coarse; example_id_uncalibrated]
              (out_ids := [example_id_uncalibrated; example_id_coarse])
              (out_dists := [Fin 101000; Fin 200004]))
    as [_ [_ [_ [_ [Penalty _]]]]].
  - intros l x. symmetry. apply in_rev.
  - vm_compute. reflexivity.
  - apply (Penalty example_id_uncalibrated ["modifiers"; "resolution"; "name"]%string
             "calibration"%string [] (VStr "counts") (Fin 1000)).
    + vm_compute. reflexivity.
    + vm_compute. reflexivity.
    + split; reflexivity.
    + reflexivity.
Defined.

(** C1, as stated, fails: the candidate without calibration lacks a field
    the query constrains, the candidate at 200 km resolution is feasible,
    and the former is ranked first. *)
Lemma C1_counterexample :
  infeasible example_query_counts example_id_uncalibrated /\
  ~ infeasible example_query_counts example_id_coarse /\
  sort_dataids (fun l => l) example_query_counts [example_id_coarse; example_id_uncalibrated]
    = Ok ([example_id_uncalibrated; example_id_coarse], [Fin 100000; Fin 200004]) /\
  dist_lt (Fin 100000) (Fin 200004).
Proof.
  split; [| split; [| split]].
  - left. exists "calibration"%string, (VStr "counts"). repeat split.
  - assert (K : forall key val,
               constrains example_query_counts key val ->
               (key = "name"%string /\ val = VStr "ch1") \/
               (key = "calibration"%string /\ val = VStr "counts")).
    { intros key val [G _]. unfold example_query_counts in G. cbn [_dict dict_get] in G.
      destruct (String.eqb "name" key) eqn:E1.
      - apply String.eqb_eq in E1. inversion G. left. split; congruence.
      - destruct (String.eqb "calibration" key) eqn:E2; [| discriminate G].
        apply String.eqb_eq in E2. inversion G. right. split; congruence. }
    intros [[key [val [C N]]] | [key [val [v [C [G [Hd Pi]]]]]]].
    + destruct (K key val C) as [[Ek Ev] | [Ek Ev]]; subst key val; discriminate N.
    + destruct (K key val C) as [[Ek Ev] | [Ek Ev]]; subst key val;
        vm_compute in G; inversion G; subst v.
      * specialize (Pi (VStr "ch1") (or_introl eq_refl)). vm_compute in Pi. discriminate Pi.
      * specialize (Pi (VStr "counts") (or_introl eq_refl)). vm_compute in Pi.
        discriminate Pi.
  - vm_compute. reflexivity.
  - reflexivity.
Qed.

(** * Further properties *)

Unset Implicit Arguments.

(** ** Equality of values *)

Lemma atom_eq_refl (a : atom) : atom_eq a a = true.
Proof. destruct a; simpl; [apply Qeq_bool_refl | apply String.eqb_refl]. Qed.

Lemma tuple_eq_refl (l : list atom) : tuple_eq l l = true.
Proof. induction l as [| a l IH]; simpl; [reflexivity | now rewrite atom_eq_refl, IH]. Qed.

Lemma py_eq_refl (v : value) : py_eq v v = true.
Proof.
  destruct v as [| n | s | name o | w | l | l | l]; unfold py_eq; simpl.
  - reflexivity.
  - apply Qeq_bool_refl.
  - apply String.eqb_refl.
  - apply String.eqb_refl.
  - apply (tuple_eq_refl (wl_astuple w)).
  - apply tuple_eq_refl.
  - apply tuple_eq_refl.
  - apply tuple_eq_refl.
Qed.

Lemma atom_eq_hash (hash_str : string -> Z) (hash_num : Q -> Z) (a b : atom) :
  atom_eq a b = true -> hash_atom hash_str hash_num a = hash_atom hash_str hash_num b.
Proof.
  destruct a as [x | s], b as [y | t]; simpl; try discriminate.
  - intro H. apply Qeq_bool_iff in H. rewrite (Qred_complete x y H). reflexivity.
  - intro H. apply String.eqb_eq in H. subst t. reflexivity.
Qed.

Lemma tuple_eq_hash (hash_str : string -> Z) (hash_num : Q -> Z) (l l' : list atom) :
  tuple_eq l l' = true ->
  map (hash_atom hash_str hash_num) l = map (hash_atom hash_str hash_num) l'.
Proof.
  revert l'. induction l as [| a l IH]; intros [| b l'] H; simpl in H; try discriminate.
  - reflexivity.
  - apply andb_true_iff in H. destruct H as [Ha Hl]. simpl.
    rewrite (atom_eq_hash hash_str hash_num a b Ha), (IH l' Hl). reflexivity.
Qed.

(** ** WavelengthRange: containment *)

(** Containment of ranges: every range contains itself, containment is
    transitive and carries over to the numbers a range contains, and ranges
    in different units cannot be compared. *)
Theorem wavelength_contains_order (a b c : WavelengthRange) :
  WavelengthRange_contains a (VWl a) = Ok true /\
  (WavelengthRange_contains c (VWl b) = Ok true ->
   WavelengthRange_contains b (VWl a) = Ok true ->
   WavelengthRange_contains c (VWl a) = Ok true) /\
  (forall n : Q,
      WavelengthRange_contains b (VWl a) = Ok true ->
      WavelengthRange_contains a (VNum n) = Ok true ->
      WavelengthRange_contains b (VNum n) = Ok true) /\
  (wl_unit a <> wl_unit b ->
   WavelengthRange_contains a (VWl b)
   = Raise (NotImplementedError "Can't compare wavelength ranges with different units.")).
Proof.
  assert (Dec : forall x y : WavelengthRange,
             WavelengthRange_contains x (VWl y) = Ok true ->
             wl_unit x = wl_unit y /\ wl_min x <= wl_min y /\ wl_max y <= wl_max x).
  { intros x y H. unfold WavelengthRange_contains in H.
    destruct (String.eqb (wl_unit x) (wl_unit y)) eqn:U; simpl in H; [| discriminate H].
    apply String.eqb_eq in U.
    assert (H' : (Qle_bool (wl_min x) (wl_min y) && Qle_bool (wl_max y) (wl_max x)) = true)
      by congruence.
    apply andb_true_iff in H'. rewrite !Qle_bool_iff in H'. tauto. }
  assert (Mk : forall x y : WavelengthRange,
             wl_unit x = wl_unit y -> wl_min x <= wl_min y -> wl_max y <= wl_max x ->
             WavelengthRange_contains x (VWl y) = Ok true).
  { intros x y U L1 L2. unfold WavelengthRange_contains.
    rewrite U, String.eqb_refl. simpl. f_equal.
    apply andb_true_iff. rewrite !Qle_bool_iff. tauto. }
  split; [| split; [| split]].
  - apply Mk; [reflexivity | apply Qle_refl | apply Qle_refl].
  - intros Hcb Hba. destruct (Dec c b Hcb) as [U1 [L1 M1]].
    destruct (Dec b a Hba) as [U2 [L2 M2]].
    apply Mk; [congruence | eapply Qle_trans; eassumption | eapply Qle_trans; eassumption].
  - intros n Hba Hn. destruct (Dec b a Hba) as [_ [L M]].
    simpl in Hn |- *.
    assert (Hn' : wl_contains_number a n = true) by congruence. clear Hn. f_equal.
    apply wl_contains_number_iff in Hn'. apply wl_contains_number_iff.
    destruct Hn' as [N1 N2]. split; eapply Qle_trans; eassumption.
  - intro U. unfold WavelengthRange_contains.
    apply String.eqb_neq in U. rewrite U. reflexivity.
Qed.

Lemma wavelength_contains_order_witness :
  WavelengthRange_contains (mkWl 0 5 10 "µm") (VWl (mkWl 1 2 3 "µm")) = Ok true /\
  WavelengthRange_contains (mkWl 1 2 3 "µm") (VNum 2) = Ok true /\
  WavelengthRange_contains (mkWl 0 5 10 "µm") (VNum 2) = Ok true.
Proof.
  split; [reflexivity | split; [reflexivity |]].
  apply (wavelength_contains_order (mkWl 1 2 3 "µm") (mkWl 0 5 10 "µm") (mkWl 0 5 10 "µm"));
    reflexivity.
Defined.

(** ** ValueList and ModifierTuple: equality and hash *)

(** With a ValueList member as the left operand, [==] holds exactly for the
    strings and the members that carry its name, so never for a number, a
    tuple or [None], and what it is equal to has its hash. A string as the
    left operand is compared in the same way. A WavelengthRange as the left
    operand takes the member for the number of its ordinal: it equals the
    member exactly when the ordinal lies within its bounds, whatever the
    name and the hashes are. *)
Theorem valuelist_eq_by_name
  (hash_str : string -> Z) (hash_num : Q -> Z) (hash_none : Z) (hash_tuple : list Z -> Z)
  (name : string) (o : Z) :
  (forall v, py_eq (VEnum name o) v = true <->
             v = VStr name \/ exists o', v = VEnum name o') /\
  (forall s, py_eq (VStr s) (VEnum name o) = true <-> s = name) /\
  (forall v, py_eq (VEnum name o) v = true ->
             hash_value hash_str hash_num hash_none hash_tuple (VEnum name o)
             = hash_value hash_str hash_num hash_none hash_tuple v) /\
  (forall w, py_eq (VWl w) (VEnum name o) = true <->
             wl_min w <= inject_Z o /\ inject_Z o <= wl_max w) /\
  (forall w, py_eq (VEnum name o) (VWl w) = false).
Proof.
  assert (L : forall v, py_eq (VEnum name o) v = true ->
                        v = VStr name \/ exists o', v = VEnum name o').
  { intros v H. destruct v as [| n | s | m o' | w | l | l | l];
      unfold py_eq in H; simpl in H; try discriminate H.
    - apply String.eqb_eq in H. subst s. left. reflexivity.
    - apply String.eqb_eq in H. subst m. right. exists o'. reflexivity. }
  split; [| split; [| split; [| split]]].
  - intro v. split; [apply L |].
    intros [E | [o' E]]; subst v; unfold py_eq; simpl; apply String.eqb_refl.
  - intro s. unfold py_eq. simpl. rewrite String.eqb_eq. split; congruence.
  - intros v H. destruct (L v H) as [E | [o' E]]; subst v; reflexivity.
  - intro w. unfold py_eq. simpl. apply wl_contains_number_iff.
  - intro w. reflexivity.
Qed.

Lemma valuelist_eq_by_name_witness :
  py_eq (VEnum "counts" 4) (VStr "counts") = true /\
  hash_value example_hash_str example_hash_num 0%Z example_hash_tuple (VEnum "counts" 4)
  = hash_value example_hash_str example_hash_num 0%Z example_hash_tuple (VStr "counts").
Proof.
  split; [reflexivity |].
  apply (valuelist_eq_by_name example_hash_str example_hash_num 0%Z example_hash_tuple
           "counts" 4%Z).
  reflexivity.
Defined.

(** A ModifierTuple compares with a list as with the tuple of the same
    items, on either side; conversion of a list and of a tuple give the same
    ModifierTuple; and a ModifierTuple equal to a tuple hashes like it. *)
Theorem modifiertuple_list_transparent
  (hash_str : string -> Z) (hash_num : Q -> Z) (hash_none : Z) (hash_tuple : list Z -> Z)
  (l l' : list atom) :
  py_eq (VMod l) (VList l') = py_eq (VMod l) (VTuple l') /\
  py_eq (VList l') (VMod l) = py_eq (VMod l) (VList l') /\
  py_eq (VTuple l') (VMod l) = py_eq (VMod l) (VTuple l') /\
  ModifierTuple_convert (VList l) = ModifierTuple_convert (VTuple l) /\
  (py_eq (VMod l) (VTuple l') = true ->
   hash_value hash_str hash_num hash_none hash_tuple (VMod l)
   = hash_value hash_str hash_num hash_none hash_tuple (VTuple l')).
Proof.
  repeat split.
  intro H. unfold py_eq in H. simpl in H. simpl.
  rewrite (tuple_eq_hash hash_str hash_num l l' H). reflexivity.
Qed.

Lemma modifiertuple_list_transparent_witness :
  py_eq (VMod [AStr "sunz"]) (VTuple [AStr "sunz"]) = true /\
  hash_value example_hash_str example_hash_num 0%Z example_hash_tuple (VMod [AStr "sunz"])
  = hash_value example_hash_str example_hash_num 0%Z example_hash_tuple
      (VTuple [AStr "sunz"]).
Proof.
  split; [reflexivity |].
  apply (modifiertuple_list_transparent example_hash_str example_hash_num 0%Z
           example_hash_tuple [AStr "sunz"] [AStr "sunz"]).
  reflexivity.
Defined.

(** ** Identifiers and queries compared with themselves *)

Lemma nodup_dict_get (V : Type) (d : assoc V) (k : string) (v : V) :
  NoDup (dict_keys d) -> In (k, v) d -> dict_get d k = Some v.
Proof.
  unfold dict_keys. induction d as [| [k' v'] d IH]; intros N I; [destruct I |].
  simpl in N. inversion N as [| ? ? Nk Nd]; subst. simpl.
  destruct I as [E | I].
  - inversion E; subst. rewrite String.eqb_refl. reflexivity.
  - destruct (String.eqb k' k) eqn:Ek.
    + apply String.eqb_eq in Ek. subst k'. exfalso. apply Nk.
      apply (in_map fst d (k, v) I).
    + apply IH; assumption.
Qed.

Lemma lt_lists_self (keys : list string) (d : dict) :
  exists l, lt_lists keys d d = Ok (l, l).
Proof.
  induction keys as [| key rest [l IH]]; simpl.
  - exists []. reflexivity.
  - destruct (dict_get d key) as [v |].
    + rewrite IH. simpl. exists (v :: l). reflexivity.
    + exists l. exact IH.
Qed.

Lemma values_lt_irrefl (l : list value) : values_lt l l = Ok false.
Proof.
  induction l as [| v l IH]; simpl; [reflexivity |]. rewrite py_eq_refl. exact IH.
Qed.

Lemma dict_eq_refl (d : dict) : NoDup (dict_keys d) -> dict_eq d d = true.
Proof.
  intro N. unfold dict_eq. rewrite Nat.eqb_refl. simpl.
  apply forallb_forall. intros [k v] I. simpl.
  rewrite (nodup_dict_get value d k v N I). apply py_eq_refl.
Qed.

(** An identifier is never less than itself, whatever its schema and its
    values, and the comparison raises nothing; with its keys unique, as a
    dict has them, it is equal to itself. *)
Theorem dataid_compared_with_itself (d : DataID) :
  DataID_lt d d = Ok false /\
  (NoDup (dict_keys (items d)) -> DataID_eq d d = true).
Proof.
  split.
  - unfold DataID_lt.
    destruct (lt_lists_self (map fst (_id_keys d)) (items d)) as [l Hl].
    rewrite Hl. simpl. apply values_lt_irrefl.
  - intro N. apply dict_eq_refl. exact N.
Qed.

Lemma dataid_compared_with_itself_witness :
  NoDup (dict_keys (items example_id_coarse)) /\
  DataID_eq example_id_coarse example_id_coarse = true.
Proof.
  assert (N : NoDup (dict_keys (items example_id_coarse))).
  { simpl. repeat constructor; simpl; intuition discriminate. }
  split; [exact N |].
  apply (dataid_compared_with_itself example_id_coarse). exact N.
Defined.

(** A query is equal to itself exactly when it has at least one field: the
    query without fields is not even equal to itself. *)
Theorem dataquery_eq_itself (q : DataQuery) :
  NoDup (dict_keys (_dict q)) ->
  (DataQuery_eq q (PQuery q) = true <-> _dict q <> []).
Proof.
  intro N. unfold DataQuery_eq, asdict_of. rewrite !DataQuery_asdict_dict.
  rewrite eq_loop_false_start. unfold shares_compatible. split.
  - intros [[key [val [I _]]] _] E. rewrite E in I. destruct I.
  - intro Ne. destruct (_dict q) as [| [k v] rest] eqn:D; [contradiction |]. split.
    + exists k, v. split; [left; reflexivity |].
      unfold dict_mem. simpl. rewrite String.eqb_refl. reflexivity.
    + intros key val oval I G.
      rewrite (nodup_dict_get value ((k, v) :: rest) key val N I) in G.
      inversion G; subst oval. unfold compatible. rewrite py_eq_refl.
      apply orb_true_r.
Qed.

Lemma dataquery_eq_itself_witness :
  DataQuery_eq example_query_counts (PQuery example_query_counts) = true /\
  DataQuery_eq (mkQuery []) (PQuery (mkQuery [])) = false.
Proof.
  split.
  - apply (dataquery_eq_itself example_query_counts).
    + simpl. repeat constructor; simpl; intuition discriminate.
    + discriminate.
  - reflexivity.
Defined.

(** ** The schema: [fix_id_keys] *)

Lemma fix_id_key_fixed (e : id_key) :
  has_enum_and_type e = false ->
  k_enum (fix_id_key e) = None /\
  fix_id_key (fix_id_key e) = fix_id_key e /\
  key_is_empty (fix_id_key e) = key_is_empty e.
Proof.
  unfold has_enum_and_type, fix_id_key, key_is_empty.
  destruct e as [r d t ty en]; simpl.
  destruct en as [names |]; destruct ty as [ty |]; simpl; try discriminate;
    intros _; repeat split; try reflexivity;
    destruct r, d, t; reflexivity.
Qed.

Section FixIdKeysFacts.
Variable make_enum : string -> list string -> result (list string).

(** What [fix_id_keys] raises. *)
Lemma fix_id_keys_with_raise (id_keys : schema) (err : pyerr) :
  fix_id_keys_with make_enum id_keys = Raise err ->
  (err = ValueError "Cannot have both type and enum for the same id key." /\
   exists key e, In (key, Some e) id_keys /\ has_enum_and_type e = true) \/
  (exists key e names,
      In (key, Some e) id_keys /\ k_enum e = Some names /\ k_type e = None /\
      make_enum key names = Raise err).
Proof.
  induction id_keys as [| [k [e |]] rest IH]; simpl; [discriminate | |].
  - assert (Rest : fix_id_keys_with make_enum rest = Raise err ->
                   (err = ValueError "Cannot have both type and enum for the same id key." /\
                    exists key e0, ((k, Some e) = (key, Some e0) \/ In (key, Some e0) rest) /\
                                   has_enum_and_type e0 = true) \/
                   (exists key e0 names,
                       ((k, Some e) = (key, Some e0) \/ In (key, Some e0) rest) /\
                       k_enum e0 = Some names /\ k_type e0 = None /\
                       make_enum key names = Raise err)).
    { intro F. destruct (IH F) as [[E [key [e0 [I B]]]] | [key [e0 [names [I X]]]]].
      - left. split; [exact E |]. exists key, e0. split; [right; exact I | exact B].
      - right. exists key, e0, names. split; [right; exact I | exact X]. }
    destruct (key_is_empty e).
    + destruct (fix_id_keys_with make_enum rest) as [r | e1]; simpl; [discriminate |].
      intro H. apply Rest. exact H.
    + destruct (has_enum_and_type e) eqn:B.
      * intro H. inversion H. left. split; [reflexivity |].
        exists k, e. split; [left; reflexivity | exact B].
      * unfold fix_id_key_with. destruct (k_enum e) as [names |] eqn:En.
        -- destruct (make_enum k names) as [members | e1] eqn:Mk; simpl.
           ++ destruct (fix_id_keys_with make_enum rest) as [r | e2]; simpl; [discriminate |].
              intro H. apply Rest. exact H.
           ++ intro H. inversion H; subst e1. right. exists k, e, names.
              split; [left; reflexivity |]. split; [exact En |]. split; [| exact Mk].
              unfold has_enum_and_type in B. rewrite En in B.
              destruct (k_type e); [discriminate B | reflexivity].
        -- simpl. destruct (fix_id_keys_with make_enum rest) as [r | e2]; simpl;
             [discriminate |].
           intro H. apply Rest. exact H.
  - destruct (fix_id_keys_with make_enum rest) as [r | e1]; simpl; [discriminate |].
    intro H. destruct (IH H) as [[E [key [e0 [I B]]]] | [key [e0 [names [I X]]]]].
    + left. split; [exact E |]. exists key, e0. split; [right; exact I | exact B].
    + right. exists key, e0, names. split; [right; exact I | exact X].
Qed.

(** When every enumeration can be built, [fix_id_keys] raises at an entry
    with both an enumeration and a type, and returns when there is none. *)
Lemma fix_id_keys_with_total (id_keys : schema) :
  (forall key e names,
      In (key, Some e) id_keys -> k_enum e = Some names ->
      exists members, make_enum key names = Ok members) ->
  ((exists key e, In (key, Some e) id_keys /\ has_enum_and_type e = true) ->
   fix_id_keys_with make_enum id_keys
   = Raise (ValueError "Cannot have both type and enum for the same id key.")) /\
  ((forall key e, In (key, Some e) id_keys -> has_enum_and_type e = false) ->
   exists fixed, fix_id_keys_with make_enum id_keys = Ok fixed).
Proof.
  induction id_keys as [| [k [e |]] rest IH]; intro Hm; simpl.
  - split; [intros [? [? [[] _]]] | intros _; eexists; reflexivity].
  - destruct IH as [IHr IHo]; [intros key e0 names I; apply Hm; right; exact I |].
    assert (Em : key_is_empty e = true -> has_enum_and_type e = false).
    { unfold key_is_empty, has_enum_and_type.
      destruct (k_required e), (k_default e), (k_transitive e), (k_type e), (k_enum e);
        try discriminate; reflexivity. }
    assert (Fk : has_enum_and_type e = false -> exists e', fix_id_key_with make_enum k e = Ok e').
    { intros _. unfold fix_id_key_with. destruct (k_enum e) as [names |] eqn:En.
      - destruct (Hm k e names (or_introl eq_refl) En) as [members Mk]. rewrite Mk.
        simpl. eexists. reflexivity.
      - eexists. reflexivity. }
    split.
    + intros [key [e0 [[E | I] B]]].
      * inversion E; subst key e0.
        destruct (key_is_empty e) eqn:Ee; [rewrite (Em eq_refl) in B; discriminate B |].
        rewrite B. reflexivity.
      * assert (R := IHr (ex_intro _ key (ex_intro _ e0 (conj I B)))).
        destruct (key_is_empty e); [rewrite R; reflexivity |].
        destruct (has_enum_and_type e) eqn:B'; [reflexivity |].
        destruct (Fk eq_refl) as [e' He']. rewrite He'. simpl. rewrite R. reflexivity.
    + intro Nb.
      destruct IHo as [r Hr]; [intros key e0 I; apply (Nb key e0); right; exact I |].
      rewrite Hr. simpl.
      destruct (key_is_empty e); [eexists; reflexivity |].
      rewrite (Nb k e (or_introl eq_refl)).
      destruct (Fk (Nb k e (or_introl eq_refl))) as [e' He']. rewrite He'. simpl.
      eexists. reflexivity.
  - destruct IH as [IHr IHo]; [intros key e0 names I; apply Hm; right; exact I |].
    split.
    + intros [key [e0 [[E | I] B]]]; [inversion E |].
      rewrite (IHr (ex_intro _ key (ex_intro _ e0 (conj I B)))). reflexivity.
    + intro Nb.
      destruct IHo as [r Hr]; [intros key e0 I; apply (Nb key e0); right; exact I |].
      rewrite Hr. simpl. eexists. reflexivity.
Qed.

(** What [fix_id_keys] returns has no enumeration to build. *)
Lemma fix_id_keys_with_ok (id_keys : schema) :
  forall fixed,
    fix_id_keys_with make_enum id_keys = Ok fixed ->
    map fst fixed = map fst id_keys /\
    (forall key e, In (key, Some e) fixed -> k_enum e = None) /\
    (forall make_enum' : string -> list string -> result (list string),
        fix_id_keys_with make_enum' fixed = Ok fixed).
Proof.
  induction id_keys as [| [k [e |]] rest IH]; intros fixed H; simpl in H.
  - inversion H; subst. repeat split. intros ? ? [].
  - assert (Em : key_is_empty e = true -> k_enum e = None).
    { unfold key_is_empty.
      destruct (k_required e), (k_default e), (k_transitive e), (k_type e), (k_enum e);
        try discriminate; reflexivity. }
    destruct (key_is_empty e) eqn:Ee.
    + destruct (fix_id_keys_with make_enum rest) as [r |]; [| discriminate H].
      simpl in H. inversion H; subst fixed.
      destruct (IH r eq_refl) as [K [En Fx]]. split; [simpl; now rewrite K |]. split.
      * intros key e' [E | I]; [inversion E; subst; apply Em; reflexivity | apply (En key e' I)].
      * intro make_enum'. simpl. rewrite Ee, (Fx make_enum'). reflexivity.
    + destruct (has_enum_and_type e) eqn:B; [discriminate H |].
      destruct (fix_id_key_with make_enum k e) as [e' |] eqn:Fk; [| discriminate H].
      simpl in H.
      destruct (fix_id_keys_with make_enum rest) as [r |]; [| discriminate H].
      simpl in H. inversion H; subst fixed.
      destruct (IH r eq_refl) as [K [En Fx]].
      assert (P : k_enum e' = None /\ key_is_empty e' = false).
      { unfold fix_id_key_with in Fk. destruct (k_enum e) as [names |] eqn:En0.
        - destruct (make_enum k names) as [members |]; [| discriminate Fk].
          simpl in Fk. inversion Fk; subst e'. split; [reflexivity |].
          unfold key_is_empty. simpl.
          destruct (k_required e), (k_default e), (k_transitive e); reflexivity.
        - inversion Fk; subst e'. split; [exact En0 | exact Ee]. }
      destruct P as [P1 P2].
      split; [simpl; now rewrite K |]. split.
      * intros key e0 [E | I]; [inversion E; subst; exact P1 | apply (En key e0 I)].
      * intro make_enum'. simpl. rewrite P2.
        unfold has_enum_and_type, fix_id_key_with. rewrite P1. simpl.
        rewrite (Fx make_enum'). reflexivity.
  - destruct (fix_id_keys_with make_enum rest) as [r |]; [| discriminate H].
    simpl in H. inversion H; subst fixed.
    destruct (IH r eq_refl) as [K [En Fx]]. split; [simpl; now rewrite K |]. split.
    + intros key e' [E | I]; [inversion E | apply (En key e' I)].
    + intro make_enum'. simpl. rewrite (Fx make_enum'). reflexivity.
Qed.

(** [fix_id_keys], whatever the Enum API does with the names it is given.
    It raises the ValueError of line 396 at an entry with both an
    enumeration and a type, or else what building an enumeration raises;
    when every enumeration can be built it raises exactly when an entry
    has both. When it returns, it has kept the fields and their order and
    left no enumeration behind, and its result is a fixed point: fixing the
    keys of an identifier again, as [from_dict] does, changes nothing and
    builds no enumeration. *)
Theorem fix_id_keys_fixed_point (id_keys : schema) :
  (forall err,
      fix_id_keys_with make_enum id_keys = Raise err ->
      (err = ValueError "Cannot have both type and enum for the same id key." /\
       exists key e, In (key, Some e) id_keys /\ has_enum_and_type e = true) \/
      (exists key e names,
          In (key, Some e) id_keys /\ k_enum e = Some names /\ k_type e = None /\
          make_enum key names = Raise err)) /\
  ((forall key e names,
       In (key, Some e) id_keys -> k_enum e = Some names ->
       exists members, make_enum key names = Ok members) ->
   (fix_id_keys_with make_enum id_keys
    = Raise (ValueError "Cannot have both type and enum for the same id key.") <->
    exists key e, In (key, Some e) id_keys /\ has_enum_and_type e = true)) /\
  (forall fixed,
      fix_id_keys_with make_enum id_keys = Ok fixed ->
      map fst fixed = map fst id_keys /\
      (forall key e, In (key, Some e) fixed -> k_enum e = None) /\
      (forall make_enum' : string -> list string -> result (list string),
          fix_id_keys_with make_enum' fixed = Ok fixed)).
Proof.
  split; [apply fix_id_keys_with_raise |]. split; [| apply fix_id_keys_with_ok].
  intro Hm. split.
  - intro H. destruct (fix_id_keys_with_raise id_keys _ H)
      as [[_ B] | [key [e [names [I [En [_ Mk]]]]]]]; [exact B |].
    destruct (Hm key e names I En) as [members Mo]. rewrite Mo in Mk. discriminate Mk.
  - apply (proj1 (fix_id_keys_with_total id_keys Hm)).
Qed.
End FixIdKeysFacts.

(** [fix_id_keys] is the case of names that are taken as they are. *)
Lemma fix_id_keys_plain (id_keys : schema) :
  fix_id_keys_with (fun _ names => Ok names) id_keys = fix_id_keys id_keys.
Proof.
  induction id_keys as [| [k [e |]] rest IH]; simpl; [reflexivity | |].
  - rewrite IH. destruct (key_is_empty e); [reflexivity |].
    destruct (has_enum_and_type e); [reflexivity |].
    unfold fix_id_key_with, fix_id_key. destruct (k_enum e); reflexivity.
  - rewrite IH. reflexivity.
Qed.

Lemma fix_id_keys_fixed_point_witness :
  fix_id_keys_with (fun _ names => Ok names) default_id_keys_config
    = Ok example_fixed_default /\
  fix_id_keys_with (fun _ _ => Raise (ValueError "Invalid enum member name: mro"))
    example_fixed_default = Ok example_fixed_default.
Proof.
  split; [reflexivity |].
  apply (fix_id_keys_fixed_point (fun _ names => Ok names) default_id_keys_config).
  reflexivity.
Defined.

(** ** Type conversion *)

Lemma same_plain_eq (v' v : value) : same_plain v' v -> py_eq v' v = true.
Proof.
  unfold same_plain.
  destruct v' as [| n | s | name o | w | l | l | l];
    destruct v as [| n' | s' | name' o' | w' | l' | l' | l']; simpl;
    intro H; try discriminate H; inversion H; subst;
    first [apply py_eq_refl | unfold py_eq; simpl; apply String.eqb_refl].
Qed.

Lemma same_plain_hash
  (hash_str : string -> Z) (hash_num : Q -> Z) (hash_none : Z) (hash_tuple : list Z -> Z)
  (v' v : value) :
  same_plain v' v ->
  hash_value hash_str hash_num hash_none hash_tuple v'
  = hash_value hash_str hash_num hash_none hash_tuple v.
Proof.
  unfold same_plain.
  destruct v' as [| n | s | name o | w | l | l | l];
    destruct v as [| n' | s' | name' o' | w' | l' | l' | l']; simpl;
    intro H; try discriminate H; inversion H; subst; reflexivity.
Qed.

Lemma convert_non_none (t : coercion) (v v' : value) :
  convert t v = Ok v' -> is_none v = false -> is_none v' = false.
Proof.
  destruct t as [| | names]; simpl.
  - destruct v as [| n | s | name o | w | l | l | l]; simpl; intros H N;
      try discriminate N; try (inversion H; subst; reflexivity);
      destruct l as [| [a | a] [| [b | b] [| [c | c] [| [u | u] [| ? ?]]]]];
      try discriminate H; inversion H; subst; reflexivity.
  - destruct v; simpl; intros H N; try discriminate N; try discriminate H;
      inversion H; subst; reflexivity.
  - destruct v as [| n | s | name o | w | l | l | l]; simpl; intros H N;
      try discriminate H.
    + destruct (enum_ordinal names s 1); [| discriminate H]. inversion H. reflexivity.
    + destruct (enum_ordinal names name 1); [| discriminate H]. inversion H. reflexivity.
Qed.

(** Conversion is idempotent, also through [to_dict]: what a type made of a
    value it makes again of its own result, and of the plain rendering of
    that result it makes a value that [to_dict] renders alike. This is what
    lets [from_dict], [_replace] and [_unpickle] convert the items of an
    identifier a second time. *)
Theorem convert_idempotent (t : coercion) (v v' : value) :
  convert t v = Ok v' ->
  convert t v' = Ok v' /\
  exists v'', convert t (plain_value v') = Ok v'' /\ same_plain v'' v'.
Proof.
  unfold same_plain. destruct t as [| | names]; simpl.
  - destruct v as [| n | s | name o | w | l | l | l]; simpl; intro H;
      try (inversion H; subst; simpl; split; [reflexivity | eexists; split; reflexivity]);
      destruct l as [| [a | a] [| [b | b] [| [c | c] [| [u | u] [| ? ?]]]]];
      try discriminate H; inversion H; subst; simpl;
      (split; [reflexivity | eexists; split; reflexivity]).
  - destruct v as [| n | s | name o | w | l | l | l]; simpl; intro H;
      try discriminate H; inversion H; subst; simpl;
      (split; [reflexivity | eexists; split; reflexivity]).
  - assert (K : forall s, enum_ordinal names s 1 <> None ->
                forall o, enum_ordinal names s 1 = Some o ->
                ValueList_convert names (VEnum s o) = Ok (VEnum s o) /\
                exists v'', ValueList_convert names (VStr s) = Ok v'' /\
                            plain_value v'' = VStr s).
    { intros s _ o E. simpl. rewrite E. split; [reflexivity |].
      eexists. split; reflexivity. }
    destruct v as [| n | s | name o | w | l | l | l]; simpl; intro H;
      try discriminate H.
    + destruct (enum_ordinal names s 1) as [o |] eqn:E; [| discriminate H].
      inversion H; subst. apply (K s); [congruence | exact E].
    + destruct (enum_ordinal names name 1) as [o' |] eqn:E; [| discriminate H].
      inversion H; subst. apply (K name); [congruence | exact E].
Qed.

Lemma convert_idempotent_witness :
  convert (TValueList ["reflectance"; "counts"]%string) (VStr "counts")
    = Ok (VEnum "counts" 2) /\
  convert (TValueList ["reflectance"; "counts"]%string) (VEnum "counts" 2)
    = Ok (VEnum "counts" 2).
Proof.
  split; [reflexivity |].
  apply (convert_idempotent (TValueList ["reflectance"; "counts"]%string)
           (VStr "counts") (VEnum "counts" 2)).
  reflexivity.
Defined.

(** ** Rebuilding an identifier from its items *)

Lemma fix_id_keys_again (id_keys : schema) :
  forall fixed,
    fix_id_keys id_keys = Ok fixed ->
    map fst fixed = map fst id_keys /\ fix_id_keys fixed = Ok fixed.
Proof.
  induction id_keys as [| [k [e |]] rest IH]; intros fixed H; simpl in H.
  - inversion H; subst. split; reflexivity.
  - destruct (key_is_empty e) eqn:Em.
    + destruct (fix_id_keys rest) as [r |]; [| discriminate H].
      simpl in H. inversion H; subst fixed. destruct (IH r eq_refl) as [K Fx].
      split; [simpl; now rewrite K | simpl; rewrite Em, Fx; reflexivity].
    + destruct (has_enum_and_type e) eqn:He; [discriminate H |].
      destruct (fix_id_keys rest) as [r |]; [| discriminate H].
      simpl in H. inversion H; subst fixed. destruct (IH r eq_refl) as [K Fx].
      destruct (fix_id_key_fixed e He) as [E1 [E2 E3]].
      split; [simpl; now rewrite K |]. simpl. rewrite E3, Em.
      assert (He' : has_enum_and_type (fix_id_key e) = false).
      { unfold has_enum_and_type. rewrite E1. reflexivity. }
      rewrite He', Fx, E2. reflexivity.
  - destruct (fix_id_keys rest) as [r |]; [| discriminate H].
    simpl in H. inversion H; subst fixed. destruct (IH r eq_refl) as [K Fx].
    split; [simpl; now rewrite K | simpl; rewrite Fx; reflexivity].
Qed.

Lemma convert_twice (t : coercion) (v v' : value) :
  convert t v = Ok v' -> convert t v' = Ok v'.
Proof.
  destruct t as [| | names]; simpl.
  - destruct v as [| n | s | name o | w | l | l | l]; simpl; intro H;
      try (inversion H; subst; reflexivity);
      destruct l as [| [a | a] [| [b | b] [| [c | c] [| [u | u] [| ? ?]]]]];
      try discriminate H; inversion H; subst; reflexivity.
  - destruct v as [| n | s | name o | w | l | l | l]; simpl; intro H;
      try discriminate H; inversion H; subst; reflexivity.
  - destruct v as [| n | s | name o | w | l | l | l]; simpl; intro H;
      try discriminate H.
    + destruct (enum_ordinal names s 1) as [o |] eqn:E; [| discriminate H].
      inversion H; subst. simpl. rewrite E. reflexivity.
    + destruct (enum_ordinal names name 1) as [o' |] eqn:E; [| discriminate H].
      inversion H; subst. simpl. rewrite E. reflexivity.
Qed.

Lemma convert_plain (t : coercion) (v v' : value) :
  convert t v = Ok v' ->
  exists v'', convert t (plain_value v') = Ok v'' /\ same_plain v'' v'.
Proof.
  intro H. pose proof (convert_twice t v v' H) as T.
  destruct v' as [| n | s | name o | w | l | l | l];
    try (exists (plain_value v'); simpl; split; [exact T | reflexivity]);
    try (eexists; split; [exact T | reflexivity]).
  destruct t as [| | names]; simpl in T |- *.
  - exists (VStr name). split; reflexivity.
  - discriminate T.
  - destruct (enum_ordinal names name 1) as [o' |]; [| discriminate T].
    inversion T; subst. exists (VEnum name o). split; reflexivity.
Qed.

Lemma convert_fields_cons (k : string) (entry : option id_key) (rest : schema)
  (raw acc : dict) :
  convert_fields ((k, entry) :: rest) raw acc
  = (r <- field_result k entry raw ;;
     convert_fields rest raw match r with
                             | Some v => dict_set acc k v
                             | None => acc
                             end).
Proof.
  destruct entry as [e |]; simpl.
  - destruct (field_entered k e raw); [| reflexivity].
    destruct (has_required e && is_none (dict_get_default raw k (get_default e)));
      [reflexivity |].
    destruct (k_type e) as [t |].
    + destruct (convert t (dict_get_default raw k (get_default e))); reflexivity.
    + destruct (is_none (dict_get_default raw k (get_default e))); reflexivity.
  - destruct (dict_get raw k) as [v |]; [| reflexivity].
    destruct (is_none v); reflexivity.
Qed.

Lemma dict_keys_set (d : dict) (k : string) (v : value) :
  dict_keys (dict_set d k v)
  = if dict_mem d k then dict_keys d else dict_keys d ++ [k].
Proof.
  unfold dict_keys, dict_mem. induction d as [| [k' v'] d IH]; simpl; [reflexivity |].
  destruct (String.eqb k' k) eqn:E; simpl.
  - apply String.eqb_eq in E. subst k'. reflexivity.
  - rewrite IH. destruct (dict_get d k); reflexivity.
Qed.

Lemma dict_set_nodup (d : dict) (k : string) (v : value) :
  NoDup (dict_keys d) -> NoDup (dict_keys (dict_set d k v)).
Proof.
  intro N. rewrite dict_keys_set. destruct (dict_mem d k) eqn:M; [exact N |].
  apply NoDup_app.
  - exact N.
  - repeat constructor. intros [].
  - intros x I [E | []]. subst x. apply dict_mem_keys in I. congruence.
Qed.

Lemma convert_fields_nodup (fixed : schema) (raw : dict) :
  forall acc res,
    NoDup (dict_keys acc) ->
    convert_fields fixed raw acc = Ok res ->
    NoDup (dict_keys res).
Proof.
  induction fixed as [| [k entry] rest IH]; intros acc res N H.
  - simpl in H. inversion H; subst. exact N.
  - rewrite convert_fields_cons in H.
    destruct (field_result k entry raw) as [[v |] |]; simpl in H; try discriminate H.
    + apply (IH _ _ (dict_set_nodup acc k v N) H).
    + apply (IH _ _ N H).
Qed.

Lemma convert_fields_untouched (fixed : schema) (raw : dict) (k : string) :
  ~ In k (map fst fixed) ->
  forall acc res,
    convert_fields fixed raw acc = Ok res -> dict_get res k = dict_get acc k.
Proof.
  induction fixed as [| [k' entry] rest IH]; intros Ni acc res H.
  - simpl in H. inversion H; subst. reflexivity.
  - rewrite convert_fields_cons in H. simpl in Ni.
    assert (Nk : k' <> k) by tauto. assert (Nr : ~ In k (map fst rest)) by tauto.
    destruct (field_result k' entry raw) as [[v |] |]; simpl in H; try discriminate H.
    + rewrite (IH Nr _ _ H). apply (dict_get_set_other acc v Nk).
    + apply (IH Nr _ _ H).
Qed.

(** With unique schema keys, the result holds for each field what
    [field_result] gives. *)
Lemma convert_fields_get (fixed : schema) (raw : dict) :
  NoDup (map fst fixed) ->
  forall acc res,
    convert_fields fixed raw acc = Ok res ->
    forall k entry r,
      In (k, entry) fixed ->
      field_result k entry raw = Ok r ->
      dict_get res k = match r with
                       | Some v => Some v
                       | None => dict_get acc k
                       end.
Proof.
  induction fixed as [| [k' entry'] rest IH]; intros N acc res H k entry r I Fr;
    [destruct I |].
  simpl in N. inversion N as [| ? ? Nk Nr]; subst.
  rewrite convert_fields_cons in H.
  destruct I as [E | I].
  - inversion E; subst k' entry'. rewrite Fr in H. simpl in H.
    rewrite (convert_fields_untouched rest raw k Nk _ _ H).
    destruct r as [v |]; [apply dict_get_set_same | reflexivity].
  - assert (Ne : k' <> k).
    { intro E. subst k'. apply Nk. apply (in_map fst rest (k, entry) I). }
    destruct (field_result k' entry' raw) as [[v |] |]; simpl in H; try discriminate H.
    + rewrite (IH Nr _ _ H k entry r I Fr).
      destruct r; [reflexivity | apply (dict_get_set_other acc v Ne)].
    + apply (IH Nr _ _ H k entry r I Fr).
Qed.

Lemma dict_sim_set (a' a : dict) (k : string) (v' v : value) :
  dict_sim a' a -> same_plain v' v -> dict_sim (dict_set a' k v') (dict_set a k v).
Proof.
  unfold dict_sim. intros S P.
  induction S as [| [k1 v1] [k2 v2] a' a [Ek Ev] S IH]; simpl.
  - constructor; [split; [reflexivity | exact P] | constructor].
  - simpl in Ek. subst k2. destruct (String.eqb k1 k).
    + constructor; [split; [reflexivity | exact P] | exact S].
    + constructor; [split; [reflexivity | exact Ev] | exact IH].
Qed.

Lemma dict_sim_keys (a' a : dict) : dict_sim a' a -> dict_keys a' = dict_keys a.
Proof.
  unfold dict_sim, dict_keys. induction 1 as [| x y a' a [Ek _] S IH]; simpl;
    [reflexivity | now rewrite Ek, IH].
Qed.

Lemma dict_sim_eq (a' a : dict) :
  dict_sim a' a -> NoDup (dict_keys a) -> dict_eq a' a = true.
Proof.
  intros S N. unfold dict_eq.
  assert (L : length a' = length a) by (apply (Forall2_length S)).
  rewrite L, Nat.eqb_refl. simpl. apply forallb_forall. intros [k v'] I.
  assert (X : exists v, In (k, v) a /\ same_plain v' v).
  { clear N L. unfold dict_sim in S. induction S as [| x y a' a [Ek Ev] S IH];
      [destruct I |].
    destruct I as [E | I].
    - subst x. simpl in Ek, Ev. exists (snd y). split; [| exact Ev].
      left. destruct y; simpl in *; congruence.
    - destruct (IH I) as [v [Iv Pv]]. exists v. split; [right; exact Iv | exact Pv]. }
  destruct X as [v [Iv Pv]]. simpl.
  rewrite (nodup_dict_get value a k v N Iv). apply same_plain_eq. exact Pv.
Qed.

Lemma dict_get_map (g : value -> value) (d : dict) (k : string) :
  dict_get (dict_map g d) k = option_map g (dict_get d k).
Proof.
  unfold dict_map. induction d as [| [k' v'] d IH]; simpl; [reflexivity |].
  destruct (String.eqb k' k); [reflexivity | exact IH].
Qed.

Section Rebuild.
Variable g : value -> value.
Hypothesis g_none : forall v, is_none (g v) = is_none v.
Hypothesis g_plain : forall v, same_plain (g v) v.
Hypothesis g_convert :
  forall t v v', convert t v = Ok v' ->
                 exists v'', convert t (g v') = Ok v'' /\ same_plain v'' v'.

(** A field gives the same again when the raw mapping holds what it gave. *)
Lemma field_result_rebuild (key : string) (entry : option id_key)
  (raw raw' : dict) (r : option value) :
  no_null raw ->
  field_result key entry raw = Ok r ->
  dict_get raw' key = option_map g r ->
  exists r', field_result key entry raw' = Ok r' /\ option_sim r' r.
Proof.
  intros Nn Fr Hr. destruct entry as [e |]; unfold field_result in *.
  - destruct (field_entered key e raw) eqn:En.
    + destruct (has_required e && is_none (dict_get_default raw key (get_default e)))
        eqn:Mi; [discriminate Fr |].
      assert (Cn : is_none (dict_get_default raw key (get_default e)) = false).
      { unfold field_entered, dict_mem, dict_get_default in *.
        destruct (dict_get raw key) as [v |] eqn:G.
        - apply (Nn key v (@dict_get_In value raw key v G)).
        - simpl in En. destruct (is_none (get_default e)); [| reflexivity].
          simpl in En. unfold required_truthy, has_required in *.
          destruct (k_required e) as [[|] |]; simpl in *; discriminate. }
      assert (Ent : forall w, dict_get raw' key = Some w ->
                    field_entered key e raw' = true /\
                    dict_get_default raw' key (get_default e) = w).
      { intros w G. unfold field_entered, dict_mem, dict_get_default. rewrite G.
        split; reflexivity. }
      destruct (k_type e) as [t |] eqn:Ty.
      * destruct (convert t (dict_get_default raw key (get_default e))) as [v1 |] eqn:Cv;
          [| discriminate Fr].
        simpl in Fr. inversion Fr; subst r. simpl in Hr.
        destruct (Ent _ Hr) as [E1 E2]. rewrite E1, E2.
        rewrite g_none, (convert_non_none t _ v1 Cv Cn), andb_false_r.
        destruct (g_convert t _ v1 Cv) as [v'' [Cv' P]]. rewrite Cv'. simpl.
        exists (Some v''). split; [reflexivity | exact P].
      * rewrite Cn in Fr. inversion Fr; subst r. simpl in Hr.
        destruct (Ent _ Hr) as [E1 E2]. rewrite E1, E2.
        rewrite g_none, Cn, andb_false_r.
        exists (Some (g (dict_get_default raw key (get_default e)))).
        split; [reflexivity | apply g_plain].
    + inversion Fr; subst r. simpl in Hr.
      assert (E : field_entered key e raw' = false).
      { unfold field_entered, dict_mem in *. rewrite Hr.
        destruct (dict_get raw key); [discriminate En | exact En]. }
      rewrite E. exists None. split; [reflexivity | exact I].
  - destruct (dict_get raw key) as [v |] eqn:G.
    + rewrite (Nn key v (@dict_get_In value raw key v G)) in Fr.
      inversion Fr; subst r. simpl in Hr. rewrite Hr, g_none.
      rewrite (Nn key v (@dict_get_In value raw key v G)).
      exists (Some (g v)). split; [reflexivity | apply g_plain].
    + inversion Fr; subst r. simpl in Hr. rewrite Hr.
      exists None. split; [reflexivity | exact I].
Qed.

Lemma convert_fields_rebuild (fixed : schema) (raw raw' : dict) :
  no_null raw ->
  forall acc acc' res,
    dict_sim acc' acc ->
    convert_fields fixed raw acc = Ok res ->
    (forall k entry r,
        In (k, entry) fixed -> field_result k entry raw = Ok r ->
        dict_get raw' k = option_map g r) ->
    exists res', convert_fields fixed raw' acc' = Ok res' /\ dict_sim res' res.
Proof.
  intro Nn. induction fixed as [| [k entry] rest IH]; intros acc acc' res S H Hr.
  - simpl in H. inversion H; subst. exists acc'. split; [reflexivity | exact S].
  - rewrite convert_fields_cons in H. rewrite convert_fields_cons.
    destruct (field_result k entry raw) as [r |] eqn:Fr; [| discriminate H].
    simpl in H.
    destruct (field_result_rebuild k entry raw raw' r Nn Fr
                (Hr k entry r (or_introl eq_refl) Fr)) as [r' [Fr' Sr]].
    rewrite Fr'. simpl.
    assert (Hrest : forall k0 entry0 r0,
               In (k0, entry0) rest -> field_result k0 entry0 raw = Ok r0 ->
               dict_get raw' k0 = option_map g r0).
    { intros k0 entry0 r0 I0. apply Hr. right. exact I0. }
    destruct r as [v |], r' as [v' |]; simpl in Sr; try contradiction.
    + apply (IH _ _ res (dict_sim_set acc' acc k v' v S Sr) H Hrest).
    + apply (IH _ _ res S H Hrest).
Qed.

(** The items rebuilt from the items sent through [g]. *)
Lemma init_rebuild (id_keys fixed : schema) (raw : dict) (a : DataID) :
  NoDup (map fst id_keys) ->
  fix_id_keys id_keys = Ok fixed ->
  no_null raw ->
  DataID_init id_keys raw = Ok a ->
  exists a', DataID_init id_keys (dict_map g (items a)) = Ok a' /\
             dict_sim (items a') (items a) /\
             NoDup (dict_keys (items a)).
Proof.
  intros N Fx Nn H. unfold DataID_init in *. rewrite Fx in *. simpl in *.
  assert (Hc : exists res,
             match raw with [] => Ok [] | _ :: _ => convert_dict fixed raw end = Ok res /\
             a = mkDataID None id_keys fixed res).
  { destruct (match raw with [] => Ok [] | _ :: _ => convert_dict fixed raw end)
      as [res |]; [| discriminate H].
    simpl in H. inversion H. exists res. split; reflexivity. }
  destruct Hc as [res [Hres Ea]]. subst a. simpl. clear H.
  destruct res as [| kv res'] eqn:Eres.
  - simpl. eexists. split; [reflexivity |]. simpl. split; constructor.
  - rewrite <- Eres in *.
    assert (Cf : convert_fields fixed raw [] = Ok res).
    { destruct raw; [inversion Hres; congruence | exact Hres]. }
    assert (Nf : NoDup (map fst fixed)).
    { destruct (fix_id_keys_again id_keys fixed Fx) as [K _]. rewrite K. exact N. }
    assert (Hr : forall k entry r,
               In (k, entry) fixed -> field_result k entry raw = Ok r ->
               dict_get (dict_map g res) k = option_map g r).
    { intros k entry r I Fr. rewrite dict_get_map.
      rewrite (convert_fields_get fixed raw Nf [] res Cf k entry r I Fr).
      destruct r; reflexivity. }
    destruct (convert_fields_rebuild fixed raw (dict_map g res) Nn [] [] res
                (Forall2_nil _) Cf Hr) as [res2 [Cf2 S2]].
    assert (E : match dict_map g res with
                | [] => Ok []
                | _ :: _ => convert_dict fixed (dict_map g res)
                end = Ok res2).
    { rewrite Eres in *. simpl in *. exact Cf2. }
    rewrite E. simpl. eexists. split; [reflexivity |]. simpl.
    split; [exact S2 |].
    apply (convert_fields_nodup fixed raw [] res (NoDup_nil _) Cf).
Qed.
End Rebuild.

Lemma plain_value_none (v : value) : is_none (plain_value v) = is_none v.
Proof. destruct v; reflexivity. Qed.

Lemma plain_value_plain (v : value) : same_plain (plain_value v) v.
Proof. unfold same_plain. destruct v; reflexivity. Qed.

Lemma dict_sim_sym (a' a : dict) : dict_sim a' a -> dict_sim a a'.
Proof.
  unfold dict_sim, same_plain. induction 1 as [| x y a' a [Ek Ev] S IH];
    constructor; [split; congruence | exact IH].
Qed.

Lemma dict_map_id (d : dict) : dict_map (fun v => v) d = d.
Proof.
  unfold dict_map. induction d as [| [k v] d IH]; simpl; [reflexivity | now rewrite IH].
Qed.

Lemma item_lt_keys (x y : string * value) :
  fst x <> fst y -> item_lt x y = Ok (String.ltb (fst x) (fst y)).
Proof.
  intro N. unfold item_lt. apply String.eqb_neq in N. rewrite N. reflexivity.
Qed.

(** Inserting an item among items with other keys only compares keys. *)
Lemma insert_sorted_sim (x' x : string * value) :
  fst x' = fst x -> same_plain (snd x') (snd x) ->
  forall l' l,
    dict_sim l' l ->
    (forall y, In y l -> fst y <> fst x) ->
    exists r' r,
      insert_sorted item_lt x' l' = Ok r' /\ insert_sorted item_lt x l = Ok r /\
      dict_sim r' r.
Proof.
  intros Ek Ev l' l S. unfold dict_sim in S.
  induction S as [| y' y l' l [Eky Evy] S IH]; intro D; simpl.
  - exists [x'], [x]. repeat split. constructor; [split; assumption | constructor].
  - assert (Ny : fst y <> fst x) by (apply D; left; reflexivity).
    rewrite (item_lt_keys y x Ny).
    assert (Ny' : fst y' <> fst x') by congruence.
    rewrite (item_lt_keys y' x' Ny'). rewrite Eky, Ek. simpl.
    destruct (String.ltb (fst y) (fst x)).
    + destruct IH as [r' [r [H1 [H2 Sr]]]].
      { intros z Iz. apply D. right. exact Iz. }
      rewrite H1, H2. simpl. exists (y' :: r'), (y :: r). repeat split.
      constructor; [split; assumption | exact Sr].
    + exists (x' :: y' :: l'), (x :: y :: l). repeat split.
      constructor; [split; assumption |].
      constructor; [split; assumption | exact S].
Qed.

(** With unique keys the items of a dict always sort, and alike for two
    dicts that [to_dict] renders alike. *)
Lemma py_sorted_sim (l' l : dict) :
  dict_sim l' l ->
  NoDup (dict_keys l) ->
  exists r' r,
    py_sorted item_lt l' = Ok r' /\ py_sorted item_lt l = Ok r /\ dict_sim r' r.
Proof.
  intros S. unfold dict_sim in S.
  induction S as [| x' x l' l [Ek Ev] S IH]; intro N; simpl.
  - exists [], []. repeat split. constructor.
  - unfold dict_keys in N. simpl in N. inversion N as [| ? ? Nx Nl]; subst.
    destruct (IH Nl) as [r0' [r0 [H1 [H2 S0]]]].
    rewrite H1, H2. simpl.
    apply (insert_sorted_sim x' x Ek Ev r0' r0 S0).
    intros y Iy E. apply Nx.
    pose proof (@py_sorted_perm _ item_lt l r0 H2) as P.
    rewrite <- E. apply (in_map fst l y).
    apply (Permutation_in y P Iy).
Qed.

Lemma hash_items_sim
  (hash_str : string -> Z) (hash_num : Q -> Z) (hash_none : Z) (hash_tuple : list Z -> Z)
  (r' r : dict) :
  dict_sim r' r ->
  hash_items hash_str hash_num hash_none hash_tuple r'
  = hash_items hash_str hash_num hash_none hash_tuple r.
Proof.
  unfold dict_sim. induction 1 as [| [k' v'] [k v] r' r [Ek Ev] S IH]; simpl;
    [reflexivity |].
  simpl in Ek, Ev. subst k'.
  rewrite (same_plain_hash hash_str hash_num hash_none hash_tuple v' v Ev), IH.
  reflexivity.
Qed.

Lemma hash_of_sim
  (hash_str : string -> Z) (hash_num : Q -> Z) (hash_none : Z) (hash_tuple : list Z -> Z)
  (a' a : DataID) :
  _hash a' = None -> _hash a = None ->
  dict_sim (items a') (items a) ->
  NoDup (dict_keys (items a)) ->
  hash_of hash_str hash_num hash_none hash_tuple a'
  = hash_of hash_str hash_num hash_none hash_tuple a.
Proof.
  intros H' H S N. unfold hash_of, DataID_hash. rewrite H', H.
  destruct (py_sorted_sim (items a') (items a) S N) as [r' [r [E1 [E2 Sr]]]].
  rewrite E1, E2. simpl.
  rewrite (hash_items_sim hash_str hash_num hash_none hash_tuple r' r Sr).
  destruct (hash_items hash_str hash_num hash_none hash_tuple r); reflexivity.
Qed.

Lemma init_hash_none (id_keys : schema) (raw : dict) (a : DataID) :
  DataID_init id_keys raw = Ok a ->
  _hash a = None /\ _orig_id_keys a = id_keys /\ fix_id_keys id_keys = Ok (_id_keys a).
Proof.
  unfold DataID_init. destruct (fix_id_keys id_keys) as [fixed |]; [| discriminate].
  simpl.
  destruct (match raw with [] => Ok [] | _ :: _ => convert_dict fixed raw end);
    [| discriminate].
  simpl. intro H. inversion H; subst. repeat split.
Qed.

Lemma keyword_clash_map (g : value -> value) (d : dict) :
  keyword_clash (dict_map g d) = keyword_clash d.
Proof.
  unfold keyword_clash, dict_mem. rewrite !dict_get_map.
  destruct (dict_get d "self"), (dict_get d "id_keys"); reflexivity.
Qed.

Lemma clash_identifier_example :
  DataID_init example_schema_clash [("name"%string, VStr "ch1")] = Ok example_id_clash.
Proof. reflexivity. Qed.

(** The pickling round trip. An identifier is built from a raw mapping
    without null values, under a schema with unique field names. If it has
    a field named [self] or [id_keys], [_unpickle] raises a TypeError on
    what [__reduce__] returns, since it passes the fields as keywords.
    Otherwise [_unpickle] rebuilds an identifier that is equal to it, has
    the same fields in the same order and the same hash. *)
Theorem reduce_unpickle_round_trip
  (hash_str : string -> Z) (hash_num : Q -> Z) (hash_none : Z) (hash_tuple : list Z -> Z)
  (id_keys : schema) (raw : dict) (a : DataID) :
  NoDup (map fst id_keys) ->
  no_null raw ->
  DataID_init id_keys raw = Ok a ->
  (keyword_clash (items a) = true ->
   exists msg,
     DataID_unpickle (fst (DataID_reduce a)) (snd (DataID_reduce a))
     = Raise (TypeError msg)) /\
  (keyword_clash (items a) = false ->
   exists a',
     DataID_unpickle (fst (DataID_reduce a)) (snd (DataID_reduce a)) = Ok a' /\
     DataID_eq a' a = true /\
     DataID_eq a a' = true /\
     dict_keys (items a') = dict_keys (items a) /\
     hash_of hash_str hash_num hash_none hash_tuple a'
     = hash_of hash_str hash_num hash_none hash_tuple a).
Proof.
  intros N Nn H.
  assert (Kc : keyword_clash (to_dict a) = keyword_clash (items a))
    by apply (keyword_clash_map plain_value).
  split.
  - intro C. unfold DataID_unpickle, DataID_call, DataID_reduce. simpl.
    rewrite Kc, C. eexists. reflexivity.
  - intro C.
    destruct (init_hash_none id_keys raw a H) as [Hh [Ho Fx]].
    destruct (init_rebuild plain_value plain_value_none plain_value_plain convert_plain
                id_keys (_id_keys a) raw a N Fx Nn H) as [a' [H' [S Na]]].
    exists a'. unfold DataID_unpickle, DataID_call, DataID_reduce. simpl.
    rewrite Kc, C, Ho.
    split; [exact H' |].
    pose proof (dict_sim_keys _ _ S) as K.
    split; [apply (dict_sim_eq _ _ S Na) |].
    split; [apply (dict_sim_eq _ _ (dict_sim_sym _ _ S)); rewrite K; exact Na |].
    split; [exact K |].
    destruct (init_hash_none _ _ a' H') as [Hh' _].
    apply (hash_of_sim hash_str hash_num hash_none hash_tuple a' a Hh' Hh S Na).
Qed.

Lemma reduce_unpickle_round_trip_witness :
  (exists a a',
     DataID_init default_id_keys_config example_raw_full = Ok a /\
     DataID_unpickle (fst (DataID_reduce a)) (snd (DataID_reduce a)) = Ok a' /\
     DataID_eq a' a = true) /\
  (exists msg,
     DataID_unpickle (fst (DataID_reduce example_id_clash))
       (snd (DataID_reduce example_id_clash))
     = Raise (TypeError msg)).
Proof.
  split.
  - assert (I : exists a, DataID_init default_id_keys_config example_raw_full = Ok a /\
                          keyword_clash (items a) = false)
      by (eexists; split; reflexivity).
    destruct I as [a [Ha Hc]]. exists a.
    destruct (reduce_unpickle_round_trip example_hash_str example_hash_num 0%Z
                example_hash_tuple default_id_keys_config example_raw_full a)
      as [_ R].
    + simpl. repeat constructor; simpl; intuition discriminate.
    + intros k v [E | [E | [E | [E | []]]]]; inversion E; reflexivity.
    + exact Ha.
    + destruct (R Hc) as [a' [H1 [H2 _]]]. exists a'. repeat split; assumption.
  - destruct (reduce_unpickle_round_trip example_hash_str example_hash_num 0%Z
                example_hash_tuple example_schema_clash [("name"%string, VStr "ch1")]
                example_id_clash) as [C _].
    + simpl. repeat constructor; simpl; intuition discriminate.
    + intros k v [E | []]; inversion E; reflexivity.
    + reflexivity.
    + apply C. reflexivity.
Defined.

(** [_replace] without overrides. Under the same conditions [_replace()]
    raises a TypeError when the identifier has a field named [self] or
    [id_keys]; otherwise the identifier that it builds from the items is
    equal to the identifier and has the same fields and the same hash:
    converting the items a second time, under the keys already fixed,
    changes nothing. *)
Theorem replace_nothing
  (hash_str : string -> Z) (hash_num : Q -> Z) (hash_none : Z) (hash_tuple : list Z -> Z)
  (id_keys : schema) (raw : dict) (a : DataID) :
  NoDup (map fst id_keys) ->
  no_null raw ->
  DataID_init id_keys raw = Ok a ->
  (keyword_clash (items a) = true ->
   exists msg, DataID_replace a [] = Raise (TypeError msg)) /\
  (keyword_clash (items a) = false ->
   exists a',
     DataID_replace a [] = Ok a' /\
     DataID_eq a' a = true /\
     dict_keys (items a') = dict_keys (items a) /\
     hash_of hash_str hash_num hash_none hash_tuple a'
     = hash_of hash_str hash_num hash_none hash_tuple a).
Proof.
  intros N Nn H. split.
  - intro C. unfold DataID_replace, DataID_from_dict, DataID_call, dict_update. simpl.
    rewrite C. eexists. reflexivity.
  - intro C.
    destruct (init_hash_none id_keys raw a H) as [Hh [Ho Fx]].
    destruct (fix_id_keys_again id_keys (_id_keys a) Fx) as [K Fx2].
    assert (N2 : NoDup (map fst (_id_keys a))) by (rewrite K; exact N).
    (* the same items under the fixed keys *)
    assert (H0 : DataID_init (_id_keys a) raw
                 = Ok (mkDataID None (_id_keys a) (_id_keys a) (items a))).
    { unfold DataID_init in H |- *. rewrite Fx in H. rewrite Fx2. simpl in *.
      destruct (match raw with [] => Ok [] | _ :: _ => convert_dict (_id_keys a) raw end)
        as [res |]; [| discriminate H].
      simpl in *. injection H as H1. apply (f_equal items) in H1. simpl in H1.
      rewrite H1. reflexivity. }
    destruct (init_rebuild (fun v => v) (fun v => eq_refl) (fun v => eq_refl)
                (fun t v v' C => ex_intro _ v' (conj (convert_twice t v v' C) eq_refl))
                (_id_keys a) (_id_keys a) raw _ N2 Fx2 Nn H0) as [a' [H' [S Na]]].
    simpl in H', S, Na. rewrite dict_map_id in H'.
    exists a'. unfold DataID_replace, DataID_from_dict, DataID_call, dict_update. simpl.
    rewrite C.
    split; [exact H' |].
    split; [apply (dict_sim_eq _ _ S Na) |].
    split; [apply (dict_sim_keys _ _ S) |].
    destruct (init_hash_none _ _ a' H') as [Hh' _].
    apply (hash_of_sim hash_str hash_num hash_none hash_tuple a' a Hh' Hh S Na).
Qed.

Lemma replace_nothing_witness :
  exists a a',
    DataID_init default_id_keys_config example_raw_full = Ok a /\
    DataID_replace a [] = Ok a' /\
    DataID_eq a' a = true.
Proof.
  assert (I : exists a, DataID_init default_id_keys_config example_raw_full = Ok a /\
                        keyword_clash (items a) = false)
    by (eexists; split; reflexivity).
  destruct I as [a [Ha Hc]]. exists a.
  destruct (replace_nothing example_hash_str example_hash_num 0%Z
              example_hash_tuple default_id_keys_config example_raw_full a)
    as [_ R].
  - simpl. repeat constructor; simpl; intuition discriminate.
  - intros k v [E | [E | [E | [E | []]]]]; inversion E; reflexivity.
  - exact Ha.
  - destruct (R Hc) as [a' [H1 [H2 _]]]. exists a'. repeat split; assumption.
Defined.

(** ** Matching and filtering *)

Lemma in_fields_get (q : DataQuery) (key : string) :
  in_fields q key = true -> exists val, In (key, val) (_dict q) /\
                                        dict_mem (_dict q) key = true.
Proof.
  unfold in_fields, _fields. intro H. apply existsb_exists in H.
  destruct H as [k [I E]]. apply String.eqb_eq in E. subst k.
  assert (M : dict_mem (_dict q) key = true) by (apply dict_mem_keys; exact I).
  unfold dict_mem in M. destruct (dict_get (_dict q) key) as [val |] eqn:G;
    [| discriminate M].
  exists val. split; [apply (@dict_get_In value (_dict q) key val G) |].
  unfold dict_mem. rewrite G. reflexivity.
Qed.

Lemma keys_to_check_in (q : DataQuery) (d : DataID) (key : string) :
  In key (keys_to_check q d) <->
  in_fields q key = true /\
  In key (if _shares_required_keys q d then dict_keys (items d)
          else map fst (_id_keys d)).
Proof.
  unfold keys_to_check. rewrite nodup_In, filter_In. tauto.
Qed.

(** A checked key is a field of the query, so the lookup of line 679 never
    raises. *)
Lemma all_match_total (q : DataQuery) (d : DataID) (keys : list string) :
  (forall key, In key keys -> in_fields q key = true) ->
  exists b, all_match q d keys = Ok b.
Proof.
  induction keys as [| key rest IH]; intro H; simpl.
  - exists true. reflexivity.
  - destruct (in_fields_get q key (H key (or_introl eq_refl))) as [val [_ M]].
    unfold _match_query_value, dict_mem in *.
    destruct (dict_get (_dict q) key) as [val' |]; [| discriminate M].
    assert (R : exists b, all_match q d rest = Ok b).
    { apply IH. intros k I. apply H. right. exact I. }
    destruct R as [b Hb].
    destruct (py_eq val' wildcard); simpl; [exists b; exact Hb |].
    destruct (as_tuple (dict_get_default (items d) key VNone));
      [destruct (seq_items val') |]; simpl;
      match goal with
      | |- exists _, (if ?c then _ else _) = _ =>
          destruct c; [exists b; exact Hb | exists false; reflexivity]
      end.
Qed.

Lemma all_match_wildcard (q : DataQuery) (d : DataID) (keys : list string) :
  all_wildcard q ->
  (forall key, In key keys -> in_fields q key = true) ->
  all_match q d keys = Ok true.
Proof.
  intros W. induction keys as [| key rest IH]; intro H; simpl; [reflexivity |].
  destruct (in_fields_get q key (H key (or_introl eq_refl))) as [val [_ M]].
  unfold _match_query_value, dict_mem in *.
  destruct (dict_get (_dict q) key) as [val' |] eqn:G; [| discriminate M].
  rewrite (W key val' (@dict_get_In value (_dict q) key val' G)). simpl.
  apply IH. intros k I. apply H. right. exact I.
Qed.

(** Matching never raises; a query without a field to check matches
    nothing; and a query whose values are all wildcards matches every
    identifier that has one of its fields, among its items and in its
    schema, so [filter_dataids] keeps each such identifier. *)
Theorem wildcard_query_matches (iter : list string -> list string) (q : DataQuery) :
  (forall l x, In x (iter l) <-> In x l) ->
  (forall d, exists b, _match_dataid iter q d = Ok b) /\
  (forall d, keys_to_check q d = [] -> _match_dataid iter q d = Ok false) /\
  (all_wildcard q ->
   forall d key,
     in_fields q key = true ->
     dict_mem (items d) key = true ->
     In key (map fst (_id_keys d)) ->
     _match_dataid iter q d = Ok true) /\
  (all_wildcard q ->
   forall ds, exists r,
     filter_dataids iter q ds = Ok r /\
     forall d key,
       In d ds -> in_fields q key = true -> dict_mem (items d) key = true ->
       In key (map fst (_id_keys d)) -> In d r).
Proof.
  intro Hiter.
  assert (Sub : forall d key, In key (iter (keys_to_check q d)) -> in_fields q key = true).
  { intros d key I. apply (proj1 (Hiter _ _)) in I.
    apply (proj1 (keys_to_check_in q d key)) in I. tauto. }
  assert (Tot : forall d, exists b, _match_dataid iter q d = Ok b).
  { intro d. unfold _match_dataid.
    destruct (iter (keys_to_check q d)) as [| k ks] eqn:E; [exists false; reflexivity |].
    apply all_match_total. intros key I. apply (Sub d). rewrite E. exact I. }
  assert (Wild : all_wildcard q ->
                 forall d key,
                   in_fields q key = true ->
                   dict_mem (items d) key = true ->
                   In key (map fst (_id_keys d)) ->
                   _match_dataid iter q d = Ok true).
  { intros W d key F M S. unfold _match_dataid.
    assert (I : In key (iter (keys_to_check q d))).
    { apply Hiter. apply keys_to_check_in. split; [exact F |].
      destruct (_shares_required_keys q d); [apply dict_mem_keys; exact M | exact S]. }
    destruct (iter (keys_to_check q d)) as [| k ks] eqn:E; [destruct I |].
    apply (all_match_wildcard q d (k :: ks) W).
    intros key' I'. apply (Sub d). rewrite E. exact I'. }
  split; [exact Tot |]. split; [| split; [exact Wild |]].
  - intros d E. unfold _match_dataid. rewrite E.
    destruct (iter []) as [| x l] eqn:Ei; [reflexivity |].
    exfalso. apply (Hiter [] x). rewrite Ei. left. reflexivity.
  - intros W ds. induction ds as [| d0 ds [r [Hr Hin]]]; simpl.
    + exists []. split; [reflexivity | intros ? ? []].
    + destruct (Tot d0) as [b Hb]. rewrite Hb, Hr. simpl.
      exists (if b then d0 :: r else r). split; [reflexivity |].
      intros d key [E | I] F M S.
      * subst d0. rewrite (Wild W d key F M S) in Hb. inversion Hb; subst b.
        left. reflexivity.
      * destruct b; [right |]; apply (Hin d key I F M S).
Qed.

Lemma wildcard_query_matches_witness :
  all_wildcard example_query_wild /\
  _match_dataid (fun l => l) example_query_wild example_id_coarse = Ok true.
Proof.
  assert (W : all_wildcard example_query_wild).
  { intros k v [E | []]. inversion E. reflexivity. }
  split; [exact W |].
  destruct (wildcard_query_matches (fun l => l) example_query_wild) as [_ [_ [M _]]].
  - intros l x. split; intro H; exact H.
  - apply (M W example_id_coarse "name"%string); [reflexivity | reflexivity |].
    left. reflexivity.
Defined.

(** ** Derived queries *)









(** ** The keys gathered from a config *)

(** [get_keys_from_config] keeps, in their order, the fields that the config
    has or that are required or have a non-null default; it raises exactly
    when there is no such field, so its result is never empty and always
    holds every required field. *)
Theorem keys_from_config (V : Type) (common_id_keys : schema) (config : assoc V) :
  (get_keys_from_config common_id_keys config
   = Raise (ValueError "Metadata does not contain enough information to create a DataID.")
   <-> forall kv, In kv common_id_keys -> key_from_config config kv = false) /\
  (forall id_keys,
      get_keys_from_config common_id_keys config = Ok id_keys ->
      id_keys <> [] /\
      id_keys = filter (key_from_config config) common_id_keys /\
      (forall k e, In (k, Some e) common_id_keys -> required_truthy e = true ->
                   In (k, Some e) id_keys) /\
      (forall k entry, In (k, entry) common_id_keys -> dict_mem config k = true ->
                       In (k, entry) id_keys)).
Proof.
  unfold get_keys_from_config.
  destruct (filter (key_from_config config) common_id_keys) as [| kv0 l] eqn:F.
  - split.
    + split; [| reflexivity]. intros _ kv I.
      destruct (key_from_config config kv) eqn:K; [| reflexivity].
      assert (X : In kv (filter (key_from_config config) common_id_keys))
        by (apply filter_In; split; assumption).
      rewrite F in X. destruct X.
    + intros id_keys H. discriminate H.
  - split.
    + split; [discriminate |]. intro H.
      assert (X : In kv0 (filter (key_from_config config) common_id_keys))
        by (rewrite F; left; reflexivity).
      apply filter_In in X. destruct X as [I K]. rewrite (H kv0 I) in K. discriminate K.
    + intros id_keys H. inversion H; subst id_keys.
      split; [discriminate |]. split; [reflexivity |]. rewrite <- F. split.
      * intros k e I R. apply filter_In. split; [exact I |].
        unfold key_from_config. simpl. rewrite R. simpl. apply orb_true_r.
      * intros k entry I M. apply filter_In. split; [exact I |].
        unfold key_from_config. simpl. rewrite M. reflexivity.
Qed.

Lemma keys_from_config_witness :
  exists id_keys,
    get_keys_from_config default_id_keys_config [("resolution"%string, VNum 500)]
      = Ok id_keys /\
    In ("name"%string, Some (mkKey (Some true) None None None None)) id_keys.
Proof.
  eexists. split; [reflexivity |].
  destruct (keys_from_config value default_id_keys_config
              [("resolution"%string, VNum 500)]) as [_ H].
  destruct (H _ eq_refl) as [_ [_ [R _]]].
  apply R; [left; reflexivity | reflexivity].
Defined.

(** ** Metadata combiner: averages, keys and values *)

Section CombineMore.
Context {obj : Type} {M : MetadataValue obj}.

Lemma timestamps_app (pre post : list obj) (ts : list Q) :
  timestamps pre = Ok ts ->
  timestamps (pre ++ post) = (r <- timestamps post ;; Ok (ts ++ r)).
Proof.
  revert ts. induction pre as [| x pre IH]; intros ts H; simpl in *.
  - inversion H; subst ts. destruct (timestamps post); reflexivity.
  - destruct (datetime_timestamp x) as [t |]; [| discriminate H]. simpl in *.
    destruct (timestamps pre) as [r |]; [| discriminate H]. simpl in H.
    inversion H; subst ts. rewrite (IH r eq_refl).
    destruct (timestamps post); reflexivity.
Qed.

(** There is no average of nothing: the empty list ends in a division by
    zero. The first value that is no datetime, or whose timestamp raises,
    ends the averaging with its error. Otherwise the outcome is that of
    [datetime.fromtimestamp] at the mean of the timestamps, its errors
    included. *)
Theorem average_datetimes_errors (dt_list : list obj) :
  average_datetimes ([] : list obj) = Raise ZeroDivisionError /\
  (forall pre dt post ts,
      dt_list = pre ++ dt :: post ->
      timestamps pre = Ok ts ->
      is_datetime dt = false ->
      exists msg, average_datetimes dt_list = Raise (TypeError msg)) /\
  (forall pre dt post ts e,
      dt_list = pre ++ dt :: post ->
      timestamps pre = Ok ts ->
      is_datetime dt = true ->
      timestamp dt = Raise e ->
      average_datetimes dt_list = Raise e) /\
  (forall ts,
      timestamps dt_list = Ok ts ->
      dt_list <> [] ->
      average_datetimes dt_list = fromtimestamp (mean ts) /\
      length ts = length dt_list).
Proof.
  split; [reflexivity |]. split; [| split].
  - intros pre dt post ts E Hpre Hd. subst dt_list. unfold average_datetimes.
    rewrite (timestamps_app pre (dt :: post) ts Hpre). simpl.
    unfold datetime_timestamp. rewrite Hd. simpl. eexists. reflexivity.
  - intros pre dt post ts e E Hpre Hd Ht. subst dt_list. unfold average_datetimes.
    rewrite (timestamps_app pre (dt :: post) ts Hpre). simpl.
    unfold datetime_timestamp. rewrite Hd, Ht. reflexivity.
  - intros ts Hts Ne. unfold average_datetimes. rewrite Hts. simpl.
    assert (L : length ts = length dt_list).
    { clear Ne. revert ts Hts. induction dt_list as [| x l IH]; intros ts Hts; simpl in Hts.
      - inversion Hts. reflexivity.
      - destruct (datetime_timestamp x) as [t |]; [| discriminate Hts]. simpl in Hts.
        destruct (timestamps l) as [r |]; [| discriminate Hts]. simpl in Hts.
        inversion Hts; subst ts. simpl. rewrite (IH r eq_refl). reflexivity. }
    split; [| exact L].
    destruct ts as [| t ts']; [| reflexivity].
    destruct dt_list; [contradiction | discriminate L].
Qed.

Lemma combine_keys_value (k : string) (keys : list string) (infos : list (assoc obj))
  (average_times : bool) :
  forall (acc res : assoc obj) (v : obj),
    combine_keys keys infos average_times acc = Ok res ->
    dict_get res k = Some v ->
    dict_get acc k = Some v \/
    exists v0 rest,
      values_for k infos = Ok (v0 :: rest) /\
      (v = v0 \/
       (average_times = true /\ str_in "time" k = true /\ is_datetime v0 = true /\
        average_datetimes (v0 :: rest) = Ok v)).
Proof.
  induction keys as [| k' rest IH]; intros acc res v H G; simpl in H.
  - inversion H; subst. left. exact G.
  - destruct (values_for k' infos) as [values |] eqn:V; [| discriminate H].
    simpl in H.
    destruct (_share_metadata_key k' values average_times) as [[|] |];
      simpl in H; try discriminate H.
    + destruct values as [| v0 vs]; [discriminate H |].
      assert (Step : forall w,
                 combine_keys rest infos average_times (dict_set acc k' w) = Ok res ->
                 (v = w -> k' = k ->
                  v = v0 \/
                  (average_times = true /\ str_in "time" k = true /\
                   is_datetime v0 = true /\ average_datetimes (v0 :: vs) = Ok v)) ->
                 dict_get acc k = Some v \/
                 exists v1 rest1,
                   values_for k infos = Ok (v1 :: rest1) /\
                   (v = v1 \/
                    (average_times = true /\ str_in "time" k = true /\
                     is_datetime v1 = true /\ average_datetimes (v1 :: rest1) = Ok v))).
      { intros w Hw Hv. destruct (IH _ _ v Hw G) as [A | A]; [| right; exact A].
        destruct (String.eqb k' k) eqn:E.
        - apply String.eqb_eq in E. subst k'. rewrite dict_get_set_same in A.
          inversion A; subst w. right. exists v0, vs. split; [exact V |].
          apply Hv; reflexivity.
        - apply String.eqb_neq in E. rewrite (dict_get_set_other acc w E) in A.
          left. exact A. }
      destruct (str_in "time" k' && is_datetime v0 && average_times) eqn:T.
      * destruct (average_datetimes (v0 :: vs)) as [avg |] eqn:A; [| discriminate H].
        simpl in H. apply (Step avg H). intros Ev Ek. subst avg k'. right.
        apply andb_true_iff in T. destruct T as [T T3].
        apply andb_true_iff in T. destruct T as [T1 T2]. tauto.
      * apply (Step v0 H). intros Ev _. left. exact Ev.
    + apply (IH _ _ v H G).
Qed.

(** A single value is shared once the test of lines 333-337 has been made
    of it, and raises what that test raises. *)
Lemma share_single (k : string) (v : obj) (average_times : bool) :
  _share_metadata_key k [v] average_times
  = (b <- is_list_of_arrays v ;; Ok true).
Proof.
  unfold _share_metadata_key. simpl.
  destruct (is_list_of_arrays v) as [b | e]; simpl; [| reflexivity].
  destruct (has_array v); simpl; [reflexivity |].
  rewrite orb_false_r. destruct b; simpl; [reflexivity |].
  destruct (str_in "time" k && is_datetime v && average_times); reflexivity.
Qed.

Lemma combine_keys_single (d : assoc obj) (average_times : bool) (keys : list string) :
  (forall k, In k keys -> dict_mem d k = true) ->
  (forall k v, dict_get d k = Some v -> exists b, is_list_of_arrays v = Ok b) ->
  (forall k v, dict_get d k = Some v ->
               (str_in "time" k && is_datetime v && average_times) = true ->
               exists a, average_datetimes [v] = Ok a) ->
  forall acc, exists res, combine_keys keys [d] average_times acc = Ok res.
Proof.
  intros H Hl Ha. induction keys as [| k rest IH]; intro acc; simpl.
  - exists acc. reflexivity.
  - pose proof (H k (or_introl eq_refl)) as Mk. unfold dict_mem in Mk.
    destruct (dict_get d k) as [v |] eqn:G; [| discriminate Mk]. simpl.
    rewrite share_single. destruct (Hl k v G) as [b Hb]. rewrite Hb. simpl.
    assert (R : forall acc', exists res, combine_keys rest [d] average_times acc' = Ok res).
    { apply IH. intros k0 I. apply H. right. exact I. }
    destruct (str_in "time" k && is_datetime v && average_times) eqn:T; [| apply R].
    destruct (Ha k v G T) as [a Hav]. rewrite Hav. simpl. apply R.
Qed.

(** A raise at one of the keys is a raise of the whole loop. *)
Lemma combine_keys_raises (k : string) (keys : list string) (infos : list (assoc obj))
  (average_times : bool) (values : list obj) (e : pyerr) :
  In k keys ->
  values_for k infos = Ok values ->
  _share_metadata_key k values average_times = Raise e ->
  forall acc, exists e', combine_keys keys infos average_times acc = Raise e'.
Proof.
  intros I V S. induction keys as [| k' rest IH]; [destruct I |]. intro acc. simpl.
  destruct (values_for k' infos) as [values' |] eqn:V'; [| eexists; reflexivity].
  simpl.
  destruct (_share_metadata_key k' values' average_times) as [share |] eqn:S';
    [| eexists; reflexivity].
  simpl.
  assert (R : forall acc', exists e', combine_keys rest infos average_times acc' = Raise e').
  { destruct I as [E | I]; [| apply IH; exact I].
    subst k'. rewrite V in V'. inversion V'; subst values'.
    rewrite S in S'. discriminate S'. }
  destruct share; [| apply R].
  destruct values' as [| v0 vs]; [eexists; reflexivity |].
  destruct (str_in "time" k' && is_datetime v0 && average_times); [| apply R].
  destruct (average_datetimes (v0 :: vs)) as [avg |]; [| eexists; reflexivity].
  simpl. apply R.
Qed.

(** What the merged mapping holds. A key of the result is a key of every
    input mapping, and its value is the first input's value for that key,
    or, when averaging is on and the key has [time] in its name and the
    first value is a datetime, the average of the inputs' datetimes. *)
Theorem combine_result_sound (iter : list string -> list string)
  (objs : list (metadata_object obj)) (average_times : bool) (res : assoc obj) :
  (forall l x, In x (iter l) -> In x l) ->
  combine_metadata iter objs average_times = Ok res ->
  (forall k, dict_mem res k = true ->
             mappings objs <> [] /\
             forall d, In d (mappings objs) -> dict_mem d k = true) /\
  (forall k v, dict_get res k = Some v ->
               exists v0 rest,
                 values_for k (mappings objs) = Ok (v0 :: rest) /\
                 (v = v0 \/
                  (average_times = true /\ str_in "time" k = true /\
                   is_datetime v0 = true /\ average_datetimes (v0 :: rest) = Ok v))).
Proof.
  intros Hiter H. unfold combine_metadata in H.
  destruct (@gather_spec obj M objs None []) as [G1 [G2 G3]].
  destruct (gather objs None []) as [sk infos]. simpl in G1, G2, G3. subst infos.
  destruct sk as [ks |]; [| discriminate H]. split.
  - intros k Mk.
    apply (@combine_keys_mem obj M k (iter ks) (mappings objs) average_times [] res H)
      in Mk.
    destruct Mk as [F | [I _]]; [discriminate F |].
    apply Hiter in I. apply (G2 k) in I. destruct I as [_ A]. split; [| exact A].
    intro E. assert (X : Some ks = None :> option (list string)).
    { apply G3. split; [reflexivity | exact E]. }
    discriminate X.
  - intros k v G.
    destruct (combine_keys_value k (iter ks) (mappings objs) average_times [] res v H G)
      as [F | A]; [discriminate F | exact A].
Qed.

(** Merging a single mapping. It raises when the test of lines 333-337
    raises for one of its values, such as a Collection without a length.
    When that test passes for every value, and the datetimes to average
    have an average, the merge returns a mapping with exactly the keys of
    the input. *)
Theorem combine_single_input (iter : list string -> list string)
  (o : metadata_object obj) (d : assoc obj) (average_times : bool) :
  (forall l x, In x (iter l) <-> In x l) ->
  mapping_of o = Some d ->
  ((forall k v, dict_get d k = Some v -> exists b, is_list_of_arrays v = Ok b) ->
   (forall k v, dict_get d k = Some v ->
                (str_in "time" k && is_datetime v && average_times) = true ->
                exists a, average_datetimes [v] = Ok a) ->
   exists res,
     combine_metadata iter [o] average_times = Ok res /\
     forall k, dict_mem res k = true <-> dict_mem d k = true) /\
  (forall k v e,
      dict_get d k = Some v ->
      is_list_of_arrays v = Raise e ->
      exists e', combine_metadata iter [o] average_times = Raise e').
Proof.
  intros Hiter Ho.
  assert (Ks : forall k, In k (iter (nodup string_dec (dict_keys d))) <->
                         dict_mem d k = true).
  { intro k. rewrite Hiter, nodup_In, dict_mem_keys. tauto. }
  split.
  - intros Hl Ha. unfold combine_metadata. simpl. rewrite Ho. simpl.
    destruct (combine_keys_single d average_times (iter (nodup string_dec (dict_keys d)))
                (fun k I => proj1 (Ks k) I) Hl Ha []) as [res Hres].
    exists res. split; [exact Hres |]. intro k.
    rewrite (@combine_keys_mem obj M k _ [d] average_times [] res Hres). split.
    + intros [F | [I _]]; [discriminate F | apply Ks; exact I].
    + intro Mk. right. split; [apply Ks; exact Mk |].
      unfold dict_mem in Mk. destruct (dict_get d k) as [v |] eqn:G; [| discriminate Mk].
      exists [v]. split; [simpl; rewrite G; reflexivity |].
      rewrite share_single. destruct (Hl k v G) as [b Hb]. rewrite Hb. reflexivity.
  - intros k v e G Hr. unfold combine_metadata. simpl. rewrite Ho. simpl.
    apply (combine_keys_raises k (iter (nodup string_dec (dict_keys d))) [d] average_times
             [v] e).
    + apply Ks. unfold dict_mem. rewrite G. reflexivity.
    + simpl. rewrite G. reflexivity.
    + rewrite share_single, Hr. reflexivity.
Qed.
End CombineMore.

Lemma average_datetimes_errors_witness :
  exists msg,
    average_datetimes [mkObj 1 (CDatetime 10); mkObj 2 (CPlain (VStr "noon"))]
    = Raise (TypeError msg).
Proof.
  destruct (average_datetimes_errors (M := pyobj_value)
              [mkObj 1 (CDatetime 10); mkObj 2 (CPlain (VStr "noon"))]) as [_ [T _]].
  apply (T [mkObj 1 (CDatetime 10)] (mkObj 2 (CPlain (VStr "noon"))) [] [10]);
    reflexivity.
Defined.

Lemma combine_result_sound_witness :
  combine_metadata (fun l => l) example_inputs_same true
    = Ok [("area"%string, example_array_1)] /\
  exists v0 rest,
    values_for "area" (mappings example_inputs_same) = Ok (v0 :: rest) /\
    (example_array_1 = v0 \/
     (true = true /\ str_in "time" "area" = true /\
      is_datetime v0 = true /\ average_datetimes (v0 :: rest) = Ok example_array_1)).
Proof.
  split; [reflexivity |].
  destruct (combine_result_sound (M := pyobj_value) (fun l => l) example_inputs_same true
              [("area"%string, example_array_1)]) as [_ V].
  - intros l x H. exact H.
  - reflexivity.
  - apply (V "area"%string example_array_1). reflexivity.
Defined.

Lemma combine_single_input_witness :
  (exists res,
     combine_metadata (fun l => l) [MDict [("area"%string, example_array_1)]] true = Ok res /\
     forall k, dict_mem res k = true <->
               dict_mem [("area"%string, example_array_1)] k = true) /\
  exists e',
    combine_metadata (fun l => l) [MDict [("offset"%string, example_array_0d)]] true
    = Raise e'.
Proof.
  split.
  - destruct (combine_single_input (M := pyobj_value) (fun l => l)
                (MDict [("area"%string, example_array_1)])
                [("area"%string, example_array_1)] true) as [K _].
    + intros l x. split; intro H; exact H.
    + reflexivity.
    + apply K.
      * intros k v G. cbn [dict_get] in G.
        destruct (String.eqb "area" k); [| discriminate G].
        inversion G; subst v. eexists. reflexivity.
      * intros k v G T. cbn [dict_get] in G.
        destruct (String.eqb "area" k); [| discriminate G].
        inversion G; subst v. rewrite andb_false_r in T. discriminate T.
  - destruct (combine_single_input (M := pyobj_value) (fun l => l)
                (MDict [("offset"%string, example_array_0d)])
                [("offset"%string, example_array_0d)] true) as [_ R].
    + intros l x. split; intro H; exact H.
    + reflexivity.
    + apply (R "offset"%string example_array_0d (TypeError "len() of unsized object"));
        reflexivity.
Defined.

Section CombinePlain.
Context {obj : Type} {M : MetadataValue obj}.

(** Values that are neither arrays nor lists of arrays, under a key that is
    not averaged: the key is kept exactly when every input's value compares
    equal to the first input's, and then with the first input's value. *)
Theorem combine_plain_values (iter : list string -> list string)
  (objs : list (metadata_object obj)) (average_times : bool) (k : string)
  (v0 : obj) (rest : list obj) (res : assoc obj) :
  (forall l x, In x (iter l) <-> In x l) ->
  values_for k (mappings objs) = Ok (v0 :: rest) ->
  existsb has_array (v0 :: rest) = false ->
  (forall tests, list_of_arrays_tests (v0 :: rest) = Ok tests ->
                 existsb (fun b => b) tests = false) ->
  (str_in "time" k && is_datetime v0 && average_times) = false ->
  combine_metadata iter objs average_times = Ok res ->
  (dict_mem res k = true <-> all_equal v0 rest = Ok true) /\
  (dict_mem res k = true -> dict_get res k = Some v0).
Proof.
  intros Hiter Hvals Harr Hlist Htime Hres.
  unfold combine_metadata in Hres.
  destruct (@gather_spec obj M objs None []) as [G1 [G2 G3]].
  destruct (gather objs None []) as [sk infos]. simpl in G1, G2, G3. subst infos.
  destruct sk as [ks |]; [| discriminate Hres].
  assert (Hk : In k (iter ks)).
  { apply Hiter. apply (G2 k). split; [exact I |].
    apply (@values_for_all_have obj k (mappings objs) (v0 :: rest) Hvals). }
  assert (Sh : _share_metadata_key k (v0 :: rest) average_times = all_equal v0 rest).
  { destruct (@combine_keys_shared obj M k (iter ks) (mappings objs) average_times [] res
                Hres Hk) as [values [b [V S]]].
    rewrite Hvals in V. inversion V; subst values.
    destruct (@share_key_ok_tests obj M k (v0 :: rest) average_times b S) as [tests T].
    unfold _share_metadata_key. rewrite T. cbn [bind].
    rewrite Harr, (Hlist tests T), Htime. reflexivity. }
  assert (Val : forall v, dict_get res k = Some v -> v = v0).
  { intros v G.
    destruct (combine_keys_value k (iter ks) (mappings objs) average_times [] res v
                Hres G) as [F | [w0 [rest0 [Hv Hor]]]]; [discriminate F |].
    rewrite Hvals in Hv. assert (Ew : w0 = v0) by congruence. subst w0.
    destruct Hor as [E | [A [T [D _]]]]; [exact E |].
    rewrite T, D, A in Htime. discriminate Htime. }
  split.
  - rewrite (@combine_keys_mem obj M k (iter ks) (mappings objs) average_times [] res Hres).
    split.
    + intros [F | [_ [values [V S]]]]; [discriminate F |].
      rewrite Hvals in V. inversion V; subst values. rewrite Sh in S. exact S.
    + intro A. right. split; [exact Hk |]. exists (v0 :: rest).
      split; [exact Hvals | rewrite Sh; exact A].
  - intro Mk. unfold dict_mem in Mk.
    destruct (dict_get res k) as [v |] eqn:G; [| discriminate Mk].
    rewrite (Val v eq_refl). reflexivity.
Qed.
End CombinePlain.

Lemma combine_plain_values_witness :
  combine_metadata (fun l => l)
    [MDict [("sensor"%string, mkObj 1 (CPlain (VStr "abi")))];
     MDict [("sensor"%string, mkObj 2 (CPlain (VStr "abi")))]] true
    = Ok [("sensor"%string, mkObj 1 (CPlain (VStr "abi")))] /\
  (dict_mem [("sensor"%string, mkObj 1 (CPlain (VStr "abi")))] "sensor" = true <->
   all_equal (mkObj 1 (CPlain (VStr "abi"))) [mkObj 2 (CPlain (VStr "abi"))] = Ok true).
Proof.
  split; [reflexivity |].
  apply (combine_plain_values (M := pyobj_value) (fun l => l)
           [MDict [("sensor"%string, mkObj 1 (CPlain (VStr "abi")))];
            MDict [("sensor"%string, mkObj 2 (CPlain (VStr "abi")))]] true
           "sensor" (mkObj 1 (CPlain (VStr "abi"))) [mkObj 2 (CPlain (VStr "abi"))]).
  - intros l x. split; intro H; exact H.
  - reflexivity.
  - reflexivity.
  - intros tests T. vm_compute in T. inversion T. reflexivity.
  - reflexivity.
  - reflexivity.
Defined.

(** ** The fields of an identifier *)

(** Whatever the raw mapping holds, an identifier only has fields of its
    schema, each once; it keeps the schema it was given and has no cached
    hash yet. Keys of the raw mapping that the schema does not know are
    left out. *)
Theorem identifier_fields (id_keys : schema) (raw : dict) (a : DataID) :
  DataID_init id_keys raw = Ok a ->
  (forall k, dict_mem (items a) k = true -> In k (map fst id_keys)) /\
  (forall k, ~ In k (map fst id_keys) -> dict_get (items a) k = None) /\
  NoDup (dict_keys (items a)) /\
  _orig_id_keys a = id_keys /\
  _hash a = None.
Proof.
  intro H. destruct (init_hash_none id_keys raw a H) as [Hh [Ho Fx]].
  destruct (fix_id_keys_again id_keys (_id_keys a) Fx) as [K _].
  assert (It : items a = [] \/ convert_fields (_id_keys a) raw [] = Ok (items a)).
  { unfold DataID_init in H. rewrite Fx in H. simpl in H.
    destruct raw as [| kv raw'].
    - simpl in H. injection H as H1. apply (f_equal items) in H1. left.
      symmetry. exact H1.
    - simpl in H. destruct (convert_fields (_id_keys a) (kv :: raw') []) as [res |] eqn:C;
        [| discriminate H].
      simpl in H. injection H as H1. apply (f_equal items) in H1. simpl in H1.
      right. rewrite <- H1. reflexivity. }
  assert (Mem : forall k, dict_mem (items a) k = true -> In k (map fst id_keys)).
  { intros k Mk. destruct It as [E | C].
    - rewrite E in Mk. discriminate Mk.
    - apply (@convert_fields_mem (_id_keys a) raw k [] (items a) C) in Mk.
      destruct Mk as [F | [entry [I _]]]; [discriminate F |].
      rewrite <- K. apply (in_map fst _ _ I). }
  split; [exact Mem |]. split; [| split; [| split; assumption]].
  - intros k Ni. destruct (dict_get (items a) k) as [v |] eqn:G; [| reflexivity].
    exfalso. apply Ni. apply Mem. unfold dict_mem. rewrite G. reflexivity.
  - destruct It as [E | C]; [rewrite E; constructor |].
    apply (convert_fields_nodup (_id_keys a) raw [] (items a) (NoDup_nil _) C).
Qed.

Lemma identifier_fields_witness :
  exists a,
    DataID_init default_id_keys_config
      (("platform"%string, VStr "goes") :: example_raw_full) = Ok a /\
    dict_get (items a) "platform" = None.
Proof.
  assert (I : exists a, DataID_init default_id_keys_config
                          (("platform"%string, VStr "goes") :: example_raw_full) = Ok a)
    by (eexists; reflexivity).
  destruct I as [a Ha]. exists a. split; [exact Ha |].
  destruct (identifier_fields default_id_keys_config
              (("platform"%string, VStr "goes") :: example_raw_full) a Ha) as [_ [N _]].
  apply N. simpl. intuition discriminate.
Defined.

(** ** Conversion to WavelengthRange and to ValueList *)

(** Converting to a WavelengthRange keeps the value equal to what it was
    made from, for everything but a list: a scalar passes unchanged, and the
    range made of a tuple equals that tuple. *)
Theorem wavelength_convert_equal (v v' : value) :
  WavelengthRange_convert v = Ok v' ->
  (forall l, v <> VList l) ->
  py_eq v' v = true.
Proof.
  intros H Nl.
  destruct v as [| n | s | name o | w | l | l | l]; simpl in H;
    try (inversion H; subst; apply py_eq_refl).
  - destruct l as [| [a | a] [| [b | b] [| [c | c] [| [u | u] [| ? ?]]]]];
      try discriminate H; inversion H; subst; unfold py_eq; simpl;
      rewrite !Qeq_bool_refl, ?String.eqb_refl; reflexivity.
  - exfalso. apply (Nl l). reflexivity.
  - destruct l as [| [a | a] [| [b | b] [| [c | c] [| [u | u] [| ? ?]]]]];
      try discriminate H; inversion H; subst; unfold py_eq; simpl;
      rewrite !Qeq_bool_refl, ?String.eqb_refl; reflexivity.
Qed.

Lemma wavelength_convert_equal_witness :
  py_eq (VWl (mkWl 1 2 3 "µm")) (VTuple [ANum 1; ANum 2; ANum 3]) = true.
Proof.
  apply (wavelength_convert_equal (VTuple [ANum 1; ANum 2; ANum 3])).
  - reflexivity.
  - intros l E. discriminate E.
Defined.

Lemma enum_ordinal_spec (names : list string) (s : string) :
  forall from,
    (enum_ordinal names s from = None <-> ~ In s names) /\
    (forall o, enum_ordinal names s from = Some o ->
               (from <= o < from + Z.of_nat (length names))%Z /\
               nth_error names (Z.to_nat (o - from)) = Some s).
Proof.
  induction names as [| n rest IH]; intro from; simpl.
  - split; [tauto | discriminate].
  - destruct (String.eqb n s) eqn:E.
    + apply String.eqb_eq in E. subst n. split.
      * split; [discriminate | intro N; exfalso; apply N; left; reflexivity].
      * intros o H. inversion H; subst o. split; [lia |].
        rewrite Z.sub_diag. reflexivity.
    + apply String.eqb_neq in E. destruct (IH (from + 1)%Z) as [I1 I2]. split.
      * rewrite I1. tauto.
      * intros o H. destruct (I2 o H) as [B Nth]. split; [lia |].
        replace (Z.to_nat (o - from)) with (S (Z.to_nat (o - (from + 1)))) by lia.
        exact Nth.
Qed.

(** Converting a name to a ValueList fails exactly when the name is not in
    the enumeration; otherwise it gives the member of that name whose
    ordinal is the position of the name, counted from 1. *)
Theorem valuelist_convert_ordinal (names : list string) (s : string) :
  (ValueList_convert names (VStr s) = Raise invalid_enum_value <-> ~ In s names) /\
  (forall v, ValueList_convert names (VStr s) = Ok v ->
             exists o, v = VEnum s o /\
                       (1 <= o <= Z.of_nat (length names))%Z /\
                       nth_error names (Z.to_nat (o - 1)) = Some s).
Proof.
  destruct (enum_ordinal_spec names s 1) as [I1 I2]. simpl. split.
  - rewrite <- I1. destruct (enum_ordinal names s 1); split; congruence.
  - intros v H. destruct (enum_ordinal names s 1) as [o |]; [| discriminate H].
    inversion H; subst v. destruct (I2 o eq_refl) as [B Nth].
    exists o. split; [reflexivity |]. split; [lia | exact Nth].
Qed.

Lemma valuelist_convert_ordinal_witness :
  exists o,
    VEnum "radiance" 3 = VEnum "radiance" o /\
    (1 <= o <= 4)%Z /\
    nth_error ["reflectance"; "brightness_temperature"; "radiance"; "counts"]%string
      (Z.to_nat (o - 1)) = Some "radiance"%string.
Proof.
  apply (valuelist_convert_ordinal
           ["reflectance"; "brightness_temperature"; "radiance"; "counts"]%string
           "radiance").
  reflexivity.
Defined.

(** ** The hash of a query *)

Lemma string_ltb_trans (a b c : string) :
  String.ltb a b = true -> String.ltb b c = true -> String.ltb a c = true.
Proof.
  unfold String.ltb.
  destruct (String.compare a b) eqn:E1; try discriminate.
  destruct (String.compare b c) eqn:E2; try discriminate.
  intros _ _.
  pose proof (proj1 (OrderedTypeEx.String_as_OT.cmp_lt a b) E1) as L1.
  pose proof (proj1 (OrderedTypeEx.String_as_OT.cmp_lt b c) E2) as L2.
  pose proof (proj2 (OrderedTypeEx.String_as_OT.cmp_lt a c)
                (OrderedTypeEx.String_as_OT.lt_trans a b c L1 L2)) as L.
  unfold OrderedTypeEx.String_as_OT.cmp in L. rewrite L. reflexivity.
Qed.

Lemma string_ltb_total (a b : string) :
  a <> b -> String.ltb a b = false -> String.ltb b a = true.
Proof.
  unfold String.ltb. intros N. rewrite (String.compare_antisym b a).
  destruct (String.compare a b) eqn:E; simpl; try discriminate; try reflexivity.
  intros _. exfalso. apply N. apply String.compare_eq_iff. exact E.
Qed.


Lemma key_le_trans (a b c : string * value) : key_le a b -> key_le b c -> key_le a c.
Proof.
  unfold key_le. intros [E1 | L1] [E2 | L2].
  - left. congruence.
  - right. rewrite E1. exact L2.
  - right. rewrite <- E2. exact L1.
  - right. exact (string_ltb_trans _ _ _ L1 L2).
Qed.

Lemma item_lt_true (y x : string * value) : item_lt y x = Ok true -> key_le y x.
Proof.
  unfold item_lt, key_le. destruct (String.eqb (fst y) (fst x)) eqn:E.
  - intros _. left. apply String.eqb_eq. exact E.
  - intro H. right. congruence.
Qed.

Lemma item_lt_false (y x : string * value) : item_lt y x = Ok false -> key_le x y.
Proof.
  unfold item_lt, key_le. destruct (String.eqb (fst y) (fst x)) eqn:E.
  - intros _. left. symmetry. apply String.eqb_eq. exact E.
  - intro H. right. apply String.eqb_neq in E.
    apply string_ltb_total; [exact E | congruence].
Qed.

Lemma dict_sim_refl (l : dict) : dict_sim l l.
Proof.
  unfold dict_sim. induction l as [| x l IH]; constructor; [| exact IH].
  split; reflexivity.
Qed.

(** The items of a dict always sort: into a permutation in the order of
    the keys. *)
Lemma py_sorted_items (l : dict) :
  NoDup (dict_keys l) ->
  exists r, py_sorted item_lt l = Ok r /\ Permutation r l /\
            StronglySorted key_le r /\ NoDup (dict_keys r).
Proof.
  intro N.
  destruct (py_sorted_sim l l (dict_sim_refl l) N) as [r' [r [E1 [E2 _]]]].
  exists r. split; [exact E2 |].
  pose proof (@py_sorted_perm _ item_lt l r E2) as P.
  split; [exact P |]. split.
  - apply (@py_sorted_sorted _ item_lt key_le key_le_trans item_lt_true item_lt_false l r E2).
  - unfold dict_keys.
    apply (Permutation_NoDup (Permutation_sym (Permutation_map fst P))). exact N.
Qed.

(** Inserting among sorted items and leaving items out commute. *)
Lemma insert_sorted_filter (p : string * value -> bool) (x : string * value) :
  forall l r,
    StronglySorted key_le l ->
    (forall y, In y l -> fst y <> fst x) ->
    insert_sorted item_lt x l = Ok r ->
    if p x then insert_sorted item_lt x (filter p l) = Ok (filter p r)
    else filter p r = filter p l.
Proof.
  induction l as [| y l IH]; intros r S D H; simpl in H.
  - inversion H; subst r. simpl. destruct (p x); reflexivity.
  - assert (Ny : fst y <> fst x) by (apply D; left; reflexivity).
    rewrite (item_lt_keys y x Ny) in H. simpl in H.
    inversion S as [| ? ? S' Hy]; subst.
    destruct (String.ltb (fst y) (fst x)) eqn:L.
    + destruct (insert_sorted item_lt x l) as [r0 |] eqn:I; [| discriminate H].
      simpl in H. inversion H; subst r.
      assert (D' : forall z, In z l -> fst z <> fst x) by (intros z Iz; apply D; right; exact Iz).
      specialize (IH r0 S' D' eq_refl).
      simpl. destruct (p x) eqn:Px.
      * destruct (p y) eqn:Py.
        -- simpl. rewrite (item_lt_keys y x Ny), L. simpl. rewrite IH. reflexivity.
        -- exact IH.
      * destruct (p y); [rewrite IH; reflexivity | exact IH].
    + inversion H; subst r. destruct (p x) eqn:Px.
      * change (filter p (x :: y :: l)) with (if p x then x :: filter p (y :: l)
                                              else filter p (y :: l)).
        rewrite Px.
        destruct (filter p (y :: l)) as [| z fl] eqn:F; [reflexivity |].
        assert (Iz : In z (y :: l)).
        { apply (proj1 (filter_In p z (y :: l))). rewrite F. left. reflexivity. }
        assert (Nz : fst z <> fst x) by (apply D; exact Iz).
        simpl. rewrite (item_lt_keys z x Nz).
        assert (Lz : String.ltb (fst z) (fst x) = false).
        { destruct (String.ltb (fst z) (fst x)) eqn:Lz; [| reflexivity].
          exfalso. destruct Iz as [Ez | Iz].
          - subst z. congruence.
          - rewrite Forall_forall in Hy. destruct (Hy z Iz) as [E | Lyz].
            + rewrite E in L. congruence.
            + rewrite (string_ltb_trans _ _ _ Lyz Lz) in L. discriminate L. }
        rewrite Lz. reflexivity.
      * change (filter p (x :: y :: l)) with (if p x then x :: filter p (y :: l)
                                              else filter p (y :: l)).
        rewrite Px. reflexivity.
Qed.

(** Sorting the items and leaving items out commute. *)
Lemma py_sorted_filter (p : string * value -> bool) (l : dict) :
  NoDup (dict_keys l) ->
  forall r, py_sorted item_lt l = Ok r -> py_sorted item_lt (filter p l) = Ok (filter p r).
Proof.
  induction l as [| x l IH]; intros N r H; simpl in H.
  - inversion H; subst r. reflexivity.
  - unfold dict_keys in N. simpl in N. inversion N as [| ? ? Nx Nl]; subst.
    destruct (py_sorted_items l Nl) as [r0 [E0 [P0 [S0 _]]]].
    rewrite E0 in H. simpl in H.
    assert (D : forall y, In y r0 -> fst y <> fst x).
    { intros y Iy E. apply Nx. rewrite <- E. apply (in_map fst l y).
      apply (Permutation_in y P0 Iy). }
    pose proof (insert_sorted_filter p x r0 r S0 D H) as C.
    specialize (IH Nl r0 E0).
    simpl. destruct (p x).
    + simpl. rewrite IH. simpl. exact C.
    + rewrite IH, C. reflexivity.
Qed.

(** Items sorted by their keys, with unique keys, are in one order only. *)
Lemma sorted_items_unique (r r' : dict) :
  StronglySorted key_le r -> StronglySorted key_le r' ->
  NoDup (dict_keys r) -> Permutation r r' -> r = r'.
Proof.
  revert r'. induction r as [| a r IH]; intros r' S S' N P.
  - apply Permutation_nil in P. subst r'. reflexivity.
  - destruct r' as [| b r'].
    { apply Permutation_sym, Permutation_nil in P. discriminate P. }
    inversion S as [| ? ? Sr Ha]; subst. inversion S' as [| ? ? Sr' Hb]; subst.
    unfold dict_keys in N. simpl in N. inversion N as [| ? ? Na Nr]; subst.
    assert (N' : NoDup (map fst (b :: r'))).
    { apply (Permutation_NoDup (Permutation_map fst P)). simpl. exact N. }
    simpl in N'. inversion N' as [| ? ? Nb Nr']; subst.
    assert (E : a = b).
    { assert (Ia : In a (b :: r')) by (apply (Permutation_in a P); left; reflexivity).
      assert (Ib : In b (a :: r))
        by (apply (Permutation_in b (Permutation_sym P)); left; reflexivity).
      destruct Ia as [Ea | Ia]; [symmetry; exact Ea |].
      destruct Ib as [Eb | Ib]; [exact Eb |].
      exfalso.
      rewrite Forall_forall in Ha, Hb.
      destruct (Hb a Ia) as [E1 | L1].
      - apply Nb. rewrite E1. apply (in_map fst r' a Ia).
      - destruct (Ha b Ib) as [E2 | L2].
        + apply Na. rewrite E2. apply (in_map fst r b Ib).
        + pose proof (string_ltb_trans _ _ _ L1 L2) as L.
          rewrite string_ltb_irrefl in L. discriminate L. }
    subst b. f_equal.
    apply (IH r' Sr Sr' Nr). apply (Permutation_cons_inv P).
Qed.

(** After line 619 every value can be hashed. *)
Lemma hash_hashed_items
  (hash_str : string -> Z) (hash_num : Q -> Z) (hash_none : Z) (hash_tuple : list Z -> Z)
  (l : dict) :
  exists hs, hash_items hash_str hash_num hash_none hash_tuple (hashed_items l) = Ok hs.
Proof.
  unfold hashed_items.
  induction l as [| [k v] l [hs IH]]; simpl; [exists []; reflexivity |].
  destruct (py_ne v wildcard); [| exists hs; exact IH].
  simpl. rewrite IH.
  destruct v; simpl; eexists; reflexivity.
Qed.

Lemma filter_twice (A : Type) (p : A -> bool) (l : list A) :
  filter p (filter p l) = filter p l.
Proof.
  induction l as [| x l IH]; simpl; [reflexivity |].
  destruct (p x) eqn:Px; simpl; [rewrite Px, IH; reflexivity | exact IH].
Qed.

(** The hash of a query is there whatever the values are, also for a list,
    which an identifier cannot hash. It depends on the fields that are not
    wildcards only, and not on the order in which the query holds them: the
    query rebuilt from its trimmed dict and any query with the same items
    in another order have the same hash. *)
Theorem dataquery_hash_content
  (hash_str : string -> Z) (hash_num : Q -> Z) (hash_none : Z) (hash_tuple : list Z -> Z)
  (q : DataQuery) :
  NoDup (dict_keys (_dict q)) ->
  exists h,
    DataQuery_hash hash_str hash_num hash_none hash_tuple q = Ok h /\
    DataQuery_hash hash_str hash_num hash_none hash_tuple
      (DataQuery_from_dict (DataQuery_to_dict q true)) = Ok h /\
    (forall q', Permutation (_dict q') (_dict q) ->
                DataQuery_hash hash_str hash_num hash_none hash_tuple q' = Ok h).
Proof.
  intro N.
  destruct (py_sorted_items (_dict q) N) as [r [E [P [S Nr]]]].
  destruct (hash_hashed_items hash_str hash_num hash_none hash_tuple r) as [hs Hh].
  exists (hash_tuple hs). split; [| split].
  - unfold DataQuery_hash. rewrite E. simpl. rewrite Hh. reflexivity.
  - unfold DataQuery_hash, DataQuery_from_dict, DataQuery_to_dict, _to_trimmed_dict.
    cbn [_dict].
    rewrite (py_sorted_filter (fun kv => py_ne (snd kv) wildcard) (_dict q) N r E).
    simpl. unfold hashed_items in *. rewrite filter_twice, Hh. reflexivity.
  - intros q' P'.
    assert (N' : NoDup (dict_keys (_dict q'))).
    { unfold dict_keys.
      apply (Permutation_NoDup (Permutation_sym (Permutation_map fst P'))). exact N. }
    destruct (py_sorted_items (_dict q') N') as [r' [E' [Pr' [S' _]]]].
    assert (R : r = r').
    { apply (sorted_items_unique r r' S S' Nr).
      apply perm_trans with (_dict q); [exact P |].
      apply perm_trans with (_dict q'); [apply Permutation_sym; exact P' |].
      apply Permutation_sym. exact Pr'. }
    subst r'. unfold DataQuery_hash. rewrite E'. simpl. rewrite Hh. reflexivity.
Qed.

Lemma dataquery_hash_content_witness :
  exists h,
    DataQuery_hash example_hash_str example_hash_num 0%Z example_hash_tuple
      (mkQuery [("name"%string, VStr "ch1"); ("modifiers"%string, VList [AStr "sunz"]);
                ("resolution"%string, wildcard)]) = Ok h /\
    DataQuery_hash example_hash_str example_hash_num 0%Z example_hash_tuple
      (mkQuery [("modifiers"%string, VList [AStr "sunz"]); ("name"%string, VStr "ch1")])
    = Ok h.
Proof.
  destruct (dataquery_hash_content example_hash_str example_hash_num 0%Z example_hash_tuple
              (mkQuery [("name"%string, VStr "ch1");
                        ("modifiers"%string, VList [AStr "sunz"]);
                        ("resolution"%string, wildcard)]))
    as [h [H1 [H2 _]]].
  - unfold dict_keys. simpl. repeat constructor; simpl; intuition discriminate.
  - exists h. split; [exact H1 |].
    vm_compute in H1. vm_compute. exact H1.
Defined.
